(** * webAO audio layer: decode cache, software playback handle, remote offset

    A shallow embedding of [src/webAO/packets/handlers/handleRMC.ts]
    (the RMC packet handler together with the Opus polyfill that the file
    carries) and the facts about it that the specification states.

    Conventions of the embedding.
    - A JavaScript [number] is an IEEE double.  It is modelled as an exact
      rational extended with [NaN] and the two infinities; rounding and the
      sign of zero are outside the model.
    - A host call that throws is an outcome of its own ([None], [Threw],
      [TypeError]) and ends the function that made it, with the state as
      the statements before it left it.
    - Objects that the code mutates are records threaded through the
      functions; an [async] function is cut at its [await]s into the pieces
      that run without interruption.
    - What belongs to the host (network, decode engine, Web Audio graph,
      [HTMLAudioElement], timers, the wall clock) is either a field of
      [Host] or a small state machine written next to the code that drives
      it, following the documented behaviour of the Web platform. *)

From Stdlib Require Import String Ascii List ZArith QArith Qreduction Bool Arith Lia Lqa.
From Stdlib Require Floats.
Import ListNotations.

Set Implicit Arguments.

(* ------------------------------------------------------------------ *)
(** ** The host language: numbers, truthiness, strings *)

Module JS.

Inductive number : Type :=
| NaN
| PInf
| NInf
| Fin (q : Q).

(** [ToBoolean] on a number: [NaN] and zero are falsy. *)
Definition truthy (n : number) : bool :=
  match n with
  | NaN => false
  | Fin q => negb (Qeq_bool q 0)
  | PInf | NInf => true
  end.

(** [a || b] on numbers. *)
Definition or (a b : number) : number := if truthy a then a else b.

Definition add (a b : number) : number :=
  match a, b with
  | NaN, _ | _, NaN => NaN
  | PInf, NInf | NInf, PInf => NaN
  | PInf, _ | _, PInf => PInf
  | NInf, _ | _, NInf => NInf
  | Fin x, Fin y => Fin (Qred (x + y))
  end.

Definition sub (a b : number) : number :=
  match a, b with
  | NaN, _ | _, NaN => NaN
  | PInf, PInf | NInf, NInf => NaN
  | PInf, _ | _, NInf => PInf
  | NInf, _ | _, PInf => NInf
  | Fin x, Fin y => Fin (Qred (x - y))
  end.

(** [a < b]; every comparison with [NaN] is false. *)
Definition ltb (a b : number) : bool :=
  match a, b with
  | NaN, _ | _, NaN => false
  | _, NInf => false
  | NInf, _ => true
  | PInf, _ => false
  | _, PInf => true
  | Fin x, Fin y => negb (Qle_bool y x)
  end.

(** [Math.min] and [Math.max]: [NaN] is contagious. *)
Definition Math_min (a b : number) : number :=
  match a, b with
  | NaN, _ | _, NaN => NaN
  | _, _ => if ltb b a then b else a
  end.

Definition Math_max (a b : number) : number :=
  match a, b with
  | NaN, _ | _, NaN => NaN
  | _, _ => if ltb a b then b else a
  end.

(** Numeric equality [a === b]: never true of [NaN]. *)
Definition eq (a b : number) : Prop :=
  match a, b with
  | PInf, PInf | NInf, NInf => True
  | Fin x, Fin y => (x == y)%Q
  | _, _ => False
  end.

(** A number used as an array index: only a non-negative integer names an
    element; any other property key ("1.5", "-1", "Infinity") is absent. *)
Definition arrayIndex (n : number) : option nat :=
  match n with
  | Fin q =>
      let r := Qred q in
      if (Zpos (Qden r) =? 1)%Z && (0 <=? Qnum r)%Z then Some (Z.to_nat (Qnum r)) else None
  | _ => None
  end.

(** [String.prototype.endsWith]. *)
Definition endsWith (s suffix : string) : bool :=
  let n := String.length s in
  let m := String.length suffix in
  (m <=? n)%nat && String.eqb (substring (n - m) m s) suffix.

(** [ToBoolean] on a string: only the empty string is falsy. *)
Definition truthy_string (s : string) : bool :=
  match s with
  | EmptyString => false
  | String _ _ => true
  end.

(** [new Date().getTime() / 1000] for a clock that reads [ms] milliseconds. *)
Definition seconds (ms : Z) : number := Fin (Qred (inject_Z ms / 1000)).

End JS.

(* ------------------------------------------------------------------ *)
(** ** The drift formula in the host's own arithmetic *)

Module Binary64.

Import Floats.
Local Open Scope float_scope.

(** [totime + (new Date().getTime() / 1000 - loadStartTime)] on doubles,
    with [loadStartTime] the clock in milliseconds over 1000 as well. *)
Definition target (totime start_ms now_ms : float) : float :=
  totime + (now_ms / 1000 - start_ms / 1000).

(** [|x - y| < tolerance]. *)
Definition within (tolerance x y : float) : bool :=
  abs (x - y) <? tolerance.

(** The double nearest to 5.3, and a tolerance of 2^-20 (just under a
    millionth). *)
Definition nearest_5_3 : float := 0x1.5333333333333p+2.
Definition tolerance : float := 0x1p-20.

(** An offset of 5, received when the clock read 1700000000000ms and
    applied 300ms later. *)
Definition sample : float := target 5 1700000000000 1700000000300.

(** [x === y] on doubles. *)
Definition same (x y : float) : bool := x =? y.

End Binary64.

(* ------------------------------------------------------------------ *)
(** ** Software decoder and decode cache ([decodeOpusFile]) *)

Module Decoder.

(** The value of [dec.decodeFile]. *)
Record Decoded : Type := {
  channelData : list (list Q);
  samplesDecoded : nat;
  sampleRate : Q
}.

(** The host [AudioBuffer]. *)
Record AudioBuffer : Type := {
  ab_data : list (list Q);
  ab_length : nat;
  ab_sampleRate : Q
}.

(** [AudioBuffer.duration]: frames over sample rate. *)
Definition duration (b : AudioBuffer) : JS.number :=
  JS.Fin (Qred (inject_Z (Z.of_nat (ab_length b)) / ab_sampleRate b)).

(** The value of [fetch]: [response.ok], [response.status] and the body. *)
Record Response : Type := {
  ok : bool;
  status : Z;
  body : list Byte.byte
}.

(** What the code asks of the host.  [fetch] may answer differently each
    time: its first argument is the number of host calls made so far.
    [nominalRate] tells the sample rates that the audio context accepts
    for a buffer. *)
Record Host : Type := {
  fetch : nat -> string -> Response;
  decodeFile : list Byte.byte -> Decoded;
  nominalRate : Q -> bool
}.

Inductive Error : Type :=
| FetchFailed (url : string) (st : Z)   (* `Failed to fetch ${url}: ${status}` *)
| NoSamples (url : string)              (* `Failed to decode ${url}: no samples` *)
| NotSupportedError                     (* createBuffer on arguments it rejects *)
| RangeError.                           (* TypedArray.set on a longer source *)

Inductive Result (A : Type) : Type :=
| Ok (a : A)
| Throw (e : Error).
Arguments Ok {A} a.
Arguments Throw {A} e.

(** Calls that reach the host, in order (the instrumentation the
    specification speaks of). *)
Inductive HostCall : Type :=
| CallFetch (url : string)
| CallDecodeFile (url : string)
| CallReset.

(** The [Map] keeps its keys in insertion order. *)
Definition Cache : Type := list (string * AudioBuffer).

Fixpoint cache_get (k : string) (c : Cache) : option AudioBuffer :=
  match c with
  | [] => None
  | (k', v) :: r => if String.eqb k k' then Some v else cache_get k r
  end.

Definition cache_has (k : string) (c : Cache) : bool :=
  match cache_get k c with
  | Some _ => true
  | None => false
  end.

Definition cache_size (c : Cache) : nat := List.length c.

(** [keys().next().value]: [undefined] on an empty map. *)
Definition cache_firstKey (c : Cache) : option string :=
  match c with
  | [] => None
  | (k, _) :: _ => Some k
  end.

Fixpoint cache_delete (k : string) (c : Cache) : Cache :=
  match c with
  | [] => []
  | (k', v) :: r => if String.eqb k k' then r else (k', v) :: cache_delete k r
  end.

(** [Map.prototype.set]: an existing key keeps its place, a new one goes
    last. *)
Fixpoint cache_set (k : string) (v : AudioBuffer) (c : Cache) : Cache :=
  match c with
  | [] => [(k, v)]
  | (k', v') :: r =>
      if String.eqb k k' then (k', v) :: r else (k', v') :: cache_set k v r
  end.

Definition cache_keys (c : Cache) : list string := map fst c.

(** Module-level state of the polyfill: the cache, the lazily created
    decoder, and the trace of host calls. *)
Record State : Type := {
  audioBufferCache : Cache;
  decoder : bool;
  calls : list HostCall
}.

Definition initial : State :=
  {| audioBufferCache := []; decoder := false; calls := [] |}.

Definition with_cache (c : Cache) (s : State) : State :=
  {| audioBufferCache := c; decoder := decoder s; calls := calls s |}.

Definition called (h : HostCall) (s : State) : State :=
  {| audioBufferCache := audioBufferCache s; decoder := decoder s;
     calls := calls s ++ [h] |}.

(** [getDecoder]: creates the singleton on first use. *)
Definition getDecoder (s : State) : State :=
  {| audioBufferCache := audioBufferCache s; decoder := true; calls := calls s |}.

(** [ctx.createBuffer(channels, length, rate)]: silent channels; the host
    throws ([None]) on no channel, on no frame, and on a sample rate outside
    its nominal range. *)
Definition createBuffer (h : Host) (channels len : nat) (rate : Q) : option AudioBuffer :=
  if (channels =? 0)%nat || (len =? 0)%nat || negb (nominalRate h rate) then None
  else Some {| ab_data := repeat (repeat 0%Q len) channels;
               ab_length := len;
               ab_sampleRate := rate |}.

(** [dest.set(src)]: copies [src] over the start of [dest]. *)
Definition typed_set (dest src : list Q) : option (list Q) :=
  if (List.length src <=? List.length dest)%nat
  then Some (src ++ skipn (List.length src) dest)
  else None.

(** The copy loop over [channelData]. *)
Fixpoint copy_channels (dest src : list (list Q)) : option (list (list Q)) :=
  match src, dest with
  | [], _ => Some dest
  | s :: src', d :: dest' =>
      match typed_set d s with
      | Some d' =>
          match copy_channels dest' src' with
          | Some r => Some (d' :: r)
          | None => None
          end
      | None => None
      end
  | _ :: _, [] => None
  end.

Definition fill (b : AudioBuffer) (src : list (list Q)) : option AudioBuffer :=
  match copy_channels (ab_data b) src with
  | Some d =>
      Some {| ab_data := d; ab_length := ab_length b; ab_sampleRate := ab_sampleRate b |}
  | None => None
  end.

(** Lines 141-147: the size test comes before the insertion, and the
    eviction is skipped when the first key is falsy. *)
Definition cache_insert (url : string) (b : AudioBuffer) (c : Cache) : Cache :=
  let c1 :=
    if (100 <? cache_size c)%nat then
      match cache_firstKey c with
      | Some firstKey => if JS.truthy_string firstKey then cache_delete firstKey c else c
      | None => c
      end
    else c in
  cache_set url b c1.

(** What a call has become once it reaches its first [await]. *)
Inductive Pending : Type :=
| Hit (b : AudioBuffer)
| Miss (url : string).

(** [decodeOpusFile] up to the first [await]: the cache lookup, then
    [getDecoder]. *)
Definition decode_begin (url : string) (s : State) : Pending * State :=
  match cache_get url (audioBufferCache s) with
  | Some b => (Hit b, s)
  | None => (Miss url, getDecoder s)
  end.

(** [decodeOpusFile] from the fetch to the return. *)
Definition decode_finish (h : Host) (p : Pending) (s : State)
  : Result AudioBuffer * State :=
  match p with
  | Hit b => (Ok b, s)
  | Miss url =>
      let response := fetch h (List.length (calls s)) url in
      let s1 := called (CallFetch url) s in
      if negb (ok response) then (Throw (FetchFailed url (status response)), s1)
      else
        let d := decodeFile h (body response) in
        let s2 := called (CallDecodeFile url) s1 in
        if (samplesDecoded d =? 0)%nat then (Throw (NoSamples url), s2)
        else
          match createBuffer h (List.length (channelData d)) (samplesDecoded d)
                  (sampleRate d) with
          | None => (Throw NotSupportedError, s2)
          | Some audioBuffer =>
              match fill audioBuffer (channelData d) with
              | None => (Throw RangeError, s2)
              | Some audioBuffer =>
                  let s3 :=
                    with_cache (cache_insert url audioBuffer (audioBufferCache s2)) s2 in
                  (Ok audioBuffer, called CallReset s3)
              end
          end
  end.

(** A call of [decodeOpusFile] that runs to its end before anything else
    touches the module state. *)
Definition decodeOpusFile (h : Host) (url : string) (s : State)
  : Result AudioBuffer * State :=
  let (p, s1) := decode_begin url s in
  decode_finish h p s1.

(** Sequential calls, one per uri, results dropped. *)
Fixpoint decode_all (h : Host) (urls : list string) (s : State) : State :=
  match urls with
  | [] => s
  | u :: r => decode_all h r (snd (decodeOpusFile h u s))
  end.

(** How many times the decode engine ran for [url]. *)
Definition decode_count (url : string) (s : State) : nat :=
  List.length
    (filter (fun c => match c with
                      | CallDecodeFile u => String.eqb u url
                      | _ => false
                      end) (calls s)).

Definition fetch_count (url : string) (s : State) : nat :=
  List.length
    (filter (fun c => match c with
                      | CallFetch u => String.eqb u url
                      | _ => false
                      end) (calls s)).

End Decoder.

(* ------------------------------------------------------------------ *)
(** ** The Web Audio graph, as far as the polyfill drives it *)

Module WebAudio.

(** Life of an [AudioBufferSourceNode].  The Web Audio API has the host
    dispatch [ended] to an [AudioScheduledSourceNode] when the node has
    stopped playing: because its buffer ran out, or because a [stop()] took
    effect.  [Stopping] is a node on which [stop()] was called and whose
    [ended] event has not been dispatched yet. *)
Inductive Playback : Type :=
| Unscheduled
| Playing (offset : JS.number)
| Stopping
| Finished.

Record SourceNode : Type := {
  buffer : option Decoder.AudioBuffer;
  loop : bool;
  connected : bool;
  onended : option nat;      (* the handle whose method installed the handler *)
  playback : Playback
}.

Record AudioContext : Type := {
  currentTime : JS.number;
  suspended : bool;
  nodes : list SourceNode
}.

Definition with_nodes (l : list SourceNode) (c : AudioContext) : AudioContext :=
  {| currentTime := currentTime c; suspended := suspended c; nodes := l |}.

Definition resumed (c : AudioContext) : AudioContext :=
  {| currentTime := currentTime c; suspended := false; nodes := nodes c |}.

Fixpoint update_nth (n : nat) (f : SourceNode -> SourceNode) (l : list SourceNode)
  : list SourceNode :=
  match n, l with
  | _, [] => []
  | O, x :: r => f x :: r
  | S n', x :: r => x :: update_nth n' f r
  end.

Definition update_node (n : nat) (f : SourceNode -> SourceNode) (c : AudioContext)
  : AudioContext :=
  with_nodes (update_nth n f (nodes c)) c.

(** [ctx.createBufferSource()]: the new node and its index. *)
Definition createBufferSource (c : AudioContext) : nat * AudioContext :=
  (List.length (nodes c),
   with_nodes (nodes c ++ [ {| buffer := None; loop := false; connected := false;
                               onended := None; playback := Unscheduled |} ]) c).

Definition set_buffer (b : Decoder.AudioBuffer) (x : SourceNode) : SourceNode :=
  {| buffer := Some b; loop := loop x; connected := connected x;
     onended := onended x; playback := playback x |}.

Definition set_loop (v : bool) (x : SourceNode) : SourceNode :=
  {| buffer := buffer x; loop := v; connected := connected x;
     onended := onended x; playback := playback x |}.

Definition set_connected (v : bool) (x : SourceNode) : SourceNode :=
  {| buffer := buffer x; loop := loop x; connected := v;
     onended := onended x; playback := playback x |}.

Definition set_onended (owner : nat) (x : SourceNode) : SourceNode :=
  {| buffer := buffer x; loop := loop x; connected := connected x;
     onended := Some owner; playback := playback x |}.

Definition set_playback (p : Playback) (x : SourceNode) : SourceNode :=
  {| buffer := buffer x; loop := loop x; connected := connected x;
     onended := onended x; playback := p |}.

(** What [node.start(0, offset)] does not take: the host throws a
    RangeError on a negative offset and a TypeError on one that is not
    finite. *)
Definition refuses (offset : JS.number) : bool :=
  match offset with
  | JS.Fin q => negb (Qle_bool 0 q)
  | _ => true
  end.

(** [node.start(0, offset)]; [None] when it throws, and the node is then
    as it was. *)
Definition start (offset : JS.number) (x : SourceNode) : option SourceNode :=
  if refuses offset then None else Some (set_playback (Playing offset) x).

(** [node.stop()]: throws ([None]) on a node that was never started; on a
    playing node it schedules the end of playback. *)
Definition stop (x : SourceNode) : option SourceNode :=
  match playback x with
  | Unscheduled => None
  | Playing _ => Some (set_playback Stopping x)
  | Stopping | Finished => Some x
  end.

(** The two occasions on which the host dispatches [ended] to a node. *)
Definition ran_out (x : SourceNode) : bool :=
  match playback x with
  | Playing _ => negb (loop x)
  | _ => false
  end.

Definition was_stopped (x : SourceNode) : bool :=
  match playback x with
  | Stopping => true
  | _ => false
  end.

End WebAudio.

(* ------------------------------------------------------------------ *)
(** ** The software handle ([PolyfillAudioElement]) *)

Module Polyfill.

(** The notification hooks of the class. *)
Inductive Hook : Type :=
| OnError
| OnEnded
| OnLoadedData
| OnPlay
| OnPause.

(** The object.  [id] stands for the object's identity (what a closure
    over [this] holds on to); a hook is [None] when the field is [null],
    and otherwise names the listener the embedder stored there. *)
Record PolyfillAudioElement : Type := {
  id : nat;
  _src : string;
  _volume : JS.number;
  _loop : bool;
  _paused : bool;
  _currentTime : JS.number;
  _duration : JS.number;
  sourceNode : option nat;
  gainNode : option JS.number;          (* the node's [gain.value] *)
  startTime : JS.number;
  audioBuffer : option Decoder.AudioBuffer;
  isLoading : bool;
  loadError : option Decoder.Error;
  onerror : option nat;
  onended : option nat;
  onloadeddata : option nat;
  onplay : option nat;
  onpause : option nat
}.

(** The constructor: field initialisers, then the gain node. *)
Definition new_element (i : nat) : PolyfillAudioElement :=
  {| id := i; _src := ""; _volume := JS.Fin 1; _loop := false; _paused := true;
     _currentTime := JS.Fin 0; _duration := JS.Fin 0;
     sourceNode := None; gainNode := Some (JS.Fin 1); startTime := JS.Fin 0;
     audioBuffer := None; isLoading := false; loadError := None;
     onerror := None; onended := None; onloadeddata := None;
     onplay := None; onpause := None |}.

Definition set_src' (v : string) (p : PolyfillAudioElement) :=
  Build_PolyfillAudioElement (id p) v (_volume p) (_loop p) (_paused p)
    (_currentTime p) (_duration p) (sourceNode p) (gainNode p) (startTime p)
    (audioBuffer p) (isLoading p) (loadError p)
    (onerror p) (onended p) (onloadeddata p) (onplay p) (onpause p).

Definition set_volume' (v : JS.number) (p : PolyfillAudioElement) :=
  Build_PolyfillAudioElement (id p) (_src p) v (_loop p) (_paused p)
    (_currentTime p) (_duration p) (sourceNode p) (gainNode p) (startTime p)
    (audioBuffer p) (isLoading p) (loadError p)
    (onerror p) (onended p) (onloadeddata p) (onplay p) (onpause p).

Definition set_loop' (v : bool) (p : PolyfillAudioElement) :=
  Build_PolyfillAudioElement (id p) (_src p) (_volume p) v (_paused p)
    (_currentTime p) (_duration p) (sourceNode p) (gainNode p) (startTime p)
    (audioBuffer p) (isLoading p) (loadError p)
    (onerror p) (onended p) (onloadeddata p) (onplay p) (onpause p).

Definition set_paused' (v : bool) (p : PolyfillAudioElement) :=
  Build_PolyfillAudioElement (id p) (_src p) (_volume p) (_loop p) v
    (_currentTime p) (_duration p) (sourceNode p) (gainNode p) (startTime p)
    (audioBuffer p) (isLoading p) (loadError p)
    (onerror p) (onended p) (onloadeddata p) (onplay p) (onpause p).

Definition set_currentTime' (v : JS.number) (p : PolyfillAudioElement) :=
  Build_PolyfillAudioElement (id p) (_src p) (_volume p) (_loop p) (_paused p)
    v (_duration p) (sourceNode p) (gainNode p) (startTime p)
    (audioBuffer p) (isLoading p) (loadError p)
    (onerror p) (onended p) (onloadeddata p) (onplay p) (onpause p).

Definition set_duration' (v : JS.number) (p : PolyfillAudioElement) :=
  Build_PolyfillAudioElement (id p) (_src p) (_volume p) (_loop p) (_paused p)
    (_currentTime p) v (sourceNode p) (gainNode p) (startTime p)
    (audioBuffer p) (isLoading p) (loadError p)
    (onerror p) (onended p) (onloadeddata p) (onplay p) (onpause p).

Definition set_sourceNode' (v : option nat) (p : PolyfillAudioElement) :=
  Build_PolyfillAudioElement (id p) (_src p) (_volume p) (_loop p) (_paused p)
    (_currentTime p) (_duration p) v (gainNode p) (startTime p)
    (audioBuffer p) (isLoading p) (loadError p)
    (onerror p) (onended p) (onloadeddata p) (onplay p) (onpause p).

Definition set_gainNode' (v : option JS.number) (p : PolyfillAudioElement) :=
  Build_PolyfillAudioElement (id p) (_src p) (_volume p) (_loop p) (_paused p)
    (_currentTime p) (_duration p) (sourceNode p) v (startTime p)
    (audioBuffer p) (isLoading p) (loadError p)
    (onerror p) (onended p) (onloadeddata p) (onplay p) (onpause p).

Definition set_startTime' (v : JS.number) (p : PolyfillAudioElement) :=
  Build_PolyfillAudioElement (id p) (_src p) (_volume p) (_loop p) (_paused p)
    (_currentTime p) (_duration p) (sourceNode p) (gainNode p) v
    (audioBuffer p) (isLoading p) (loadError p)
    (onerror p) (onended p) (onloadeddata p) (onplay p) (onpause p).

Definition set_audioBuffer' (v : option Decoder.AudioBuffer) (p : PolyfillAudioElement) :=
  Build_PolyfillAudioElement (id p) (_src p) (_volume p) (_loop p) (_paused p)
    (_currentTime p) (_duration p) (sourceNode p) (gainNode p) (startTime p)
    v (isLoading p) (loadError p)
    (onerror p) (onended p) (onloadeddata p) (onplay p) (onpause p).

Definition set_isLoading' (v : bool) (p : PolyfillAudioElement) :=
  Build_PolyfillAudioElement (id p) (_src p) (_volume p) (_loop p) (_paused p)
    (_currentTime p) (_duration p) (sourceNode p) (gainNode p) (startTime p)
    (audioBuffer p) v (loadError p)
    (onerror p) (onended p) (onloadeddata p) (onplay p) (onpause p).

Definition set_loadError' (v : option Decoder.Error) (p : PolyfillAudioElement) :=
  Build_PolyfillAudioElement (id p) (_src p) (_volume p) (_loop p) (_paused p)
    (_currentTime p) (_duration p) (sourceNode p) (gainNode p) (startTime p)
    (audioBuffer p) (isLoading p) v
    (onerror p) (onended p) (onloadeddata p) (onplay p) (onpause p).

(** The embedder stores listener [f] in each of the five hooks. *)
Definition listen_all (f : nat) (p : PolyfillAudioElement) :=
  Build_PolyfillAudioElement (id p) (_src p) (_volume p) (_loop p) (_paused p)
    (_currentTime p) (_duration p) (sourceNode p) (gainNode p) (startTime p)
    (audioBuffer p) (isLoading p) (loadError p)
    (Some f) (Some f) (Some f) (Some f) (Some f).

Definition hook (k : Hook) (p : PolyfillAudioElement) : option nat :=
  match k with
  | OnError => onerror p
  | OnEnded => onended p
  | OnLoadedData => onloadeddata p
  | OnPlay => onplay p
  | OnPause => onpause p
  end.

(** A suspended [async] call of the class. *)
Inductive Task : Type :=
| LoadTask (owner : nat) (url : string) (p : Decoder.Pending)
    (* [loadAudio(url)] at [await decodeOpusFile(url)] *)
| PlayTask (owner : nat)
    (* [play()] at [await resumeAudioContext()] *)
| PollTask (owner : nat).
    (* [play()] inside [checkLoaded]'s 10ms timer *)

(** Everything the methods reach besides [this]: the shared audio context,
    the decoder module's state, the suspended calls, and the hook calls made
    so far (handle, hook). *)
Record Runtime : Type := {
  ctx : WebAudio.AudioContext;
  dec : Decoder.State;
  tasks : list Task;
  fired : list (nat * Hook)
}.

Record Sys : Type := {
  this : PolyfillAudioElement;
  rt : Runtime
}.

Definition on_this (f : PolyfillAudioElement -> PolyfillAudioElement) (s : Sys) : Sys :=
  {| this := f (this s); rt := rt s |}.

Definition on_ctx (f : WebAudio.AudioContext -> WebAudio.AudioContext) (s : Sys) : Sys :=
  {| this := this s;
     rt := {| ctx := f (ctx (rt s)); dec := dec (rt s);
              tasks := tasks (rt s); fired := fired (rt s) |} |}.

Definition put_dec (d : Decoder.State) (s : Sys) : Sys :=
  {| this := this s;
     rt := {| ctx := ctx (rt s); dec := d;
              tasks := tasks (rt s); fired := fired (rt s) |} |}.

Definition put_tasks (l : list Task) (s : Sys) : Sys :=
  {| this := this s;
     rt := {| ctx := ctx (rt s); dec := dec (rt s);
              tasks := l; fired := fired (rt s) |} |}.

Definition suspend (t : Task) (s : Sys) : Sys :=
  put_tasks (tasks (rt s) ++ [t]) s.

(** How a setter or a private method ends: normally, or with an exception
    that the host threw inside it; either way it leaves a state. *)
Inductive Outcome : Type :=
| Done (s : Sys)
| Threw (s : Sys).

Definition after (o : Outcome) : Sys :=
  match o with
  | Done s => s
  | Threw s => s
  end.

Definition threw (o : Outcome) : bool :=
  match o with
  | Done _ => false
  | Threw _ => true
  end.

(** [if (this.onX) this.onX(new Event(...))].  The listener is the
    embedder's code; it is recorded as called and taken not to call back
    into the handle. *)
Definition notify (k : Hook) (s : Sys) : Sys :=
  match hook k (this s) with
  | Some _ =>
      {| this := this s;
         rt := {| ctx := ctx (rt s); dec := dec (rt s); tasks := tasks (rt s);
                  fired := fired (rt s) ++ [(id (this s), k)] |} |}
  | None => s
  end.

(** [private async loadAudio(url)], up to its [await]. *)
Definition loadAudio (url : string) (s : Sys) : Sys :=
  if isLoading (this s) then s
  else
    let s1 := on_this (set_isLoading' true) s in
    let (p, d) := Decoder.decode_begin url (dec (rt s1)) in
    suspend (LoadTask (id (this s1)) url p) (put_dec d s1).

(** [loadAudio] after the [await]: the [try] body on a value, the [catch]
    on a rejection. *)
Definition loadAudio_resume (r : Decoder.Result Decoder.AudioBuffer) (s : Sys) : Sys :=
  match r with
  | Decoder.Ok b =>
      let s1 := on_this (set_audioBuffer' (Some b)) s in
      let s2 := on_this (set_duration' (Decoder.duration b)) s1 in
      let s3 := on_this (set_isLoading' false) s2 in
      notify OnLoadedData s3
  | Decoder.Throw e =>
      let s1 := on_this (set_isLoading' false) s in
      let s2 := on_this (set_loadError' (Some e)) s1 in
      notify OnError s2
  end.

(** [set src(value)]. *)
Definition set_src (value : string) (s : Sys) : Sys :=
  let s1 := on_this (set_src' value) s in
  let s2 := on_this (set_loadError' None) s1 in
  let s3 := on_this (set_audioBuffer' None) s2 in
  let s4 := on_this (set_duration' (JS.Fin 0)) s3 in
  let s5 := on_this (set_currentTime' (JS.Fin 0)) s4 in
  if JS.truthy_string value && JS.endsWith value ".opus"
  then loadAudio value s5
  else s5.

(** [set volume(value)].  [gain.value] is a [float] attribute of the host:
    the assignment of a number that is not finite throws a TypeError and
    the gain keeps its value.  After the clamp that number can only be
    [NaN]. *)
Definition set_volume (value : JS.number) (s : Sys) : Outcome :=
  let s1 := on_this (set_volume' (JS.Math_max (JS.Fin 0) (JS.Math_min (JS.Fin 1) value))) s in
  match gainNode (this s1) with
  | Some _ =>
      match _volume (this s1) with
      | JS.Fin _ => Done (on_this (set_gainNode' (Some (_volume (this s1)))) s1)
      | _ => Threw s1
      end
  | None => Done s1
  end.

(** [set loop(value)]. *)
Definition set_loop (value : bool) (s : Sys) : Sys :=
  let s1 := on_this (set_loop' value) s in
  match sourceNode (this s1) with
  | Some n => on_ctx (WebAudio.update_node n (WebAudio.set_loop value)) s1
  | None => s1
  end.

(** [get currentTime()]. *)
Definition get_currentTime (s : Sys) : JS.number :=
  if negb (_paused (this s)) && JS.ltb (JS.Fin 0) (startTime (this s))
  then JS.sub (WebAudio.currentTime (ctx (rt s))) (startTime (this s))
  else _currentTime (this s).

(** [private stop()]: an exception of [sourceNode.stop()] skips the
    [disconnect()] and is swallowed. *)
Definition stop (s : Sys) : Sys :=
  match sourceNode (this s) with
  | Some n =>
      let s1 :=
        on_ctx (WebAudio.update_node n
                  (fun x => match WebAudio.stop x with
                            | Some x' => WebAudio.set_connected false x'
                            | None => x
                            end)) s in
      on_this (set_sourceNode' None) s1
  | None => s
  end.

(** [private playFromOffset(offset)].  When [start] throws, the new node
    is in [sourceNode], unstarted, [startTime] has been written and
    [_paused] has not. *)
Definition playFromOffset (offset : JS.number) (s : Sys) : Outcome :=
  match audioBuffer (this s), gainNode (this s) with
  | Some b, Some _ =>
      let (n, c1) := WebAudio.createBufferSource (ctx (rt s)) in
      let s1 := on_this (set_sourceNode' (Some n)) (on_ctx (fun _ => c1) s) in
      let s2 := on_ctx (WebAudio.update_node n (WebAudio.set_buffer b)) s1 in
      let s3 := on_ctx (WebAudio.update_node n (WebAudio.set_loop (_loop (this s2)))) s2 in
      let s4 := on_ctx (WebAudio.update_node n (WebAudio.set_connected true)) s3 in
      let s5 := on_ctx (WebAudio.update_node n (WebAudio.set_onended (id (this s4)))) s4 in
      let s6 := on_this (set_startTime'
                           (JS.sub (WebAudio.currentTime (ctx (rt s5))) offset)) s5 in
      let started x := match WebAudio.start offset x with
                       | Some x' => x'
                       | None => x
                       end in
      let s7 := on_ctx (WebAudio.update_node n started) s6 in
      if WebAudio.refuses offset then Threw s7
      else Done (on_this (set_paused' false) s7)
  | _, _ => Done s
  end.

(** The handler that [playFromOffset] stores in [sourceNode.onended]. *)
Definition sourceNode_onended (s : Sys) : Sys :=
  if negb (_loop (this s)) then
    let s1 := on_this (set_paused' true) s in
    let s2 := on_this (set_currentTime' (JS.Fin 0)) s1 in
    notify OnEnded s2
  else s.

(** [set currentTime(value)]. *)
Definition set_currentTime (value : JS.number) (s : Sys) : Outcome :=
  let s1 := on_this (set_currentTime' value) s in
  match _paused (this s1), audioBuffer (this s1) with
  | false, Some _ => playFromOffset value (stop s1)
  | _, _ => Done s1
  end.

(** [async play()], up to [await resumeAudioContext()]. *)
Definition play (s : Sys) : Sys :=
  suspend (PlayTask (id (this s))) s.

(** [play()] from the test of [audioBuffer] to its end.  An exception of
    [playFromOffset] rejects the promise of [play()]: the hook is not
    called. *)
Definition play_body (s : Sys) : Sys :=
  match audioBuffer (this s) with
  | None => notify OnError s
  | Some _ =>
      let s1 := stop s in
      match playFromOffset (_currentTime (this s1)) s1 with
      | Done s2 => notify OnPlay s2
      | Threw s2 => s2
      end
  end.

(** [play()] once the audio context runs: either it goes on at once, or it
    parks in [checkLoaded]'s timer. *)
Definition play_resume (s : Sys) : Sys :=
  let s1 := on_ctx WebAudio.resumed s in
  if isLoading (this s1) then suspend (PollTask (id (this s1))) s1
  else play_body s1.

(** [checkLoaded] when its timer fires; once the load is over the
    promise resolves and [play()] goes on. *)
Definition play_poll (s : Sys) : Sys :=
  if negb (isLoading (this s)) then play_body s
  else suspend (PollTask (id (this s))) s.

(** [pause()]. *)
Definition pause (s : Sys) : Sys :=
  match sourceNode (this s), _paused (this s) with
  | Some _, false =>
      let s1 := on_this (set_currentTime' (get_currentTime s)) s in
      let s2 := stop s1 in
      let s3 := on_this (set_paused' true) s2 in
      notify OnPause s3
  | _, _ => s
  end.

(** [load()]. *)
Definition load (s : Sys) : Sys :=
  if JS.truthy_string (_src (this s)) then loadAudio (_src (this s)) s else s.

(** The host dispatches [ended] to node [n]: the node is done, and the
    handler runs if it is this handle's. *)
Definition dispatch_ended (n : nat) (s : Sys) : Sys :=
  match nth_error (WebAudio.nodes (ctx (rt s))) n with
  | Some x =>
      if WebAudio.ran_out x || WebAudio.was_stopped x then
        let s1 := on_ctx (WebAudio.update_node n (WebAudio.set_playback WebAudio.Finished)) s in
        match WebAudio.onended x with
        | Some owner => if (owner =? id (this s1))%nat then sourceNode_onended s1 else s1
        | None => s1
        end
      else s
  | None => s
  end.

(** The first suspended [loadAudio] of handle [i], and the other tasks. *)
Fixpoint take_load (i : nat) (l : list Task)
  : option (string * Decoder.Pending * list Task) :=
  match l with
  | [] => None
  | LoadTask o u p :: r =>
      if (o =? i)%nat then Some (u, p, r)
      else match take_load i r with
           | Some (u', p', r') => Some (u', p', LoadTask o u p :: r')
           | None => None
           end
  | t :: r =>
      match take_load i r with
      | Some (u', p', r') => Some (u', p', t :: r')
      | None => None
      end
  end.

(** The in-flight load of this handle settles: the rest of
    [decodeOpusFile] runs against the host, then [loadAudio] resumes. *)
Definition settle_load (h : Decoder.Host) (s : Sys) : Sys :=
  match take_load (id (this s)) (tasks (rt s)) with
  | Some (_, p, r) =>
      let (res, d) := Decoder.decode_finish h p (dec (rt s)) in
      loadAudio_resume res (put_dec d (put_tasks r s))
  | None => s
  end.

(** The first suspended [play()] of handle [i] waiting for the audio
    context, and the other tasks. *)
Fixpoint take_play (i : nat) (l : list Task) : option (list Task) :=
  match l with
  | [] => None
  | PlayTask o :: r =>
      if (o =? i)%nat then Some r
      else option_map (cons (PlayTask o)) (take_play i r)
  | t :: r => option_map (cons t) (take_play i r)
  end.

(** The same for a [play()] parked in the 10ms timer. *)
Fixpoint take_poll (i : nat) (l : list Task) : option (list Task) :=
  match l with
  | [] => None
  | PollTask o :: r =>
      if (o =? i)%nat then Some r
      else option_map (cons (PollTask o)) (take_poll i r)
  | t :: r => option_map (cons t) (take_poll i r)
  end.

Definition wake_play (s : Sys) : Sys :=
  match take_play (id (this s)) (tasks (rt s)) with
  | Some r => play_resume (put_tasks r s)
  | None => s
  end.

Definition wake_poll (s : Sys) : Sys :=
  match take_poll (id (this s)) (tasks (rt s)) with
  | Some r => play_poll (put_tasks r s)
  | None => s
  end.

(** The audio clock moves on. *)
Definition advance (t : JS.number) (s : Sys) : Sys :=
  on_ctx (fun c => {| WebAudio.currentTime := t;
                      WebAudio.suspended := WebAudio.suspended c;
                      WebAudio.nodes := WebAudio.nodes c |}) s.

(** One uninterrupted piece of execution that involves the handle: a call
    of its public surface, a suspended call going on, or a host event. *)
Inductive Op : Type :=
| SetSrc (v : string)
| SetVolume (v : JS.number)
| SetLoop (v : bool)
| SetCurrentTime (v : JS.number)
| Play
| Pause
| Load
| WakePlay
| WakePoll
| Settle
| Ended (n : nat)
| Advance (t : JS.number).

(** The state a piece of execution leaves.  An exception thrown inside a
    setter goes to the caller of the setter; the handle stays as the
    setter left it. *)
Definition run (h : Decoder.Host) (o : Op) (s : Sys) : Sys :=
  match o with
  | SetSrc v => set_src v s
  | SetVolume v => after (set_volume v s)
  | SetLoop v => set_loop v s
  | SetCurrentTime v => after (set_currentTime v s)
  | Play => play s
  | Pause => pause s
  | Load => load s
  | WakePlay => wake_play s
  | WakePoll => wake_poll s
  | Settle => settle_load h s
  | Ended n => dispatch_ended n s
  | Advance t => advance t s
  end.

Fixpoint run_all (h : Decoder.Host) (l : list Op) (s : Sys) : Sys :=
  match l with
  | [] => s
  | o :: r => run_all h r (run h o s)
  end.

(** A fresh handle in a fresh page. *)
Definition fresh_sys (i : nat) : Sys :=
  {| this := new_element i;
     rt := {| ctx := {| WebAudio.currentTime := JS.Fin 0;
                        WebAudio.suspended := true;
                        WebAudio.nodes := [] |};
              dec := Decoder.initial; tasks := []; fired := [] |} |}.

End Polyfill.

(* ------------------------------------------------------------------ *)
(** ** The channel router and the remote offset handler ([handleRMC]) *)

Module RMC.

(** The closure that [handleRMC] hands to the host ([onLoaded], or the
    arrow function given to [setTimeout]): the channel it holds on to and
    the two constants it captured.  [c_id] is the function's identity. *)
Record Closure : Type := {
  c_id : nat;
  c_music : nat;
  c_totime : JS.number;
  c_loadStartTime : JS.number
}.

(** Calls received by a native element, in order. *)
Inductive NativeCall : Type :=
| NPause
| NPlay
| NSetCurrentTime (v : JS.number)
| NSetSrc (v : string)
| NAddEventListener (c : nat)         (* "loadedmetadata", closure id *)
| NRemoveEventListener (c : nat).

(** The host's [HTMLAudioElement], as far as this code touches it. *)
Record HTMLAudioElement : Type := {
  src : string;
  volume : JS.number;
  loop : bool;
  paused : bool;
  currentTime : JS.number;
  listeners : list Closure;           (* for "loadedmetadata" *)
  received : list NativeCall
}.

Definition native_pause (n : HTMLAudioElement) : HTMLAudioElement :=
  {| src := src n; volume := volume n; loop := loop n; paused := true;
     currentTime := currentTime n; listeners := listeners n;
     received := received n ++ [NPause] |}.

Definition native_play (n : HTMLAudioElement) : HTMLAudioElement :=
  {| src := src n; volume := volume n; loop := loop n; paused := false;
     currentTime := currentTime n; listeners := listeners n;
     received := received n ++ [NPlay] |}.

(** [element.currentTime = v]: the attribute is a [double] of the host, and
    the assignment of a number that is not finite throws a TypeError
    ([None]) before it reaches the element. *)
Definition native_set_currentTime (v : JS.number) (n : HTMLAudioElement)
  : option HTMLAudioElement :=
  match v with
  | JS.Fin _ =>
      Some {| src := src n; volume := volume n; loop := loop n; paused := paused n;
              currentTime := v; listeners := listeners n;
              received := received n ++ [NSetCurrentTime v] |}
  | _ => None
  end.

(** [element.src = v].  Read back, [src] is the absolute URL that the host
    resolves [v] to; the model keeps [v] itself.  The two agree on what the
    code asks of the value, whether it ends in ".opus", for every source
    that resolving leaves with the same end: not for the empty text, nor
    for one that ends in white space. *)
Definition native_set_src (v : string) (n : HTMLAudioElement) : HTMLAudioElement :=
  {| src := v; volume := volume n; loop := loop n; paused := paused n;
     currentTime := currentTime n; listeners := listeners n;
     received := received n ++ [NSetSrc v] |}.

Definition native_addEventListener (c : Closure) (n : HTMLAudioElement) : HTMLAudioElement :=
  {| src := src n; volume := volume n; loop := loop n; paused := paused n;
     currentTime := currentTime n; listeners := listeners n ++ [c];
     received := received n ++ [NAddEventListener (c_id c)] |}.

Definition native_removeEventListener (c : Closure) (n : HTMLAudioElement) : HTMLAudioElement :=
  {| src := src n; volume := volume n; loop := loop n; paused := paused n;
     currentTime := currentTime n;
     listeners := filter (fun c' => negb (c_id c' =? c_id c)%nat) (listeners n);
     received := received n ++ [NRemoveEventListener (c_id c)] |}.

(** [AudioElement], with the third shape that [wrapAudioElement] produces:
    a [Proxy] around the native element with a companion polyfill. *)
Inductive AudioElement : Type :=
| Native (n : HTMLAudioElement)
| Software (p : Polyfill.PolyfillAudioElement)
| Wrapped (n : HTMLAudioElement) (p : Polyfill.PolyfillAudioElement).

(** [x instanceof HTMLAudioElement].  The proxy has no [getPrototypeOf]
    trap, so its prototype chain is its target's. *)
Definition instanceof_HTMLAudioElement (e : AudioElement) : bool :=
  match e with
  | Native _ => true
  | Software _ => false
  | Wrapped _ _ => true
  end.

(** The [get] trap's test: [(target.src || polyfillElement.src).endsWith(".opus")]. *)
Definition isOpus (n : HTMLAudioElement) (p : Polyfill.PolyfillAudioElement) : bool :=
  JS.endsWith (if JS.truthy_string (src n) then src n else Polyfill._src p) ".opus".

(** A method of the polyfill run on one handle of the page. *)
Definition lift (m : Polyfill.Sys -> Polyfill.Sys)
  (p : Polyfill.PolyfillAudioElement) (r : Polyfill.Runtime)
  : Polyfill.PolyfillAudioElement * Polyfill.Runtime :=
  let s := m {| Polyfill.this := p; Polyfill.rt := r |} in
  (Polyfill.this s, Polyfill.rt s).

(** A setter of the polyfill run on one handle of the page, with whether
    it threw. *)
Definition lift_setter (m : Polyfill.Sys -> Polyfill.Outcome)
  (p : Polyfill.PolyfillAudioElement) (r : Polyfill.Runtime)
  : Polyfill.PolyfillAudioElement * Polyfill.Runtime * bool :=
  let o := m {| Polyfill.this := p; Polyfill.rt := r |} in
  (Polyfill.this (Polyfill.after o), Polyfill.rt (Polyfill.after o), Polyfill.threw o).

(** [wrapAudioElement]; [needsPolyfill] is the memoised capability probe
    and [i] the identity of the polyfill object it creates.  The volume of
    a native element is a number from 0 to 1, which the setter of the
    polyfill takes. *)
Definition wrapAudioElement (needsPolyfill : bool) (i : nat)
  (nativeElement : HTMLAudioElement) (r : Polyfill.Runtime)
  : AudioElement * Polyfill.Runtime :=
  if negb needsPolyfill then (Native nativeElement, r)
  else
    let (p1, r1) :=
      lift (fun s => Polyfill.after (Polyfill.set_volume (volume nativeElement) s))
           (Polyfill.new_element i) r in
    let (p2, r2) := lift (Polyfill.set_loop (loop nativeElement)) p1 r1 in
    (Wrapped nativeElement p2, r2).

(** [music.pause()]. *)
Definition elem_pause (e : AudioElement) (r : Polyfill.Runtime)
  : AudioElement * Polyfill.Runtime :=
  match e with
  | Native n => (Native (native_pause n), r)
  | Software p => let (p', r') := lift Polyfill.pause p r in (Software p', r')
  | Wrapped n p =>
      if isOpus n p
      then let (p', r') := lift Polyfill.pause p r in (Wrapped n p', r')
      else (Wrapped (native_pause n) p, r)
  end.

(** [music.play()]. *)
Definition elem_play (e : AudioElement) (r : Polyfill.Runtime)
  : AudioElement * Polyfill.Runtime :=
  match e with
  | Native n => (Native (native_play n), r)
  | Software p => let (p', r') := lift Polyfill.play p r in (Software p', r')
  | Wrapped n p =>
      if isOpus n p
      then let (p', r') := lift Polyfill.play p r in (Wrapped n p', r')
      else (Wrapped (native_play n) p, r)
  end.

(** [music.currentTime = v], with whether it threw: the [set] trap writes
    the polyfill (which has the property), then the target; an exception of
    the first write leaves the second undone. *)
Definition elem_set_currentTime (v : JS.number) (e : AudioElement) (r : Polyfill.Runtime)
  : AudioElement * Polyfill.Runtime * bool :=
  match e with
  | Native n =>
      match native_set_currentTime v n with
      | Some n' => (Native n', r, false)
      | None => (e, r, true)
      end
  | Software p =>
      match lift_setter (Polyfill.set_currentTime v) p r with
      | (p', r', t) => (Software p', r', t)
      end
  | Wrapped n p =>
      match lift_setter (Polyfill.set_currentTime v) p r with
      | (p', r', true) => (Wrapped n p', r', true)
      | (p', r', false) =>
          match native_set_currentTime v n with
          | Some n' => (Wrapped n' p', r', false)
          | None => (Wrapped n p', r', true)
          end
      end
  end.

(** [music.src = v]: again both halves of a proxy are written. *)
Definition elem_set_src (v : string) (e : AudioElement) (r : Polyfill.Runtime)
  : AudioElement * Polyfill.Runtime :=
  match e with
  | Native n => (Native (native_set_src v n), r)
  | Software p =>
      let (p', r') := lift (Polyfill.set_src v) p r in (Software p', r')
  | Wrapped n p =>
      let (p', r') := lift (Polyfill.set_src v) p r in
      (Wrapped (native_set_src v n) p', r')
  end.

(** [music.addEventListener("loadedmetadata", c, false)].  The polyfill
    class has no such method: routed there, the [get] trap answers
    [undefined] and the call throws a [TypeError] ([None]). *)
Definition elem_addEventListener (c : Closure) (e : AudioElement) : option AudioElement :=
  match e with
  | Native n => Some (Native (native_addEventListener c n))
  | Software _ => None
  | Wrapped n p =>
      if isOpus n p then None
      else Some (Wrapped (native_addEventListener c n) p)
  end.

(** [music.removeEventListener("loadedmetadata", c)]. *)
Definition elem_removeEventListener (c : Closure) (e : AudioElement) : option AudioElement :=
  match e with
  | Native n => Some (Native (native_removeEventListener c n))
  | Software _ => None
  | Wrapped n p =>
      if isOpus n p then None
      else Some (Wrapped (native_removeEventListener c n) p)
  end.

(** The page: the music pool, what the polyfills share, the wall clock in
    milliseconds, the pending [setTimeout]s with their due time, and the
    next function identity. *)
Record World : Type := {
  music : list AudioElement;
  rt : Polyfill.Runtime;
  clock : Z;
  timers : list (Z * Closure);
  nextId : nat
}.

Fixpoint replace_nth (i : nat) (e : AudioElement) (l : list AudioElement)
  : list AudioElement :=
  match i, l with
  | _, [] => []
  | O, _ :: r => e :: r
  | S i', x :: r => x :: replace_nth i' e r
  end.

Definition put (i : nat) (e : AudioElement) (r : Polyfill.Runtime) (w : World) : World :=
  {| music := replace_nth i e (music w); rt := r; clock := clock w;
     timers := timers w; nextId := nextId w |}.

Definition with_timers (l : list (Z * Closure)) (w : World) : World :=
  {| music := music w; rt := rt w; clock := clock w; timers := l; nextId := nextId w |}.

Definition bump (w : World) : World :=
  {| music := music w; rt := rt w; clock := clock w; timers := timers w;
     nextId := S (nextId w) |}.

Definition at_clock (t : Z) (w : World) : World :=
  {| music := music w; rt := rt w; clock := t; timers := timers w; nextId := nextId w |}.

(** The client gives channel [i] a new source. *)
Definition set_src (i : nat) (v : string) (w : World) : World :=
  match nth_error (music w) i with
  | Some e => let (e', r') := elem_set_src v e (rt w) in put i e' r' w
  | None => w
  end.

(** The two conversions of the host language that the handler applies to
    the packet fields; an absent field ([undefined]) is [None]. *)
Record Host : Type := {
  Number : option string -> JS.number;
  parseFloat : option string -> JS.number
}.

(** How a piece of code ends. *)
Inductive Outcome : Type :=
| Returned (w : World)
| TypeError (w : World).

Definition world_of (o : Outcome) : World :=
  match o with
  | Returned w => w
  | TypeError w => w
  end.

(** [client.viewport.music[channel]]. *)
Definition lookup (channel : JS.number) (w : World) : option (nat * AudioElement) :=
  match JS.arrayIndex channel with
  | Some i =>
      match nth_error (music w) i with
      | Some e => Some (i, e)
      | None => None
      end
  | None => None
  end.

(** [handleRMC(args)]. *)
Definition handleRMC (h : Host) (args : list string) (w : World) : Outcome :=
  let channel := JS.or (Number h (nth_error args 2)) (JS.Fin 0) in
  match lookup channel w with
  | None => Returned w
  | Some (i, music0) =>
      let (music1, r1) := elem_pause music0 (rt w) in
      let w1 := put i music1 r1 w in
      let totime := JS.or (parseFloat h (nth_error args 1)) (JS.Fin 0) in
      let loadStartTime := JS.seconds (clock w1) in
      let f := {| c_id := nextId w1; c_music := i;
                  c_totime := totime; c_loadStartTime := loadStartTime |} in
      if instanceof_HTMLAudioElement music1 then
        match elem_addEventListener f music1 with
        | Some music2 => Returned (put i music2 r1 (bump w1))
        | None => TypeError (bump w1)
        end
      else
        Returned (with_timers (timers w1 ++ [((clock w1 + 100)%Z, f)]) (bump w1))
  end.

(** The value both callbacks write: [totime + drift]. *)
Definition target (f : Closure) (w : World) : JS.number :=
  let drift := JS.sub (JS.seconds (clock w)) (c_loadStartTime f) in
  JS.add (c_totime f) drift.

(** The body of [onLoaded].  An exception of the [currentTime] write ends
    it: [play()] and [removeEventListener] are not reached. *)
Definition onLoaded (f : Closure) (w : World) : Outcome :=
  match nth_error (music w) (c_music f) with
  | None => Returned w
  | Some e =>
      match elem_set_currentTime (target f w) e (rt w) with
      | (e1, r1, true) => TypeError (put (c_music f) e1 r1 w)
      | (e1, r1, false) =>
          let (e2, r2) := elem_play e1 r1 in
          match elem_removeEventListener f e2 with
          | Some e3 => Returned (put (c_music f) e3 r2 w)
          | None => TypeError (put (c_music f) e2 r2 w)
          end
      end
  end.

(** The body of the function given to [setTimeout]; the same holds of an
    exception of its [currentTime] write. *)
Definition onTimeout (f : Closure) (w : World) : Outcome :=
  match nth_error (music w) (c_music f) with
  | None => Returned w
  | Some e =>
      match elem_set_currentTime (target f w) e (rt w) with
      | (e1, r1, true) => TypeError (put (c_music f) e1 r1 w)
      | (e1, r1, false) =>
          let (e2, r2) := elem_play e1 r1 in
          Returned (put (c_music f) e2 r2 w)
      end
  end.

(** The listeners of the native element behind channel [i]. *)
Definition listeners_of (e : AudioElement) : list Closure :=
  match e with
  | Native n => listeners n
  | Software _ => []
  | Wrapped n _ => listeners n
  end.

Definition channel_listeners (i : nat) (w : World) : list Closure :=
  match nth_error (music w) i with
  | Some e => listeners_of e
  | None => []
  end.

(** The host dispatches "loadedmetadata" to the native element of channel
    [i] at clock [t]: each listener registered at that moment runs; an
    exception in one is reported and does not stop the others. *)
Definition dispatch_loadedmetadata (i : nat) (t : Z) (w : World) : World :=
  fold_left (fun w' f => world_of (onLoaded f w'))
            (channel_listeners i w) (at_clock t w).

(** The host runs the first due timer at clock [t]. *)
Fixpoint take_due (t : Z) (l : list (Z * Closure))
  : option (Closure * list (Z * Closure)) :=
  match l with
  | [] => None
  | (due, f) :: r =>
      if (due <=? t)%Z then Some (f, r)
      else match take_due t r with
           | Some (g, r') => Some (g, (due, f) :: r')
           | None => None
           end
  end.

Definition run_timer (t : Z) (w : World) : World :=
  match take_due t (timers w) with
  | Some (f, r) => world_of (onTimeout f (with_timers r (at_clock t w)))
  | None => at_clock t w
  end.

(** Readers of decimal literals of the shape [-?digits(.digits)?] and of
    the texts "Infinity" and "-Infinity", used where a concrete host is
    needed.  On such text they agree with the host's [Number] and
    [parseFloat]; text that has no digit at all ("abc") and an absent field
    read as [NaN]; [Number("")] is [0]. *)
Definition digit (c : ascii) : option Z :=
  let n := nat_of_ascii c in
  if (48 <=? n)%nat && (n <=? 57)%nat then Some (Z.of_nat (n - 48)) else None.

Fixpoint read_fraction (s : string) (num den : Z) : option Q :=
  match s with
  | EmptyString => Some (Qred (num # Z.to_pos den))
  | String c r =>
      match digit c with
      | Some d => read_fraction r (10 * num + d)%Z (10 * den)%Z
      | None => None
      end
  end.

Fixpoint read_digits (s : string) (acc : Z) (seen : bool) : option Q :=
  match s with
  | EmptyString => if seen then Some (inject_Z acc) else None
  | String c r =>
      match digit c with
      | Some d => read_digits r (10 * acc + d)%Z true
      | None =>
          if seen && Ascii.eqb c "."%char then
            match r with
            | EmptyString => None
            | _ => read_fraction r acc 1
            end
          else None
      end
  end.

Definition read_decimal (s : string) : JS.number :=
  if String.eqb s "Infinity" then JS.PInf
  else if String.eqb s "-Infinity" then JS.NInf
  else
    match s with
    | String "-"%char r =>
        match read_digits r 0 false with
        | Some q => JS.Fin (Qred (- q))
        | None => JS.NaN
        end
    | _ =>
        match read_digits s 0 false with
        | Some q => JS.Fin q
        | None => JS.NaN
        end
    end.

Definition decimal_host : Host :=
  {| Number := fun a => match a with
                        | None => JS.NaN
                        | Some EmptyString => JS.Fin 0
                        | Some s => read_decimal s
                        end;
     parseFloat := fun a => match a with
                            | None => JS.NaN
                            | Some s => read_decimal s
                            end |}.

End RMC.

(* ------------------------------------------------------------------ *)
(** ** Concrete hosts, pages and runs used by the closed statements *)

Module Samples.

(** A network, a decode engine and an audio context: uris that start with
    "missing" are answered 404, those that start with "empty" carry no audio,
    every other body decodes to one mono frame per byte, at one frame per
    second; the context takes any rate from 1 up. *)
Definition host : Decoder.Host :=
  {| Decoder.fetch := fun _ url =>
       if String.prefix "missing" url
       then {| Decoder.ok := false; Decoder.status := 404; Decoder.body := [] |}
       else {| Decoder.ok := true; Decoder.status := 200;
               Decoder.body := if String.prefix "empty" url then []
                               else list_byte_of_string url |};
     Decoder.decodeFile := fun bytes =>
       {| Decoder.channelData := [map (fun _ => 0%Q) bytes];
          Decoder.samplesDecoded := List.length bytes;
          Decoder.sampleRate := 1 |};
     Decoder.nominalRate := fun rate => Qle_bool 1 rate |}.

(** What "song.opus" (nine bytes) decodes to: nine silent frames, one per
    second. *)
Definition song : Decoder.AudioBuffer :=
  {| Decoder.ab_data := [repeat 0%Q 9]; Decoder.ab_length := 9;
     Decoder.ab_sampleRate := 1 |}.

(** "a0.opus", "a1.opus", ..., "k0.opus", ...: distinct, non-empty uris. *)
Definition uri (k : nat) : string :=
  String (ascii_of_nat (97 + k / 10))
    (String (ascii_of_nat (48 + k mod 10)) ".opus").

Definition uris (n : nat) : list string := map uri (seq 0 n).

Fixpoint distinct (l : list string) : bool :=
  match l with
  | [] => true
  | x :: r => negb (existsb (String.eqb x) r) && distinct r
  end.

(** A fresh handle whose five hooks are listened to. *)
Definition listening : Polyfill.Sys :=
  Polyfill.on_this (Polyfill.listen_all 7) (Polyfill.fresh_sys 1).

(** "song.opus" (nine frames at one frame per second) is loaded and has
    been playing, from its start, since the audio clock read 10. *)
Definition playing : Polyfill.Sys :=
  Polyfill.run_all host
    [Polyfill.SetSrc "song.opus"; Polyfill.Settle;
     Polyfill.Advance (JS.Fin 10); Polyfill.Play; Polyfill.WakePlay]
    listening.

(** Three seconds later the client pauses it. *)
Definition paused_at_3 : Polyfill.Sys :=
  Polyfill.run_all host [Polyfill.Advance (JS.Fin 13); Polyfill.Pause] playing.

(** Or, instead, seeks to second 5. *)
Definition sought_to_5 : Polyfill.Sys :=
  Polyfill.run_all host
    [Polyfill.Advance (JS.Fin 13); Polyfill.SetCurrentTime (JS.Fin 5)] playing.

(** The load of "empty.opus" is in flight. *)
Definition loading_empty : Polyfill.Sys :=
  Polyfill.set_src "empty.opus" listening.

(** A page whose runtime has seen nothing yet. *)
Definition runtime : Polyfill.Runtime := Polyfill.rt (Polyfill.fresh_sys 0).

Definition element (source : string) : RMC.HTMLAudioElement :=
  {| RMC.src := source; RMC.volume := JS.Fin (1 # 2); RMC.loop := true;
     RMC.paused := false; RMC.currentTime := JS.Fin 0;
     RMC.listeners := []; RMC.received := [] |}.

Definition page (pool : list RMC.AudioElement) : RMC.World :=
  {| RMC.music := pool; RMC.rt := runtime; RMC.clock := 1700000000000;
     RMC.timers := []; RMC.nextId := 0 |}.

(** One music channel, created by [createMusic] with no source and then
    given an Opus track, on a host that plays Opus itself. *)
Definition page_native : RMC.World :=
  RMC.set_src 0 "https://host/song.opus"
    (page [fst (RMC.wrapAudioElement false 1 (element "") runtime)]).

(** The same on a host that does not: [wrapAudioElement] answers the
    proxy. *)
Definition page_wrapped : RMC.World :=
  RMC.set_src 0 "https://host/song.opus"
    (page [fst (RMC.wrapAudioElement true 1 (element "") runtime)]).

(** A pool that holds a bare polyfill object. *)
Definition page_software : RMC.World :=
  page [RMC.Software (Polyfill.new_element 1)].

End Samples.

(* ------------------------------------------------------------------ *)
(** ** Notions of the specification *)

Module Spec.

(** [clamp(v, 0, 1)] as the specification spells it out: 0 below the
    interval, 1 above it, [v] itself otherwise. *)
Definition clamp (v : JS.number) : JS.number :=
  if JS.ltb v (JS.Fin 0) then JS.Fin 0
  else if JS.ltb (JS.Fin 1) v then JS.Fin 1
  else v.

(** The same number: numerically equal, or [NaN] on both sides. *)
Definition same (a b : JS.number) : Prop :=
  match a, b with
  | JS.NaN, JS.NaN => True
  | _, _ => JS.eq a b
  end.

(** Pieces of execution that are neither part of a [play()], nor a
    [pause()], nor a write of [currentTime], nor the host ending a node. *)
Definition quiet (o : Polyfill.Op) : bool :=
  match o with
  | Polyfill.SetSrc _ | Polyfill.SetVolume _ | Polyfill.SetLoop _
  | Polyfill.Load | Polyfill.Settle | Polyfill.Advance _ => true
  | _ => false
  end.

(** The load triggers: a source assignment, or [load()]. *)
Definition trigger (o : Polyfill.Op) : bool :=
  match o with
  | Polyfill.SetSrc _ | Polyfill.Load => true
  | _ => false
  end.

(** Anything but the settling of the load in flight. *)
Definition unsettled (o : Polyfill.Op) : bool :=
  match o with
  | Polyfill.Settle => false
  | _ => true
  end.

(** A [play()] that goes through at once: the call, then its continuation
    when the audio context runs. *)
Definition play_now (s : Polyfill.Sys) : Polyfill.Sys :=
  Polyfill.wake_play (Polyfill.play s).

(** [n] calls of hook [k] of handle [p], or none when the hook is unset. *)
Definition hook_calls (k : Polyfill.Hook) (p : Polyfill.PolyfillAudioElement) (n : nat)
  : list (nat * Polyfill.Hook) :=
  match Polyfill.hook k p with
  | Some _ => repeat (Polyfill.id p, k) n
  | None => []
  end.

(** The playback state of every node of the audio graph. *)
Definition playbacks (s : Polyfill.Sys) : list WebAudio.Playback :=
  map WebAudio.playback (WebAudio.nodes (Polyfill.ctx (Polyfill.rt s))).

(** The fields of the handle that a source assignment has no business
    with. *)
Definition untouched_by_src (p q : Polyfill.PolyfillAudioElement) : Prop :=
  Polyfill.id q = Polyfill.id p /\
  Polyfill._volume q = Polyfill._volume p /\
  Polyfill._loop q = Polyfill._loop p /\
  Polyfill._paused q = Polyfill._paused p /\
  Polyfill.sourceNode q = Polyfill.sourceNode p /\
  Polyfill.gainNode q = Polyfill.gainNode p /\
  Polyfill.startTime q = Polyfill.startTime p /\
  (forall k, Polyfill.hook k q = Polyfill.hook k p).

(** The handle holds nothing while its load is in flight. *)
Definition unloaded (s : Polyfill.Sys) : Prop :=
  Polyfill.isLoading (Polyfill.this s) = true /\
  Polyfill.audioBuffer (Polyfill.this s) = None /\
  Polyfill._duration (Polyfill.this s) = JS.Fin 0.

(** Calls of the [ended] hook in a list of hook calls. *)
Definition ended_calls (l : list (nat * Polyfill.Hook)) : nat :=
  List.length
    (filter (fun c => match snd c with
                      | Polyfill.OnEnded => true
                      | _ => false
                      end) l).

(** Closure [f] is what the handler left with the host for channel [i]:
    as a "loadedmetadata" listener, or as a timer due in 100ms. *)
Definition registered (f : RMC.Closure) (i : nat) (w w1 : RMC.World) : Prop :=
  (RMC.channel_listeners i w1 = RMC.channel_listeners i w ++ [f] /\
   RMC.timers w1 = RMC.timers w) \/
  (RMC.channel_listeners i w1 = RMC.channel_listeners i w /\
   RMC.timers w1 = RMC.timers w ++ [((RMC.clock w + 100)%Z, f)]).

(** The channel's [currentTime] holds [v] (on both halves of a proxy). *)
Definition seeks_to (v : JS.number) (e : RMC.AudioElement) : Prop :=
  match e with
  | RMC.Native n => RMC.currentTime n = v
  | RMC.Software p => Polyfill._currentTime p = v
  | RMC.Wrapped n p => RMC.currentTime n = v /\ Polyfill._currentTime p = v
  end.

(** The element once [removeEventListener] has been tried on it. *)
Definition after_removal (f : RMC.Closure) (e : RMC.AudioElement) : RMC.AudioElement :=
  match RMC.elem_removeEventListener f e with
  | Some e' => e'
  | None => e
  end.

(** The channel index names no element of the pool. *)
Definition no_channel (channel : JS.number) (w : RMC.World) : Prop :=
  forall i, JS.arrayIndex channel = Some i -> nth_error (RMC.music w) i = None.

End Spec.

(* ------------------------------------------------------------------ *)
(** ** Shapes that the handle keeps *)

Module Shape.

Local Open Scope nat_scope.

(** Suspended [loadAudio] calls of handle [i] among the tasks. *)
Fixpoint loads (i : nat) (l : list Polyfill.Task) : nat :=
  match l with
  | [] => 0
  | Polyfill.LoadTask o _ _ :: r => (if (o =? i)%nat then 1 else 0) + loads i r
  | _ :: r => loads i r
  end.

(** [isLoading] tells whether a load of the handle is in flight, and there
    is never more than one. *)
Definition one_load (s : Polyfill.Sys) : Prop :=
  loads (Polyfill.id (Polyfill.this s)) (Polyfill.tasks (Polyfill.rt s))
  = if Polyfill.isLoading (Polyfill.this s) then 1 else 0.

Definition playing (x : WebAudio.SourceNode) : bool :=
  match WebAudio.playback x with
  | WebAudio.Playing _ => true
  | _ => false
  end.

Definition nodes (s : Polyfill.Sys) : list WebAudio.SourceNode :=
  WebAudio.nodes (Polyfill.ctx (Polyfill.rt s)).



(** No node of the graph is playing. *)
Definition quiet (s : Polyfill.Sys) : Prop :=
  forall n x, nth_error (nodes s) n = Some x -> playing x = false.

(** A suspended load that is going to write the cache does so under a
    non-empty uri. *)
Definition named (t : Polyfill.Task) : bool :=
  match t with
  | Polyfill.LoadTask _ _ (Decoder.Miss u) => JS.truthy_string u
  | _ => true
  end.

(** The decode cache has no empty key and at most 101 entries, and no load
    in flight is going to add an empty key. *)
Definition bounded (s : Polyfill.Sys) : Prop :=
  let c := Decoder.audioBufferCache (Polyfill.dec (Polyfill.rt s)) in
  (forall k, In k (Decoder.cache_keys c) -> JS.truthy_string k = true) /\
  Decoder.cache_size c <= 101 /\
  forallb named (Polyfill.tasks (Polyfill.rt s)) = true.

End Shape.

(* ------------------------------------------------------------------ *)
(** ** Positions a native element accepts *)

Module Accepted.

(** A number the host's [currentTime] setter takes: any but NaN and the
    two infinities. *)
Definition finite (v : JS.number) : Prop := exists q, v = JS.Fin q.

(** The element after a write of [currentTime]; a refused write leaves
    it as it was. *)
Definition sought (v : JS.number) (n : RMC.HTMLAudioElement) : RMC.HTMLAudioElement :=
  match RMC.native_set_currentTime v n with
  | Some n' => n'
  | None => n
  end.

End Accepted.

(* ------------------------------------------------------------------ *)
(** ** The capability probe, the preset channels and the volume sliders *)

Module Viewport.

(** What [audio.canPlayType] answers for Ogg Opus and for WebM Opus. *)
Record Probe : Type := {
  canPlayOgg : string;
  canPlayWebm : string
}.

(** [supportsOpusNatively()]. *)
Definition supportsOpusNatively (h : Probe) : bool :=
  String.eqb (canPlayOgg h) "probably" || String.eqb (canPlayWebm h) "probably".

(** The module variable [needsPolyfill] ([null] is [None]) and the lines
    written to the console. *)
Record Flags : Type := {
  needsPolyfill : option bool;
  console : list string
}.

(** [needsOpusPolyfill()]. *)
Definition needsOpusPolyfill (h : Probe) (m : Flags) : bool * Flags :=
  match needsPolyfill m with
  | None =>
      let np := negb (supportsOpusNatively h) in
      let m1 := {| needsPolyfill := Some np; console := console m |} in
      if np
      then (np, {| needsPolyfill := needsPolyfill m1;
                   console := console m1 ++
                     ["Opus polyfill enabled - using WASM decoder for Opus audio"%string] |})
      else (np, m1)
  | Some b => (b, m)
  end.

(** [createSfxAudio()], [createShoutAudio()] and [createTestimonyAudio()]:
    the element of the page gets its preset source, then is wrapped. *)
Definition createSfxAudio (needsPolyfill : bool) (i : nat) (AO_HOST : string)
  (sfxAudio : RMC.HTMLAudioElement) (r : Polyfill.Runtime)
  : RMC.AudioElement * Polyfill.Runtime :=
  let sfxAudio1 :=
    RMC.native_set_src (String.append AO_HOST "sounds/general/sfx-realization.opus") sfxAudio in
  RMC.wrapAudioElement needsPolyfill i sfxAudio1 r.

Definition createShoutAudio (needsPolyfill : bool) (i : nat) (AO_HOST : string)
  (shoutAudio : RMC.HTMLAudioElement) (r : Polyfill.Runtime)
  : RMC.AudioElement * Polyfill.Runtime :=
  let shoutAudio1 :=
    RMC.native_set_src (String.append AO_HOST "misc/default/objection.opus") shoutAudio in
  RMC.wrapAudioElement needsPolyfill i shoutAudio1 r.

Definition createTestimonyAudio (needsPolyfill : bool) (i : nat) (AO_HOST : string)
  (testimonyAudio : RMC.HTMLAudioElement) (r : Polyfill.Runtime)
  : RMC.AudioElement * Polyfill.Runtime :=
  let testimonyAudio1 :=
    RMC.native_set_src (String.append AO_HOST "sounds/general/sfx-guilty.opus") testimonyAudio in
  RMC.wrapAudioElement needsPolyfill i testimonyAudio1 r.

(** [element.volume = v] on the host's element: a value outside [0, 1] is
    refused with an IndexSizeError, one that is not finite with a
    TypeError, and the element keeps its volume. *)
Definition native_set_volume (v : JS.number) (n : RMC.HTMLAudioElement)
  : option RMC.HTMLAudioElement :=
  match v with
  | JS.Fin q =>
      if Qle_bool 0 q && Qle_bool q 1
      then Some {| RMC.src := RMC.src n; RMC.volume := v; RMC.loop := RMC.loop n;
                   RMC.paused := RMC.paused n; RMC.currentTime := RMC.currentTime n;
                   RMC.listeners := RMC.listeners n; RMC.received := RMC.received n |}
      else None
  | _ => None
  end.

(** The body of the [map] callback of [createMusic] and of
    [createBlipsChannels].  The native record does not carry the [onerror]
    attribute: the handler written to it is returned beside the channel.
    [opusCheck(channel)] is code outside these sources; [opusCheck] gives
    the identity of the handler it returns. *)
Definition prepare (needsPolyfill : bool) (i : nat)
  (opusCheck : RMC.HTMLAudioElement -> nat) (channel : RMC.HTMLAudioElement)
  (r : Polyfill.Runtime)
  : option (RMC.AudioElement * option nat * Polyfill.Runtime) :=
  match native_set_volume (JS.Fin (1 # 2)) channel with
  | Some channel1 =>
      let onerror := Some (opusCheck channel1) in
      let (e, r1) := RMC.wrapAudioElement needsPolyfill i channel1 r in
      Some (e, onerror, r1)
  | None => None
  end.

(** [[...channels].map(...)]: the polyfills made on the way are [i],
    [i + 1], ... *)
Fixpoint map_prepare (needsPolyfill : bool) (i : nat)
  (opusCheck : RMC.HTMLAudioElement -> nat) (channels : list RMC.HTMLAudioElement)
  (r : Polyfill.Runtime)
  : option (list (RMC.AudioElement * option nat) * Polyfill.Runtime) :=
  match channels with
  | [] => Some ([], r)
  | channel :: rest =>
      match prepare needsPolyfill i opusCheck channel r with
      | Some (e, onerror, r1) =>
          match map_prepare needsPolyfill (S i) opusCheck rest r1 with
          | Some (l, r2) => Some ((e, onerror) :: l, r2)
          | None => None
          end
      | None => None
      end
  end.

(** [createMusic()] and [createBlipsChannels()], on the elements of class
    "audioChannel" and "blipSound": each channel comes with the [onerror]
    handler its native element got. *)
Definition createMusic (needsPolyfill : bool) (i : nat)
  (opusCheck : RMC.HTMLAudioElement -> nat)
  (audioChannels : list RMC.HTMLAudioElement)
  (r : Polyfill.Runtime)
  : option (list (RMC.AudioElement * option nat) * Polyfill.Runtime) :=
  map_prepare needsPolyfill i opusCheck audioChannels r.

Definition createBlipsChannels (needsPolyfill : bool) (i : nat)
  (opusCheck : RMC.HTMLAudioElement -> nat)
  (blipSelectors : list RMC.HTMLAudioElement)
  (r : Polyfill.Runtime)
  : option (list (RMC.AudioElement * option nat) * Polyfill.Runtime) :=
  map_prepare needsPolyfill i opusCheck blipSelectors r.

(** The two halves of a channel. *)
Definition native_half (e : RMC.AudioElement) : option RMC.HTMLAudioElement :=
  match e with
  | RMC.Native n | RMC.Wrapped n _ => Some n
  | RMC.Software _ => None
  end.

Definition software_half (e : RMC.AudioElement) : option Polyfill.PolyfillAudioElement :=
  match e with
  | RMC.Software p | RMC.Wrapped _ p => Some p
  | RMC.Native _ => None
  end.

(** How a statement completes. *)
Inductive Completion : Type :=
| Normal
| Thrown.

(** [channel.volume = v]: the [set] trap of a proxy writes the polyfill,
    then the target; an exception of the first write leaves the second
    undone. *)
Definition elem_set_volume (v : JS.number) (e : RMC.AudioElement) (r : Polyfill.Runtime)
  : RMC.AudioElement * Polyfill.Runtime * Completion :=
  match e with
  | RMC.Native n =>
      match native_set_volume v n with
      | Some n' => (RMC.Native n', r, Normal)
      | None => (e, r, Thrown)
      end
  | RMC.Software p =>
      match RMC.lift_setter (Polyfill.set_volume v) p r with
      | (p', r', true) => (RMC.Software p', r', Thrown)
      | (p', r', false) => (RMC.Software p', r', Normal)
      end
  | RMC.Wrapped n p =>
      match RMC.lift_setter (Polyfill.set_volume v) p r with
      | (p', r', true) => (RMC.Wrapped n p', r', Thrown)
      | (p', r', false) =>
          match native_set_volume v n with
          | Some n' => (RMC.Wrapped n' p', r', Normal)
          | None => (RMC.Wrapped n p', r', Thrown)
          end
      end
  end.

(** [channels.forEach((channel) => (channel.volume = v))]: an exception
    ends the loop. *)
Fixpoint forEach_set_volume (v : JS.number) (l : list RMC.AudioElement)
  (r : Polyfill.Runtime) : list RMC.AudioElement * Polyfill.Runtime * Completion :=
  match l with
  | [] => ([], r, Normal)
  | e :: rest =>
      match elem_set_volume v e r with
      | (e', r', Thrown) => (e' :: rest, r', Thrown)
      | (e', r', Normal) =>
          match forEach_set_volume v rest r' with
          | (rest', r'', c) => (e' :: rest', r'', c)
          end
      end
  end.

(** The part of the page the two sliders act on: the music pool, the blip
    pool, what the polyfills share, and the calls of [setCookie]. *)
Record Page : Type := {
  music : list RMC.AudioElement;
  blipChannels : list RMC.AudioElement;
  rt : Polyfill.Runtime;
  cookies : list (string * string)
}.

(** The conversions of the host language, and the text of the two
    sliders. *)
Record Dom : Type := {
  Number : string -> JS.number;
  String_ : JS.number -> string;
  client_mvolume : string;
  client_bvolume : string
}.

(** [a === b] on numbers. *)
Definition strict_eq (a b : JS.number) : bool :=
  match a, b with
  | JS.PInf, JS.PInf | JS.NInf, JS.NInf => true
  | JS.Fin x, JS.Fin y => Qeq_bool x y
  | _, _ => false
  end.

(** [changeMusicVolume(volume = -1)]; an absent argument is [None]. *)
Definition changeMusicVolume (d : Dom) (volume : option JS.number) (w : Page)
  : Page * Completion :=
  let volume := match volume with Some v => v | None => JS.Fin (-1) end in
  let clientVolume := Number d (client_mvolume d) in
  let musicVolume := if strict_eq volume (JS.Fin (-1)) then clientVolume else volume in
  match forEach_set_volume musicVolume (music w) (rt w) with
  | (l, r, Thrown) =>
      ({| music := l; blipChannels := blipChannels w; rt := r;
          cookies := cookies w |}, Thrown)
  | (l, r, Normal) =>
      ({| music := l; blipChannels := blipChannels w; rt := r;
          cookies := cookies w ++ [("musicVolume"%string, String_ d musicVolume)] |}, Normal)
  end.

(** [changeBlipVolume()]. *)
Definition changeBlipVolume (d : Dom) (w : Page) : Page * Completion :=
  let blipVolume := client_bvolume d in
  match forEach_set_volume (Number d blipVolume) (blipChannels w) (rt w) with
  | (l, r, Thrown) =>
      ({| music := music w; blipChannels := l; rt := r;
          cookies := cookies w |}, Thrown)
  | (l, r, Normal) =>
      ({| music := music w; blipChannels := l; rt := r;
          cookies := cookies w ++ [("blipVolume"%string, blipVolume)] |}, Normal)
  end.

(** Both halves of a channel are at volume [v]. *)
Definition at_volume (v : JS.number) (e : RMC.AudioElement) : Prop :=
  (forall n, native_half e = Some n -> RMC.volume n = v) /\
  (forall p, software_half e = Some p ->
             JS.eq (Polyfill._volume p) v /\
             forall g, Polyfill.gainNode p = Some g -> g = Polyfill._volume p).

End Viewport.

(* ------------------------------------------------------------------ *)
(** ** Further hosts and pages for closed statements *)

Module Fixtures.

(** A host that serves and decodes anything, the empty uri included: one
    byte, one frame. *)
Definition open_host : Decoder.Host :=
  {| Decoder.fetch := fun _ _ =>
       {| Decoder.ok := true; Decoder.status := 200; Decoder.body := [Byte.x00] |};
     Decoder.decodeFile := fun bytes =>
       {| Decoder.channelData := [map (fun _ => 0%Q) bytes];
          Decoder.samplesDecoded := List.length bytes;
          Decoder.sampleRate := 1 |};
     Decoder.nominalRate := fun rate => Qle_bool 1 rate |}.

(** A page with two sliders, both at "0.5"; numbers are read as decimal
    literals, and printed for the stops of a slider that moves by
    quarters. *)
Definition dom : Viewport.Dom :=
  {| Viewport.Number := fun s => RMC.Number RMC.decimal_host (Some s);
     Viewport.String_ := fun v =>
       match v with
       | JS.NaN => "NaN"
       | JS.PInf => "Infinity"
       | JS.NInf => "-Infinity"
       | JS.Fin q =>
           if Qeq_bool q 0 then "0"
           else if Qeq_bool q (1 # 4) then "0.25"
           else if Qeq_bool q (1 # 2) then "0.5"
           else if Qeq_bool q (3 # 4) then "0.75"
           else if Qeq_bool q 1 then "1"
           else "?"
       end%string;
     Viewport.client_mvolume := "0.5";
     Viewport.client_bvolume := "0.5" |}.

(** Two channels in each pool: a native element, and a proxy whose
    polyfill half is the handle of [Samples.playing]. *)
Definition pool : list RMC.AudioElement :=
  [RMC.Native (Samples.element "song.mp3");
   RMC.Wrapped (Samples.element "song.opus") (Polyfill.this Samples.playing)].

Definition page : Viewport.Page :=
  {| Viewport.music := rev pool; Viewport.blipChannels := pool;
     Viewport.rt := Polyfill.rt Samples.playing; Viewport.cookies := [] |}.

End Fixtures.

(* ------------------------------------------------------------------ *)
(** ** Proof support *)

Lemma Qle_bool_false (x y : Q) : Qle_bool x y = false -> (y < x)%Q.
Proof.
  intros H. apply Qnot_le_lt. intros Hle.
  apply Qle_bool_iff in Hle. congruence.
Qed.

(** Boolean comparisons of rationals in the context become propositions. *)
Ltac qle_props :=
  repeat match goal with
         | H : Qle_bool _ _ = true |- _ => apply Qle_bool_iff in H
         | H : Qle_bool _ _ = false |- _ => apply Qle_bool_false in H
         end.

(** Case analysis on whatever the goal still branches on. *)
Ltac break_match :=
  repeat match goal with
         | |- context [match ?x with _ => _ end] => destruct x eqn:?
         end.

(** The same, innermost scrutinee first, computing after each case. *)
Ltac break_inner :=
  repeat (match goal with
          | |- context [match ?x with _ => _ end] =>
              lazymatch x with
              | context [match _ with _ => _ end] => fail
              | _ => destruct x eqn:?
              end
          end; cbn).

(** A handle and its runtime, field by field. *)
Ltac open_sys s :=
  let p := fresh "p" in
  let r := fresh "r" in
  destruct s as [p r]; destruct p, r.

(* ------------------------------------------------------------------ *)
(** ** Facts about the decode cache *)

Section CacheFacts.

Import Decoder.
Local Open Scope nat_scope.

Lemma cache_get_set_same (k : string) (v : AudioBuffer) (c : Cache) :
  cache_get k (cache_set k v c) = Some v.
Proof.
  induction c as [|[k' v'] r IH]; simpl.
  - now rewrite String.eqb_refl.
  - destruct (String.eqb k k') eqn:E; simpl; rewrite E; auto.
Qed.

Lemma cache_get_set_other (k k0 : string) (v : AudioBuffer) (c : Cache) :
  k0 <> k -> cache_get k0 (cache_set k v c) = cache_get k0 c.
Proof.
  intros Hne. induction c as [|[k' v'] r IH]; simpl.
  - destruct (String.eqb_spec k0 k); congruence.
  - destruct (String.eqb_spec k k'); simpl.
    + subst k'. destruct (String.eqb_spec k0 k); congruence.
    + destruct (String.eqb_spec k0 k'); auto.
Qed.

Lemma cache_set_size_fresh (k : string) (v : AudioBuffer) (c : Cache) :
  cache_get k c = None -> cache_size (cache_set k v c) = S (cache_size c).
Proof.
  unfold cache_size. induction c as [|[k' v'] r IH]; simpl; intros H; auto.
  destruct (String.eqb k k'); [discriminate|]. simpl. now rewrite IH.
Qed.

Lemma cache_set_size_le (k : string) (v : AudioBuffer) (c : Cache) :
  cache_size (cache_set k v c) <= S (cache_size c).
Proof.
  unfold cache_size. induction c as [|[k' v'] r IH]; simpl; auto.
  destruct (String.eqb k k'); simpl; lia.
Qed.

Lemma cache_set_keys (k k0 : string) (v : AudioBuffer) (c : Cache) :
  In k0 (cache_keys (cache_set k v c)) -> k0 = k \/ In k0 (cache_keys c).
Proof.
  unfold cache_keys. induction c as [|[k' v'] r IH]; simpl.
  - intros [H|[]]; auto.
  - destruct (String.eqb k k'); simpl; intros [H|H]; auto.
    destruct (IH H); auto.
Qed.

Lemma cache_delete_keys (k k0 : string) (c : Cache) :
  In k0 (cache_keys (cache_delete k c)) -> In k0 (cache_keys c).
Proof.
  unfold cache_keys. induction c as [|[k' v'] r IH]; simpl; auto.
  destruct (String.eqb k k'); simpl; intros H; auto.
  destruct H; auto.
Qed.

Lemma cache_delete_first (k : string) (c : Cache) :
  cache_firstKey c = Some k -> S (cache_size (cache_delete k c)) = cache_size c.
Proof.
  destruct c as [|[k' v'] r]; simpl; [discriminate|].
  intros [= ->]. now rewrite String.eqb_refl.
Qed.

(** Every key is a non-empty string: what the callers of [decodeOpusFile]
    guarantee ([set src] and [load] both test the uri for truthiness). *)
Definition keys_truthy (c : Cache) : Prop :=
  forall k, In k (cache_keys c) -> JS.truthy_string k = true.

(** The bound the code keeps is 101: the test [size > 100] lets the map
    grow to 101 entries before the first eviction. *)
Lemma cache_insert_bound (url : string) (b : AudioBuffer) (c : Cache) :
  keys_truthy c -> JS.truthy_string url = true ->
  cache_size c <= 101 ->
  keys_truthy (cache_insert url b c) /\ cache_size (cache_insert url b c) <= 101.
Proof.
  intros Hk Hu Hs. unfold cache_insert.
  destruct (100 <? cache_size c) eqn:E.
  - apply Nat.ltb_lt in E.
    destruct c as [|[k v] r] eqn:Ec; [simpl in E; lia|].
    cbn [cache_firstKey].
    assert (Ht : JS.truthy_string k = true) by (apply Hk; simpl; auto).
    rewrite Ht. split.
    + intros k0 H0. apply cache_set_keys in H0 as [->|H0]; auto.
      apply cache_delete_keys in H0. auto.
    + pose proof (@cache_delete_first k ((k, v) :: r) eq_refl) as Hd.
      pose proof (cache_set_size_le url b (cache_delete k ((k, v) :: r))). lia.
  - apply Nat.ltb_ge in E. split.
    + intros k0 H0. apply cache_set_keys in H0 as [->|H0]; auto.
    + pose proof (cache_set_size_le url b c). lia.
Qed.

Lemma decodeOpusFile_cache (h : Host) (url : string) (s : State) :
  audioBufferCache (snd (decodeOpusFile h url s)) = audioBufferCache s \/
  exists b, audioBufferCache (snd (decodeOpusFile h url s))
            = cache_insert url b (audioBufferCache s).
Proof.
  unfold decodeOpusFile, decode_begin.
  destruct (cache_get url (audioBufferCache s)); simpl; auto.
  destruct (negb _); simpl; auto.
  destruct (_ =? 0)%nat; simpl; auto.
  destruct (createBuffer _ _ _ _); simpl; auto.
  destruct (fill _ _); simpl; eauto.
Qed.

(** Whatever the host answers, sequential decodes of non-empty uris never
    leave more than 101 buffers in the cache. *)
Lemma decode_all_bound (h : Host) (urls : list string) (s : State) :
  Forall (fun u => JS.truthy_string u = true) urls ->
  keys_truthy (audioBufferCache s) -> cache_size (audioBufferCache s) <= 101 ->
  cache_size (audioBufferCache (decode_all h urls s)) <= 101.
Proof.
  intros Hu. revert s. induction Hu as [|u r Hu _ IH]; intros s Hk Hs; simpl; auto.
  destruct (decodeOpusFile_cache h u s) as [E|[b E]].
  - apply IH; rewrite E; auto.
  - destruct (@cache_insert_bound u b _ Hk Hu Hs). apply IH; rewrite E; auto.
Qed.

Lemma cache_set_fresh (k : string) (v : AudioBuffer) (c : Cache) :
  cache_get k c = None -> cache_set k v c = c ++ [(k, v)].
Proof.
  induction c as [|[k' v'] r IH]; simpl; intros H; auto.
  destruct (String.eqb k k'); [discriminate|]. now rewrite IH.
Qed.

(** With up to 100 entries in the cache, a new uri is appended and nothing
    is evicted: the 101st distinct uri makes the cache 101 entries long. *)
Lemma insert_evicts_nothing_up_to_100 (url : string) (b : AudioBuffer) (c : Cache) :
  cache_size c <= 100 -> cache_get url c = None ->
  cache_insert url b c = c ++ [(url, b)].
Proof.
  intros Hs Hn. unfold cache_insert.
  destruct (Nat.ltb_spec 100 (cache_size c)); [lia|].
  now apply cache_set_fresh.
Qed.

(** With more than 100 entries, the oldest (first-inserted) key goes and
    the new uri is appended: first in, first out. *)
Lemma insert_evicts_oldest_above_100 (url k : string) (b v : AudioBuffer) (r : Cache) :
  100 < cache_size ((k, v) :: r) -> JS.truthy_string k = true ->
  cache_get url ((k, v) :: r) = None ->
  cache_insert url b ((k, v) :: r) = r ++ [(url, b)].
Proof.
  intros Hs Hk Hn. unfold cache_insert.
  destruct (Nat.ltb_spec 100 (cache_size ((k, v) :: r))); [|lia].
  cbn [cache_firstKey]. rewrite Hk. cbn [cache_delete].
  rewrite String.eqb_refl. apply cache_set_fresh.
  simpl in Hn. destruct (String.eqb url k); [discriminate | exact Hn].
Qed.

(** C1.  The decode cache is meant to hold at most 100 entries, the 101st
    distinct uri evicting the oldest.  The code does not do that: after 101
    sequential decodes of distinct uncached uris the cache holds 101
    entries, in insertion order, and the first-inserted uri is still
    retrievable; the oldest key goes only when the 102nd arrives. *)
Theorem cache_holds_101_entries :
  let s101 := decode_all Samples.host (Samples.uris 101) initial in
  let s102 := decode_all Samples.host (Samples.uris 102) initial in
  Samples.distinct (Samples.uris 102) = true /\
  cache_keys (audioBufferCache s101) = Samples.uris 101 /\
  cache_size (audioBufferCache s101) = 101 /\
  cache_has (Samples.uri 0) (audioBufferCache s101) = true /\
  cache_keys (audioBufferCache s102) = skipn 1 (Samples.uris 102) /\
  cache_size (audioBufferCache s102) = 101 /\
  cache_has (Samples.uri 0) (audioBufferCache s102) = false.
Proof.
  vm_compute. repeat split; reflexivity.
Qed.

Lemma count_called_other (f : HostCall -> bool) (c : HostCall) (l : list HostCall) :
  List.length (filter f (l ++ [c])) = List.length (filter f l) + (if f c then 1 else 0).
Proof.
  rewrite filter_app, length_app. simpl. destruct (f c); reflexivity.
Qed.

Lemma cache_get_insert_same (url : string) (b : AudioBuffer) (c : Cache) :
  cache_get url (cache_insert url b c) = Some b.
Proof. unfold cache_insert. apply cache_get_set_same. Qed.

(** C8.  After a successful [decode(uri)], the next sequential call for
    the same uri returns the same buffer and leaves the module state as it
    was: no fetch and no run of the decode engine is added to the trace of
    host calls.  The first call itself ran the engine for that uri once if
    the uri was not cached, and not at all if it was. *)
Theorem second_decode_is_cache_hit (h : Host) (url : string) (s s1 : State)
  (b : AudioBuffer) :
  decodeOpusFile h url s = (Ok b, s1) ->
  decodeOpusFile h url s1 = (Ok b, s1) /\
  calls (snd (decodeOpusFile h url s1)) = calls s1 /\
  decode_count url s1
    = (if cache_has url (audioBufferCache s) then 0 else 1) + decode_count url s /\
  fetch_count url s1
    = (if cache_has url (audioBufferCache s) then 0 else 1) + fetch_count url s.
Proof.
  intros H.
  assert (Hhit : cache_get url (audioBufferCache s1) = Some b).
  { revert H. unfold decodeOpusFile, decode_begin.
    destruct (cache_get url (audioBufferCache s)) as [b0|] eqn:Hget; simpl.
    - now intros [= <- <-].
    - destruct (negb _); [discriminate|].
      destruct (_ =? 0); [discriminate|].
      destruct (createBuffer _ _ _ _); [|discriminate].
      destruct (fill _ _) as [ab|]; [|discriminate].
      intros [= <- <-]. simpl. apply cache_get_insert_same. }
  assert (Hagain : decodeOpusFile h url s1 = (Ok b, s1)).
  { unfold decodeOpusFile, decode_begin. now rewrite Hhit. }
  split; [exact Hagain|]. split; [now rewrite Hagain|].
  revert H. unfold decodeOpusFile, decode_begin, cache_has.
  destruct (cache_get url (audioBufferCache s)) as [b0|] eqn:Hget; simpl.
  - now intros [= <- <-].
  - destruct (negb _); [discriminate|].
    destruct (_ =? 0); [discriminate|].
    destruct (createBuffer _ _ _ _); [|discriminate].
    destruct (fill _ _) as [ab|]; [|discriminate].
    intros [= <- <-]. unfold decode_count, fetch_count. simpl.
    rewrite !count_called_other. simpl. rewrite !String.eqb_refl. lia.
Qed.

(** A run of C8: "song.opus" is decoded on a fresh page, then asked for
    again. *)
Lemma second_decode_is_cache_hit_witness :
  let s1 := snd (decodeOpusFile Samples.host "song.opus" initial) in
  let b := Samples.song in
  decodeOpusFile Samples.host "song.opus" initial = (Ok b, s1) /\
  decodeOpusFile Samples.host "song.opus" s1 = (Ok b, s1) /\
  decode_count "song.opus" s1 = 1 /\
  fetch_count "song.opus" s1 = 1.
Proof.
  intros s1 b.
  assert (H : decodeOpusFile Samples.host "song.opus" initial = (Ok b, s1))
    by (vm_compute; reflexivity).
  split; [exact H|].
  destruct (second_decode_is_cache_hit _ _ _ H) as (H1 & _ & H3 & H4).
  split; [exact H1|]. split; [exact H3 | exact H4].
Defined.

End CacheFacts.

(* ------------------------------------------------------------------ *)
(** ** Facts about the software handle *)

Section HandleFacts.

Import Polyfill.
Local Open Scope nat_scope.

Lemma clamp_computed (v : JS.number) :
  Spec.same (JS.Math_max (JS.Fin 0) (JS.Math_min (JS.Fin 1) v)) (Spec.clamp v).
Proof.
  destruct v as [| | |q]; try (vm_compute; intuition congruence).
  unfold Spec.clamp, JS.Math_min, JS.Math_max, JS.ltb.
  destruct (Qle_bool 1 q) eqn:E1, (Qle_bool q 0) eqn:E2,
           (Qle_bool 0 q) eqn:E3, (Qle_bool q 1) eqn:E4;
    cbn; rewrite ?E1, ?E2, ?E3, ?E4; cbn; qle_props; lra.
Qed.

(** C7, as amended.  Whatever the state of the handle, a write to
    [volume] of a number [v] that is not [NaN] returns normally and stores
    [clamp(v, 0, 1)]; in the same step the gain node (when the handle has
    one) carries the stored value; nothing else changes. *)
Theorem volume_write_is_clamped (v : JS.number) (s : Sys) :
  v <> JS.NaN ->
  let s' := after (set_volume v s) in
  threw (set_volume v s) = false /\
  JS.eq (_volume (this s')) (Spec.clamp v) /\
  gainNode (this s') = option_map (fun _ => _volume (this s')) (gainNode (this s)) /\
  rt s' = rt s /\
  set_gainNode' (gainNode (this s)) (set_volume' (_volume (this s)) (this s')) = this s.
Proof.
  intros Hv. pose proof (clamp_computed v) as Hc.
  assert (Hf : exists q, JS.Math_max (JS.Fin 0) (JS.Math_min (JS.Fin 1) v) = JS.Fin q).
  { destruct v as [| | |q]; [congruence | | |]; cbn [JS.Math_min JS.Math_max JS.ltb].
    - eexists. reflexivity.
    - eexists. reflexivity.
    - destruct (negb (Qle_bool 1 q)); cbn [JS.ltb]; destruct (negb _); eauto. }
  destruct Hf as [c Hf].
  assert (He : JS.eq (JS.Fin c) (Spec.clamp v)).
  { rewrite Hf in Hc. unfold Spec.same in Hc. exact Hc. }
  unfold set_volume. destruct s as [p r]. cbn [this on_this rt].
  rewrite Hf. destruct p; cbn [gainNode _volume set_volume'].
  destruct gainNode0; cbn; auto.
Qed.

(** A write of 1.5 while "song.opus" plays. *)
Lemma volume_write_is_clamped_witness :
  let s' := after (set_volume (JS.Fin (3 # 2)) Samples.playing) in
  threw (set_volume (JS.Fin (3 # 2)) Samples.playing) = false /\
  JS.eq (_volume (this s')) (Spec.clamp (JS.Fin (3 # 2))) /\
  gainNode (this s')
  = option_map (fun _ => _volume (this s')) (gainNode (this Samples.playing)) /\
  rt s' = rt Samples.playing /\
  set_gainNode' (gainNode (this Samples.playing))
    (set_volume' (_volume (this Samples.playing)) (this s'))
  = this Samples.playing.
Proof.
  apply (@volume_write_is_clamped (JS.Fin (3 # 2)) Samples.playing).
  discriminate.
Defined.

(** C7 as stated fails at [NaN]: the clamp lets it through, the handle
    stores it, and the write of the gain throws; the gain, and with it what
    is heard, stays at the volume the handle had. *)
Lemma nan_volume_write_throws :
  let o := set_volume JS.NaN Samples.listening in
  threw o = true /\
  _volume (this (after o)) = JS.NaN /\
  ~ JS.eq (_volume (this (after o))) (Spec.clamp JS.NaN) /\
  gainNode (this (after o)) = Some (JS.Fin 1) /\
  gainNode (this Samples.listening) = Some (JS.Fin 1).
Proof.
  cbv zeta. split; [reflexivity|]. split; [reflexivity|].
  split; [|split; reflexivity]. intros H. exact H.
Qed.

Lemma playback_update_nth (n : nat) (f : WebAudio.SourceNode -> WebAudio.SourceNode)
  (l : list WebAudio.SourceNode) :
  (forall x, WebAudio.playback (f x) = WebAudio.playback x) ->
  map WebAudio.playback (WebAudio.update_nth n f l) = map WebAudio.playback l.
Proof.
  intros Hf. revert n. induction l as [|x r IH]; intros [|n]; simpl; auto.
  - now rewrite Hf.
  - now rewrite IH.
Qed.

Lemma set_src_effect (v : string) (s : Sys) :
  Spec.untouched_by_src (this s) (this (set_src v s)) /\
  ctx (rt (set_src v s)) = ctx (rt s) /\
  fired (rt (set_src v s)) = fired (rt s) /\
  _src (this (set_src v s)) = v /\
  _duration (this (set_src v s)) = JS.Fin 0 /\
  _currentTime (this (set_src v s)) = JS.Fin 0 /\
  audioBuffer (this (set_src v s)) = None /\
  loadError (this (set_src v s)) = None.
Proof.
  unfold Spec.untouched_by_src, set_src, loadAudio, Decoder.decode_begin.
  open_sys s. cbn.
  break_match; cbn; repeat split; try reflexivity; intros []; reflexivity.
Qed.

Lemma quiet_preserves (h : Decoder.Host) (o : Op) (s : Sys) :
  Spec.quiet o = true ->
  _paused (this (run h o s)) = _paused (this s) /\
  sourceNode (this (run h o s)) = sourceNode (this s) /\
  Spec.playbacks (run h o s) = Spec.playbacks s.
Proof.
  destruct o; try discriminate; intros _; cbn [run].
  - destruct (set_src_effect v s) as ((_ & _ & _ & Hp & Hs & _) & Hc & _).
    unfold Spec.playbacks. rewrite Hc. auto.
  - unfold set_volume. open_sys s. cbn. break_match; cbn; auto.
  - unfold set_loop, Spec.playbacks. open_sys s. cbn. break_match; cbn; auto.
    repeat split. apply playback_update_nth. reflexivity.
  - unfold load, loadAudio, Decoder.decode_begin, Spec.playbacks.
    open_sys s. cbn. break_match; cbn; auto.
  - unfold settle_load, loadAudio_resume, notify, Spec.playbacks.
    open_sys s. cbn. break_match; cbn; auto.
  - unfold advance, Spec.playbacks. open_sys s. cbn. auto.
Qed.

Lemma quiet_run_preserves (h : Decoder.Host) (ops : list Op) (s : Sys) :
  forallb Spec.quiet ops = true ->
  _paused (this (run_all h ops s)) = _paused (this s) /\
  sourceNode (this (run_all h ops s)) = sourceNode (this s) /\
  Spec.playbacks (run_all h ops s) = Spec.playbacks s.
Proof.
  revert s. induction ops as [|o r IH]; intros s H; simpl in *; auto.
  apply andb_prop in H as [Ho Hr].
  destruct (IH (run h o s) Hr) as (H1 & H2 & H3).
  destruct (quiet_preserves h o s Ho) as (G1 & G2 & G3).
  repeat split; congruence.
Qed.

(** C10.  A source assignment on a software handle changes neither
    [paused] nor the render node: the whole audio graph and the fields
    [paused], [sourceNode], [startTime], [volume], [loop], the gain node
    and the hooks are as before, and no hook is called; what it resets is
    [duration], the stored [currentTime], the buffer and the load error
    (besides storing the new source and triggering the load).  From there
    on, as long as no [play()], [pause()] or [currentTime] write runs and
    the host ends no node, the handle stays as paused or playing as it was
    and every node of the graph keeps its playback state. *)
Theorem src_assignment_keeps_playback (h : Decoder.Host) (v : string)
  (s : Sys) (ops : list Op) :
  forallb Spec.quiet ops = true ->
  let s1 := set_src v s in
  let s2 := run_all h ops s1 in
  Spec.untouched_by_src (this s) (this s1) /\
  ctx (rt s1) = ctx (rt s) /\
  fired (rt s1) = fired (rt s) /\
  _src (this s1) = v /\
  _duration (this s1) = JS.Fin 0 /\
  _currentTime (this s1) = JS.Fin 0 /\
  audioBuffer (this s1) = None /\
  loadError (this s1) = None /\
  _paused (this s2) = _paused (this s) /\
  sourceNode (this s2) = sourceNode (this s) /\
  Spec.playbacks s2 = Spec.playbacks s.
Proof.
  intros Hq. cbv zeta.
  destruct (set_src_effect v s) as (U & Hc & Hf & H1 & H2 & H3 & H4 & H5).
  destruct (quiet_run_preserves h ops (set_src v s) Hq) as (Q1 & Q2 & Q3).
  pose proof U as (U1 & U2 & U3 & U4 & U5 & U6 & U7 & U8).
  repeat (split; [assumption|]).
  split; [congruence|]. split; [congruence|].
  rewrite Q3. unfold Spec.playbacks. now rewrite Hc.
Qed.

(** A run of C10: while "song.opus" plays, the source becomes
    "next.opus", the volume and the loop flag are written, the clock moves,
    the new load settles and [load()] is called; the first node is still
    playing and the handle is still not paused. *)
Lemma src_assignment_keeps_playback_witness :
  let ops := [SetVolume (JS.Fin (1 # 2)); Advance (JS.Fin 12); Settle;
              SetLoop true; Load] in
  let s2 := run_all Samples.host ops (set_src "next.opus" Samples.playing) in
  forallb Spec.quiet ops = true /\
  _paused (this s2) = false /\
  sourceNode (this s2) = Some 0 /\
  Spec.playbacks s2 = [WebAudio.Playing (JS.Fin 0)].
Proof.
  intros ops s2.
  assert (Hq : forallb Spec.quiet ops = true) by reflexivity.
  split; [exact Hq|].
  destruct (src_assignment_keeps_playback Samples.host "next.opus"
              Samples.playing ops Hq)
    as (_ & _ & _ & _ & _ & _ & _ & _ & H1 & H2 & H3).
  split; [exact H1|]. split; [exact H2 | exact H3].
Defined.

Lemma take_load_app (i : nat) (u : string) (p : Decoder.Pending) (l : list Task) :
  take_load i l = None ->
  take_load i (l ++ [LoadTask i u p]) = Some (u, p, l).
Proof.
  induction l as [|t r IH]; simpl.
  - now rewrite Nat.eqb_refl.
  - destruct t; try destruct (owner =? i); try discriminate;
      destruct (take_load i r) as [[[u' p'] r']|]; try discriminate;
      intros _; rewrite IH; auto.
Qed.

(** While a load is in flight a load trigger changes nothing outside the
    handle, and the load stays in flight. *)
Lemma trigger_while_loading (h : Decoder.Host) (o : Op) (s : Sys) :
  isLoading (this s) = true -> Spec.trigger o = true ->
  rt (run h o s) = rt s /\ isLoading (this (run h o s)) = true /\
  id (this (run h o s)) = id (this s).
Proof.
  intros Hl Ht. destruct o; try discriminate; cbn [run].
  - unfold set_src, loadAudio. open_sys s. cbn in *. subst.
    break_match; cbn; auto.
  - unfold load, loadAudio. open_sys s. cbn in *. subst.
    break_match; cbn; auto.
Qed.

Lemma triggers_while_loading (h : Decoder.Host) (ops : list Op) (s : Sys) :
  isLoading (this s) = true -> forallb Spec.trigger ops = true ->
  rt (run_all h ops s) = rt s /\ isLoading (this (run_all h ops s)) = true /\
  id (this (run_all h ops s)) = id (this s).
Proof.
  revert s. induction ops as [|o r IH]; intros s Hl H; simpl in *; auto.
  apply andb_prop in H as [Ho Hr].
  destruct (trigger_while_loading h o s Hl Ho) as (G1 & G2 & G3).
  destruct (IH (run h o s) G2 Hr) as (H1 & H2 & H3).
  repeat split; congruence.
Qed.

Lemma loadAudio_starts (u : string) (s : Sys) :
  isLoading (this s) = false ->
  isLoading (this (loadAudio u s)) = true /\
  id (this (loadAudio u s)) = id (this s) /\
  dec (rt (loadAudio u s)) = snd (Decoder.decode_begin u (dec (rt s))) /\
  tasks (rt (loadAudio u s))
    = tasks (rt s) ++ [LoadTask (id (this s)) u (fst (Decoder.decode_begin u (dec (rt s))))].
Proof.
  intros Hl. unfold loadAudio. rewrite Hl.
  open_sys s. cbn. destruct (Decoder.decode_begin u dec0). cbn. auto.
Qed.

(** C9.  While a load is in flight ([isLoading] true) a further load
    trigger, be it a source assignment or [load()], starts no decode: the
    decoder state and the suspended calls are exactly as the first
    [loadAudio] left them, and the handle is still loading.  When the load
    in flight settles, the handle's buffer and duration are those of the
    uri that was first asked for (the value of [decodeOpusFile] on it),
    whatever the source attribute has become in the meantime. *)
Theorem load_in_flight_wins (h : Decoder.Host) (u : string) (s0 : Sys)
  (ops : list Op) (b : Decoder.AudioBuffer) (d : Decoder.State) :
  isLoading (this s0) = false ->
  take_load (id (this s0)) (tasks (rt s0)) = None ->
  Decoder.decodeOpusFile h u (dec (rt s0)) = (Decoder.Ok b, d) ->
  forallb Spec.trigger ops = true ->
  let s := loadAudio u s0 in
  let s1 := run_all h ops s in
  let s2 := settle_load h s1 in
  rt s1 = rt s /\
  isLoading (this s1) = true /\
  audioBuffer (this s2) = Some b /\
  _duration (this s2) = Decoder.duration b /\
  isLoading (this s2) = false /\
  _src (this s2) = _src (this s1) /\
  dec (rt s2) = d.
Proof.
  intros Hl Hnone Hdec Hops. cbv zeta.
  destruct (loadAudio_starts u s0 Hl) as (L1 & L2 & L3 & L4).
  destruct (triggers_while_loading h ops (loadAudio u s0) L1 Hops) as (T1 & T2 & T3).
  split; [exact T1|]. split; [exact T2|].
  unfold settle_load. rewrite T3, T1, L2, L4, (@take_load_app _ u _ _ Hnone), L3.
  unfold Decoder.decodeOpusFile in Hdec.
  destruct (Decoder.decode_begin u (dec (rt s0))) as [p d0]. cbn [fst snd].
  unfold put_dec at 1. cbn [rt dec put_tasks].
  rewrite Hdec.
  unfold loadAudio_resume, notify.
  destruct (run_all h ops (loadAudio u s0)) as [p1 r1]. destruct p1. cbn.
  break_match; cbn; auto.
Qed.

(** A run of C9: while "song.opus" loads, the source is reassigned twice
    and [load()] is called; the load that settles is the first one. *)
Lemma load_in_flight_wins_witness :
  let ops := [SetSrc "next.opus"; Load; SetSrc "other.opus"] in
  let s1 := run_all Samples.host ops (loadAudio "song.opus" Samples.listening) in
  let s2 := settle_load Samples.host s1 in
  _src (this s2) = "other.opus"%string /\
  audioBuffer (this s2) = Some Samples.song /\
  _duration (this s2) = JS.Fin 9 /\
  Decoder.calls (dec (rt s2))
    = [Decoder.CallFetch "song.opus"; Decoder.CallDecodeFile "song.opus";
       Decoder.CallReset].
Proof.
  intros ops s1 s2.
  destruct (@load_in_flight_wins Samples.host "song.opus" Samples.listening ops
              Samples.song
              (snd (Decoder.decodeOpusFile Samples.host "song.opus" Decoder.initial))
              eq_refl eq_refl eq_refl eq_refl)
    as (_ & _ & H3 & H4 & _ & H6 & H7).
  split; [exact H6|]. split; [exact H3|]. split; [exact H4|].
  fold s1 s2 in H7. rewrite H7. reflexivity.
Defined.

Lemma take_play_app (i : nat) (l : list Task) :
  exists r, take_play i (l ++ [PlayTask i]) = Some r.
Proof.
  induction l as [|t l IH]; simpl.
  - rewrite Nat.eqb_refl. eauto.
  - destruct IH as [r Hr].
    destruct t; try destruct (owner =? i); rewrite ?Hr; simpl; eauto.
Qed.

(** On a handle that holds no buffer and loads nothing, a [play()] calls
    the error hook and leaves the handle and the audio graph as they were. *)
Lemma play_now_without_buffer (s : Sys) :
  isLoading (this s) = false -> audioBuffer (this s) = None ->
  this (Spec.play_now s) = this s /\
  WebAudio.nodes (ctx (rt (Spec.play_now s))) = WebAudio.nodes (ctx (rt s)) /\
  fired (rt (Spec.play_now s)) = fired (rt s) ++ Spec.hook_calls OnError (this s) 1.
Proof.
  intros Hl Hb. unfold Spec.play_now, wake_play, play, suspend.
  cbn [this rt put_tasks tasks].
  destruct (take_play_app (id (this s)) (tasks (rt s))) as [r Hr]. rewrite Hr.
  unfold play_resume, play_body, notify, Spec.hook_calls.
  open_sys s. cbn in *. subst. cbn.
  destruct onerror0; cbn; rewrite ?app_nil_r; auto.
Qed.

Lemma plays_without_buffer (n : nat) (s : Sys) :
  isLoading (this s) = false -> audioBuffer (this s) = None ->
  this (Nat.iter n Spec.play_now s) = this s /\
  WebAudio.nodes (ctx (rt (Nat.iter n Spec.play_now s))) = WebAudio.nodes (ctx (rt s)) /\
  fired (rt (Nat.iter n Spec.play_now s)) = fired (rt s) ++ Spec.hook_calls OnError (this s) n.
Proof.
  intros Hl Hb. induction n as [|n (I1 & I2 & I3)]; cbn [Nat.iter nat_rect].
  - unfold Spec.hook_calls. destruct (hook _ _); cbn; rewrite app_nil_r; auto.
  - destruct (play_now_without_buffer (Nat.iter n Spec.play_now s)) as (P1 & P2 & P3);
      [congruence | congruence |].
    unfold Nat.iter in *. rewrite P1, P2, P3, I1, I2, I3. repeat split.
    unfold Spec.hook_calls. destruct (hook OnError (this s)); cbn [repeat].
    + rewrite <- app_assoc. f_equal.
      change ((id (this s), OnError) :: repeat (id (this s), OnError) n)
        with (repeat (id (this s), OnError) (S n)).
      rewrite <- repeat_cons. reflexivity.
    + now rewrite !app_nil_r.
Qed.

(** A handle that holds no buffer (duration 0) and whose load fails
    because the decode engine produced zero frames: the failure is caught
    and handed to the error hook (called once, if one is set), the duration
    is still 0, the load error is recorded, nothing is loading, [paused] and
    the audio graph are as before.  Every [play()] after that, any number
    of them, calls the error hook once, creates no node, and leaves the
    handle ([paused] included) unchanged. *)
Theorem decode_failure_leaves_handle_errored (h : Decoder.Host) (u : string)
  (s : Sys) (r : list Task) (n : nat) :
  take_load (id (this s)) (tasks (rt s)) = Some (u, Decoder.Miss u, r) ->
  Decoder.ok (Decoder.fetch h (List.length (Decoder.calls (dec (rt s)))) u) = true ->
  Decoder.samplesDecoded
    (Decoder.decodeFile h
       (Decoder.body (Decoder.fetch h (List.length (Decoder.calls (dec (rt s)))) u))) = 0 ->
  audioBuffer (this s) = None ->
  _duration (this s) = JS.Fin 0 ->
  let s1 := settle_load h s in
  let s2 := Nat.iter n Spec.play_now s1 in
  loadError (this s1) = Some (Decoder.NoSamples u) /\
  isLoading (this s1) = false /\
  _duration (this s1) = JS.Fin 0 /\
  audioBuffer (this s1) = None /\
  _paused (this s1) = _paused (this s) /\
  ctx (rt s1) = ctx (rt s) /\
  fired (rt s1) = fired (rt s) ++ Spec.hook_calls OnError (this s) 1 /\
  this s2 = this s1 /\
  WebAudio.nodes (ctx (rt s2)) = WebAudio.nodes (ctx (rt s1)) /\
  fired (rt s2) = fired (rt s1) ++ Spec.hook_calls OnError (this s) n.
Proof.
  intros Ht Hok Hz Hb Hd. cbv zeta.
  assert (E : settle_load h s
              = loadAudio_resume (Decoder.Throw (Decoder.NoSamples u))
                  (put_dec (Decoder.called (Decoder.CallDecodeFile u)
                              (Decoder.called (Decoder.CallFetch u) (dec (rt s))))
                           (put_tasks r s))).
  { unfold settle_load. rewrite Ht. unfold Decoder.decode_finish.
    rewrite Hok. cbn [negb]. rewrite Hz. reflexivity. }
  assert (F : loadError (this (settle_load h s)) = Some (Decoder.NoSamples u) /\
              isLoading (this (settle_load h s)) = false /\
              _duration (this (settle_load h s)) = JS.Fin 0 /\
              audioBuffer (this (settle_load h s)) = None /\
              _paused (this (settle_load h s)) = _paused (this s) /\
              ctx (rt (settle_load h s)) = ctx (rt s) /\
              fired (rt (settle_load h s))
                = fired (rt s) ++ Spec.hook_calls OnError (this s) 1 /\
              hook OnError (this (settle_load h s)) = hook OnError (this s) /\
              id (this (settle_load h s)) = id (this s)).
  { rewrite E. unfold loadAudio_resume, notify, Spec.hook_calls.
    open_sys s. cbn in *. subst. destruct onerror0; cbn; rewrite ?app_nil_r; auto 10. }
  destruct F as (F1 & F2 & F3 & F4 & F5 & F6 & F7 & F8 & F9).
  destruct (plays_without_buffer n (settle_load h s) F2 F4) as (P1 & P2 & P3).
  repeat (split; [assumption|]).
  rewrite P3. f_equal. unfold Spec.hook_calls. now rewrite F8, F9.
Qed.

(** Such a run: "empty.opus" decodes to no frame; two [play()]s follow. *)
Lemma decode_failure_leaves_handle_errored_witness :
  let s1 := settle_load Samples.host Samples.loading_empty in
  let s2 := Nat.iter 2 Spec.play_now s1 in
  loadError (this s1) = Some (Decoder.NoSamples "empty.opus") /\
  _duration (this s1) = JS.Fin 0 /\
  fired (rt s1) = [(1, OnError)] /\
  _paused (this s2) = true /\
  WebAudio.nodes (ctx (rt s2)) = [] /\
  fired (rt s2) = [(1, OnError); (1, OnError); (1, OnError)].
Proof.
  intros s1 s2.
  destruct (@decode_failure_leaves_handle_errored Samples.host "empty.opus"
              Samples.loading_empty [] 2 eq_refl eq_refl eq_refl eq_refl eq_refl)
    as (H1 & _ & H3 & _ & _ & _ & H7 & H8 & H9 & H10).
  split; [exact H1|]. split; [exact H3|]. split; [exact H7|].
  fold s1 s2 in H8, H9, H10.
  split; [rewrite H8; reflexivity|]. split; [rewrite H9; reflexivity|].
  rewrite H10. reflexivity.
Defined.

Lemma src_assignment_unloads (u : string) (s : Sys) :
  JS.truthy_string u && JS.endsWith u ".opus" = true ->
  Spec.unloaded (set_src u s).
Proof.
  intros Hu. unfold Spec.unloaded, set_src. rewrite Hu.
  unfold loadAudio, Decoder.decode_begin. open_sys s. cbn.
  break_match; cbn; auto.
Qed.

Lemma unloaded_until_settled (h : Decoder.Host) (ops : list Op) (s : Sys) :
  forallb Spec.unsettled ops = true -> Spec.unloaded s -> Spec.unloaded (run_all h ops s).
Proof.
  revert s. induction ops as [|o r IH]; intros s H Hs; simpl in *; auto.
  apply andb_prop in H as [Ho Hr]. apply IH; auto.
  destruct Hs as (H1 & H2 & H3). unfold Spec.unloaded.
  destruct o; try discriminate; cbn [run];
    unfold set_src, set_volume, set_loop, set_currentTime, play, pause, load,
      wake_play, wake_poll, play_resume, play_poll, play_body, dispatch_ended,
      sourceNode_onended, advance, loadAudio, stop, notify, suspend, Decoder.decode_begin;
    open_sys s; cbn in *; subst; break_match; cbn; auto.
Qed.

(** A failed reload is different: a handle that already holds a buffer
    keeps it, with its duration, when a later [load()] fails, and [play()]
    then plays the old buffer. *)
Lemma failed_reload_keeps_old_buffer :
  let s := run_all Samples.host
             [SetSrc "song.opus"; SetSrc "empty.opus"; Settle; Load; Settle]
             Samples.listening in
  loadError (this s) = Some (Decoder.NoSamples "empty.opus") /\
  _duration (this s) = JS.Fin 9 /\
  Spec.playbacks (Spec.play_now s) = [WebAudio.Playing (JS.Fin 0)].
Proof. vm_compute. repeat split. Qed.

(** C6.  After a load that failed for lack of frames the handle is meant
    to have duration 0 and to answer every [play()] with an error
    notification; [play()] itself says "If there was a load error or no
    buffer".  It tests the buffer only, and nothing ever reads [loadError].
    So, when "song.opus" has been decoded under the source "empty.opus" (the
    second assignment came while the first load was in flight) and [load()]
    then fails on "empty.opus": the error hook is called for the load, but
    the handle keeps the buffer and the duration 9 of "song.opus", and the
    next [play()] calls the play hook, starts a node and leaves the handle
    not paused. *)
Theorem stale_buffer_plays_after_failed_load :
  let s := run_all Samples.host
             [SetSrc "song.opus"; SetSrc "empty.opus"; Settle; Load; Settle]
             Samples.listening in
  let s' := Spec.play_now s in
  _src (this s) = "empty.opus"%string /\
  loadError (this s) = Some (Decoder.NoSamples "empty.opus") /\
  isLoading (this s) = false /\
  fired (rt s) = [(1, OnLoadedData); (1, OnError)] /\
  _duration (this s) = JS.Fin 9 /\
  audioBuffer (this s) = Some Samples.song /\
  _paused (this s) = true /\
  fired (rt s') = fired (rt s) ++ [(1, OnPlay)] /\
  _paused (this s') = false /\
  Spec.playbacks s' = [WebAudio.Playing (JS.Fin 0)].
Proof. vm_compute. repeat split. Qed.

Lemma ended_handler_when_not_looping (s : Sys) :
  _loop (this s) = false ->
  _paused (this (sourceNode_onended s)) = true /\
  _currentTime (this (sourceNode_onended s)) = JS.Fin 0 /\
  fired (rt (sourceNode_onended s)) = fired (rt s) ++ Spec.hook_calls OnEnded (this s) 1.
Proof.
  intros Hl. unfold sourceNode_onended, notify, Spec.hook_calls. rewrite Hl.
  open_sys s. cbn. destruct onended0; cbn; rewrite ?app_nil_r; auto.
Qed.

Lemma ended_handler_when_looping (s : Sys) :
  _loop (this s) = true -> sourceNode_onended s = s.
Proof. intros Hl. unfold sourceNode_onended. now rewrite Hl. Qed.

(** Only the host's dispatch of [ended] to a node reaches the hook. *)
Lemma ended_only_from_dispatch (h : Decoder.Host) (o : Op) (s : Sys) :
  (forall n, o <> Ended n) ->
  Spec.ended_calls (fired (rt (run h o s))) = Spec.ended_calls (fired (rt s)).
Proof.
  intros Hn. unfold Spec.ended_calls.
  destruct o; try (now destruct (Hn n)); cbn [run];
    unfold set_src, set_volume, set_loop, set_currentTime, play, pause, load,
      wake_play, wake_poll, play_resume, play_poll, play_body, settle_load,
      loadAudio_resume, advance, loadAudio, stop, playFromOffset, notify, suspend,
      Decoder.decode_begin;
    open_sys s; cbn; break_inner; rewrite ?filter_app; cbn;
    rewrite ?app_nil_r; auto.
Qed.

Lemma nth_error_update_nth (n : nat) (f : WebAudio.SourceNode -> WebAudio.SourceNode)
  (l : list WebAudio.SourceNode) (x : WebAudio.SourceNode) :
  nth_error l n = Some x -> nth_error (WebAudio.update_nth n f l) n = Some (f x).
Proof.
  revert n. induction l as [|y r IH]; intros [|n]; simpl; try discriminate; auto.
  now intros [= ->].
Qed.

(** Whatever is playing, without loop: [pause()] stops the node, and the
    [ended] that the host then dispatches to the stopped node calls the
    hook and puts the stored position back to 0. *)
Lemma pause_is_followed_by_ended (s : Sys) (n : nat) (x : WebAudio.SourceNode)
  (offset : JS.number) :
  sourceNode (this s) = Some n ->
  _paused (this s) = false ->
  _loop (this s) = false ->
  nth_error (WebAudio.nodes (ctx (rt s))) n = Some x ->
  WebAudio.playback x = WebAudio.Playing offset ->
  WebAudio.onended x = Some (id (this s)) ->
  _currentTime (this (pause s)) = get_currentTime s /\
  fired (rt (dispatch_ended n (pause s)))
    = fired (rt (pause s)) ++ Spec.hook_calls OnEnded (this s) 1 /\
  _currentTime (this (dispatch_ended n (pause s))) = JS.Fin 0.
Proof.
  intros Hn Hp Hl Hx Hpl Ho.
  unfold pause, stop, dispatch_ended, notify, Spec.hook_calls, sourceNode_onended.
  open_sys s. cbn in *. subst.
  destruct onpause0, onended0; cbn;
    rewrite (@nth_error_update_nth n _ _ x Hx);
    unfold WebAudio.stop, WebAudio.ran_out, WebAudio.was_stopped; rewrite Hpl; cbn;
    rewrite Ho, Nat.eqb_refl; cbn; rewrite ?app_nil_r; auto.
Qed.

(** C4.  The [ended] notification is meant to fire only when a
    non-looping playback reaches the end of its buffer.  The code installs
    its handler on every node it starts and never takes it off, and the host
    dispatches [ended] to a node that [stop()] has stopped as well.  So, with
    "song.opus" (nine seconds) playing: a [pause()] at second 3 is followed
    by an [ended] notification, and the paused position 3 is replaced by 0;
    and after a seek to second 5 the [ended] of the node that the seek
    stopped marks the handle paused while the node the seek started goes on
    playing.  In neither run did any node reach the end of its buffer. *)
Theorem ended_fires_after_stop :
  let s := Samples.paused_at_3 in
  let s' := run Samples.host (Ended 0) s in
  let t := Samples.sought_to_5 in
  let t' := run Samples.host (Ended 0) t in
  _loop (this s) = false /\
  _currentTime (this s) = JS.Fin 3 /\
  Spec.playbacks s = [WebAudio.Stopping] /\
  fired (rt s') = fired (rt s) ++ [(1, OnEnded)] /\
  _currentTime (this s') = JS.Fin 0 /\
  Spec.playbacks t = [WebAudio.Stopping; WebAudio.Playing (JS.Fin 5)] /\
  _paused (this t) = false /\
  fired (rt t') = fired (rt t) ++ [(1, OnEnded)] /\
  _paused (this t') = true /\
  Spec.playbacks t' = [WebAudio.Finished; WebAudio.Playing (JS.Fin 5)].
Proof. vm_compute. repeat split. Qed.

End HandleFacts.

(* ------------------------------------------------------------------ *)
(** ** Facts about the remote offset handler *)

Section OffsetFacts.

Import RMC.
Local Open Scope nat_scope.

Lemma nth_error_replace_nth (i : nat) (e e' : AudioElement) (l : list AudioElement) :
  nth_error l i = Some e -> nth_error (replace_nth i e' l) i = Some e'.
Proof.
  revert i. induction l as [|x r IH]; intros [|i]; simpl; try discriminate; auto.
Qed.

Lemma replace_nth_twice (i : nat) (e e' : AudioElement) (l : list AudioElement) :
  replace_nth i e' (replace_nth i e l) = replace_nth i e' l.
Proof.
  revert i. induction l as [|x r IH]; intros [|i]; simpl; auto. now rewrite IH.
Qed.

Lemma lookup_some (channel : JS.number) (w : World) (i : nat) (e : AudioElement) :
  lookup channel w = Some (i, e) -> nth_error (music w) i = Some e.
Proof.
  unfold lookup. destruct (JS.arrayIndex channel) as [j|]; [|discriminate].
  destruct (nth_error (music w) j) eqn:E; [|discriminate].
  now intros [= <- <-].
Qed.

Lemma no_channel_lookup (channel : JS.number) (w : World) :
  Spec.no_channel channel w -> lookup channel w = None.
Proof.
  unfold Spec.no_channel, lookup. intros H.
  destruct (JS.arrayIndex channel) as [j|]; auto. now rewrite (H j eq_refl).
Qed.

(** C5, as amended.  A remote offset command whose channel index, once a
    non-numeric, absent or zero index has been replaced by 0, names no
    element of the music pool returns normally and leaves the page,
    every channel included, exactly as it was. *)
Theorem missing_channel_is_noop (h : Host) (args : list string) (w : World) :
  Spec.no_channel (JS.or (Number h (nth_error args 2)) (JS.Fin 0)) w ->
  handleRMC h args w = Returned w.
Proof.
  intros H. unfold handleRMC. now rewrite (no_channel_lookup H).
Qed.

(** A run of the amended C5: channel 7 of a pool of one. *)
Lemma missing_channel_is_noop_witness :
  handleRMC decimal_host ["RMC"; "5"; "7"]%string Samples.page_native
  = Returned Samples.page_native.
Proof.
  apply missing_channel_is_noop.
  intros i. vm_compute. intros [= <-]. reflexivity.
Defined.

(** C5 as stated fails: the index "abc" is invalid, it reads as [NaN],
    and the handler takes channel 0 for it: that channel is paused and is
    given a listener. *)
Lemma invalid_channel_hits_channel_0 :
  let args := ["RMC"; "5"; "abc"]%string in
  Number decimal_host (nth_error args 2) = JS.NaN /\
  handleRMC decimal_host args Samples.page_native <> Returned Samples.page_native /\
  map (fun e => match e with
                | Native n => (paused n, received n)
                | _ => (false, [])
                end)
      (music (world_of (handleRMC decimal_host args Samples.page_native)))
  = [(true, [NSetSrc "https://host/song.opus"; NPause; NAddEventListener 0])].
Proof.
  cbv zeta. split; [reflexivity|]. split; [|reflexivity].
  vm_compute. discriminate.
Qed.


Lemma pause_keeps_src (p : Polyfill.PolyfillAudioElement) (r : Polyfill.Runtime) :
  Polyfill._src (fst (lift Polyfill.pause p r)) = Polyfill._src p.
Proof.
  unfold lift, Polyfill.pause, Polyfill.stop, Polyfill.notify.
  destruct p, r; cbn. break_match; cbn; auto.
Qed.

(** A native channel: the handler pauses it and listens for
    "loadedmetadata"; no timer is set. *)
Lemma native_channel_listens (h : Host) (args : list string) (w : World)
  (i : nat) (n : HTMLAudioElement) :
  lookup (JS.or (Number h (nth_error args 2)) (JS.Fin 0)) w = Some (i, Native n) ->
  exists w1 f,
    handleRMC h args w = Returned w1 /\
    channel_listeners i w1 = listeners n ++ [f] /\
    timers w1 = timers w.
Proof.
  intros H. unfold handleRMC. rewrite H.
  cbn [elem_pause instanceof_HTMLAudioElement elem_addEventListener].
  eexists _, _. split; [reflexivity|]. split; [|reflexivity].
  unfold channel_listeners, put, bump. cbn [music].
  rewrite replace_nth_twice.
  erewrite nth_error_replace_nth by (eapply lookup_some; eassumption).
  reflexivity.
Qed.

(** The listener runs once: dispatching "loadedmetadata" to a native
    channel leaves no listener of that channel registered. *)
Lemma native_listener_runs_once :
  let w1 := world_of (handleRMC decimal_host ["RMC"; "5"; "0"]%string Samples.page_native) in
  List.length (channel_listeners 0 w1) = 1 /\
  channel_listeners 0 (dispatch_loadedmetadata 0 1700000000300 w1) = [].
Proof. vm_compute. split; reflexivity. Qed.

(** A bare polyfill object: the handler pauses it and sets a timer of
    100ms. *)
Lemma software_channel_waits_100ms (h : Host) (args : list string) (w : World)
  (i : nat) (p : Polyfill.PolyfillAudioElement) :
  lookup (JS.or (Number h (nth_error args 2)) (JS.Fin 0)) w = Some (i, Software p) ->
  exists w1 f,
    handleRMC h args w = Returned w1 /\
    timers w1 = timers w ++ [((clock w + 100)%Z, f)].
Proof.
  intros H. unfold handleRMC. rewrite H. cbn [elem_pause].
  destruct (lift Polyfill.pause p (rt w)) as [p' r'].
  cbn [instanceof_HTMLAudioElement].
  eexists _, _. split; reflexivity.
Qed.

(** The proxy with an Opus source: the handler pauses the polyfill, takes
    the branch of the native element, and the call of [addEventListener]
    throws; nothing is registered with the host. *)
Lemma wrapped_opus_channel_throws (h : Host) (args : list string) (w : World)
  (i : nat) (n : HTMLAudioElement) (p : Polyfill.PolyfillAudioElement) :
  lookup (JS.or (Number h (nth_error args 2)) (JS.Fin 0)) w = Some (i, Wrapped n p) ->
  isOpus n p = true ->
  exists w1,
    handleRMC h args w = TypeError w1 /\
    timers w1 = timers w /\
    channel_listeners i w1 = listeners n.
Proof.
  intros H Ho. unfold handleRMC. rewrite H. cbn [elem_pause]. rewrite Ho.
  pose proof (pause_keeps_src p (rt w)) as Hs.
  destruct (lift Polyfill.pause p (rt w)) as [p' r']. cbn [fst] in Hs.
  assert (Ho' : isOpus n p' = true) by (unfold isOpus in *; now rewrite Hs).
  cbn [instanceof_HTMLAudioElement elem_addEventListener]. rewrite Ho'.
  eexists. split; [reflexivity|]. split; [reflexivity|].
  unfold channel_listeners, put, bump. cbn [music].
  erewrite nth_error_replace_nth by (eapply lookup_some; eassumption).
  reflexivity.
Qed.

(** C3.  The readiness signal is meant to be "loadedmetadata" for a native
    handle and a delay of 100ms for a handle that dispatches to the software
    variant.  For the proxy that [wrapAudioElement] returns, with an Opus
    source, the code does neither: the proxy passes the [instanceof
    HTMLAudioElement] test, [addEventListener] is looked up on the polyfill,
    which has none, and the handler ends in a [TypeError] with the channel
    paused, no listener, no timer, and no [play()] pending. *)
Theorem wrapped_channel_gets_no_readiness_signal :
  let w := Samples.page_wrapped in
  let o := handleRMC decimal_host ["RMC"; "5"; "0"]%string w in
  map instanceof_HTMLAudioElement (music w) = [true] /\
  map (fun e => match e with Wrapped n p => isOpus n p | _ => false end) (music w) = [true] /\
  o = TypeError (world_of o) /\
  timers (world_of o) = [] /\
  channel_listeners 0 (world_of o) = [] /\
  Polyfill.tasks (rt (world_of o)) = Polyfill.tasks (rt w) /\
  timers (run_timer (clock w + 100) (world_of o)) = [] /\
  music (run_timer (clock w + 100) (world_of o)) = music w.
Proof. vm_compute. repeat split; reflexivity. Qed.


Lemma set_currentTime_stores (v : JS.number) (p : Polyfill.PolyfillAudioElement)
  (r : Polyfill.Runtime) :
  Polyfill._currentTime (fst (fst (lift_setter (Polyfill.set_currentTime v) p r))) = v.
Proof.
  unfold lift_setter, Polyfill.set_currentTime, Polyfill.playFromOffset, Polyfill.stop.
  destruct p, r; cbn. break_inner; auto.
Qed.

Lemma play_keeps_currentTime (p : Polyfill.PolyfillAudioElement) (r : Polyfill.Runtime) :
  Polyfill._currentTime (fst (lift Polyfill.play p r)) = Polyfill._currentTime p.
Proof. reflexivity. Qed.

(** A write of [currentTime] that the channel accepts leaves the value on
    the channel, and the [play()] that follows does not change it. *)
Lemma seek_then_play (v : JS.number) (e : AudioElement) (r : Polyfill.Runtime) :
  snd (elem_set_currentTime v e r) = false ->
  Spec.seeks_to v (fst (fst (elem_set_currentTime v e r))) /\
  Spec.seeks_to v
    (fst (elem_play (fst (fst (elem_set_currentTime v e r)))
                    (snd (fst (elem_set_currentTime v e r))))).
Proof.
  destruct e as [n|p|n p]; cbn [elem_set_currentTime].
  - destruct v; cbn; try discriminate. auto.
  - pose proof (set_currentTime_stores v p r) as Hs.
    destruct (lift_setter (Polyfill.set_currentTime v) p r) as [[p' r'] t].
    cbn [fst snd elem_play Spec.seeks_to] in *. intros _. split; [exact Hs|].
    pose proof (play_keeps_currentTime p' r') as Hp.
    destruct (lift Polyfill.play p' r') as [p2 r2]. cbn [fst Spec.seeks_to] in *.
    congruence.
  - pose proof (set_currentTime_stores v p r) as Hs.
    destruct (lift_setter (Polyfill.set_currentTime v) p r) as [[p' r'] t].
    cbn [fst snd] in Hs.
    destruct t; [cbn; discriminate|].
    destruct v as [| | |q]; cbn [native_set_currentTime]; try (cbn; discriminate).
    intros _. cbn [fst snd elem_play Spec.seeks_to].
    split; [split; [reflexivity | exact Hs]|].
    destruct (isOpus _ p').
    + pose proof (play_keeps_currentTime p' r') as Hp.
      destruct (lift Polyfill.play p' r') as [p2 r2]. cbn [fst Spec.seeks_to] in *.
      split; [reflexivity | congruence].
    + cbn. auto.
Qed.

(** Every finite position that is not negative is accepted, by the native
    element and by the polyfill alike. *)
Lemma position_is_accepted (q : Q) (e : AudioElement) (r : Polyfill.Runtime) :
  (0 <= q)%Q -> snd (elem_set_currentTime (JS.Fin q) e r) = false.
Proof.
  intros Hq. apply Qle_bool_iff in Hq.
  assert (P : forall p, snd (lift_setter (Polyfill.set_currentTime (JS.Fin q)) p r) = false).
  { intros p. unfold lift_setter, Polyfill.set_currentTime, Polyfill.playFromOffset.
    cbn [WebAudio.refuses]. rewrite Hq. cbn [negb snd].
    destruct p, r; cbn. break_inner; auto. }
  destruct e as [n|p|n p]; cbn [elem_set_currentTime native_set_currentTime snd].
  - reflexivity.
  - specialize (P p).
    destruct (lift_setter (Polyfill.set_currentTime (JS.Fin q)) p r) as [[p' r'] t].
    exact P.
  - specialize (P p).
    destruct (lift_setter (Polyfill.set_currentTime (JS.Fin q)) p r) as [[p' r'] t].
    cbn [snd] in P. subst t. reflexivity.
Qed.

(** Three tenths of a second after [loadStartTime], an offset of 5 has
    become 5.3, whatever the clock read. *)
Lemma drift_of_300ms (t0 : Z) :
  JS.eq (JS.add (JS.Fin 5) (JS.sub (JS.seconds (t0 + 300)) (JS.seconds t0)))
        (JS.Fin (53 # 10)).
Proof.
  unfold JS.seconds, JS.sub, JS.add, JS.eq.
  rewrite !Qred_correct, inject_Z_plus. field.
Qed.

(** The same on doubles, at the clock of the sample page: the seconds of
    a clock near 1.7e9 are 2^-22 apart, the drift comes out as
    0.2999999523..., and the value written is within a millionth of 5.3
    without being equal to it. *)
Lemma drift_of_300ms_in_binary64 :
  Binary64.within Binary64.tolerance Binary64.sample Binary64.nearest_5_3 = true /\
  Binary64.same Binary64.sample Binary64.nearest_5_3 = false.
Proof. split; vm_compute; reflexivity. Qed.

(** A remote offset command that finds its channel and returns has left
    one closure with the host, as a "loadedmetadata" listener or as a
    timer, and the closure holds the offset of the command and the time at
    which the command was received.  Whenever the host runs that closure,
    in whatever state the page is by then, it writes
    [offset + (now - time of receipt)] to the channel's [currentTime] and,
    when the channel accepts the value, calls [play()] on it (the listener
    also takes itself off).  With an offset of 5 and a clock 300ms past the
    receipt the value written is 5.3. *)
Lemma remote_offset_compensates_drift (h : Host) (args : list string)
  (w w1 : World) (i : nat) (e : AudioElement) :
  lookup (JS.or (Number h (nth_error args 2)) (JS.Fin 0)) w = Some (i, e) ->
  handleRMC h args w = Returned w1 ->
  let totime := JS.or (parseFloat h (nth_error args 1)) (JS.Fin 0) in
  let f := {| c_id := nextId w; c_music := i; c_totime := totime;
              c_loadStartTime := JS.seconds (clock w) |} in
  Spec.registered f i w w1 /\
  (forall (w2 : World) (e2 : AudioElement),
     nth_error (music w2) i = Some e2 ->
     let v := JS.add totime (JS.sub (JS.seconds (clock w2)) (JS.seconds (clock w))) in
     let sought := elem_set_currentTime v e2 (rt w2) in
     snd sought = false ->
     let played := elem_play (fst (fst sought)) (snd (fst sought)) in
     Spec.seeks_to v (fst (fst sought)) /\
     Spec.seeks_to v (fst played) /\
     onTimeout f w2 = Returned (put i (fst played) (snd played) w2) /\
     world_of (onLoaded f w2)
       = put i (Spec.after_removal f (fst played)) (snd played) w2) /\
  (totime = JS.Fin 5 ->
   forall w2 : World, clock w2 = (clock w + 300)%Z ->
     JS.eq (target f w2) (JS.Fin (53 # 10))).
Proof.
  intros Hl Hr. cbv zeta. split; [|split].
  - revert Hr. unfold handleRMC. rewrite Hl.
    pose proof (lookup_some _ _ Hl) as Hn.
    destruct e as [n|p|n p]; cbn [elem_pause].
    + cbn [instanceof_HTMLAudioElement elem_addEventListener].
      intros [= <-]. left. unfold channel_listeners, put, bump. cbn [music timers].
      rewrite replace_nth_twice, (@nth_error_replace_nth _ _ _ _ Hn), Hn. auto.
    + destruct (lift Polyfill.pause p (rt w)) as [p' r'].
      cbn [instanceof_HTMLAudioElement].
      intros [= <-]. right. unfold channel_listeners, put, bump, with_timers.
      cbn [music timers clock]. rewrite (@nth_error_replace_nth _ _ _ _ Hn), Hn. auto.
    + destruct (isOpus n p) eqn:Ho.
      * pose proof (pause_keeps_src p (rt w)) as Hs.
        destruct (lift Polyfill.pause p (rt w)) as [p' r']. cbn [fst] in Hs.
        assert (Ho' : isOpus n p' = true) by (unfold isOpus in *; now rewrite Hs).
        cbn [instanceof_HTMLAudioElement elem_addEventListener]. rewrite Ho'.
        discriminate.
      * cbn [instanceof_HTMLAudioElement elem_addEventListener].
        assert (Ho' : isOpus (native_pause n) p = false) by exact Ho.
        rewrite Ho'. intros [= <-]. left.
        unfold channel_listeners, put, bump. cbn [music timers].
        rewrite replace_nth_twice, (@nth_error_replace_nth _ _ _ _ Hn), Hn. auto.
  - intros w2 e2 Hn Ha.
    destruct (@seek_then_play
                (JS.add (JS.or (parseFloat h (nth_error args 1)) (JS.Fin 0))
                        (JS.sub (JS.seconds (clock w2)) (JS.seconds (clock w))))
                e2 (rt w2) Ha) as [S1 S2].
    split; [exact S1|]. split; [exact S2|].
    unfold onTimeout, onLoaded, target, Spec.after_removal.
    cbn [c_music c_totime c_loadStartTime]. rewrite Hn.
    destruct (elem_set_currentTime _ e2 (rt w2)) as [[e3 r3] t]. cbn [fst snd] in *.
    subst t.
    destruct (elem_play e3 r3) as [e4 r4]. cbn [fst snd].
    split; [reflexivity|].
    destruct (elem_removeEventListener _ e4); reflexivity.
  - intros Ht w2 Hc. unfold target. cbn [c_totime c_loadStartTime].
    rewrite Ht, Hc. apply drift_of_300ms.
Qed.

(** Such a run: the command "offset 5.0, channel 0" reaches a native
    channel; "loadedmetadata" fires 300ms later. *)
Lemma remote_offset_compensates_drift_witness :
  let args := ["RMC"; "5.0"; "0"]%string in
  let w := Samples.page_native in
  let w1 := world_of (handleRMC decimal_host args w) in
  let w2 := dispatch_loadedmetadata 0 (clock w + 300) w1 in
  handleRMC decimal_host args w = Returned w1 /\
  List.length (channel_listeners 0 w1) = 1 /\
  (forall f, In f (channel_listeners 0 w1) ->
     JS.eq (target f (at_clock (clock w + 300) w1)) (JS.Fin (53 # 10))) /\
  map (fun e => match e with
                | Native n => (currentTime n, received n)
                | _ => (JS.NaN, [])
                end) (music w2)
  = [(JS.Fin (53 # 10),
      [NSetSrc "https://host/song.opus"; NPause; NAddEventListener 0;
       NSetCurrentTime (JS.Fin (53 # 10)); NPlay; NRemoveEventListener 0])].
Proof.
  intros args w w1 w2.
  assert (Hr : handleRMC decimal_host args w = Returned w1) by reflexivity.
  split; [exact Hr|].
  destruct (@remote_offset_compensates_drift decimal_host args w w1 0
              (Native (native_set_src "https://host/song.opus" (Samples.element "")))
              eq_refl Hr) as (Hreg & Hfire & Hdrift).
  split; [reflexivity|]. split.
  - intros f [<-|[]]. apply (Hdrift eq_refl). reflexivity.
  - reflexivity.
Defined.

(** A command whose offset reads as [Infinity] leaves a listener that
    throws when it runs: the native element refuses the position, nothing
    is played, and the listener stays. *)
Lemma infinite_offset_is_refused :
  let args := ["RMC"; "Infinity"; "0"]%string in
  let w1 := world_of (handleRMC decimal_host args Samples.page_native) in
  let w2 := dispatch_loadedmetadata 0 (clock Samples.page_native + 300) w1 in
  parseFloat decimal_host (nth_error args 1) = JS.PInf /\
  List.length (channel_listeners 0 w1) = 1 /\
  music w2 = music w1 /\
  channel_listeners 0 w2 = channel_listeners 0 w1.
Proof. vm_compute. repeat split; reflexivity. Qed.

(** C2.  Every remote offset command on an existing channel is meant to
    end, once the channel is ready, in a write of [offset + drift] to
    [currentTime] followed by [play()].  On the native element it does:
    300ms after the command "offset 5, channel 0" the element has been
    sought, asked to play, and is not paused.  On the proxy that
    [wrapAudioElement] returns, with an Opus source, the handler throws
    before it has registered anything (the defect of C3).  Whatever
    happens afterwards, "loadedmetadata" on the target or the 100ms of the
    timer, nobody writes [currentTime] and nobody calls [play()]: the
    native half has received the source and nothing else, the polyfill half
    is paused at position 0, and no [play()] is pending. *)
Theorem offset_never_reaches_wrapped_channel :
  let args := ["RMC"; "5"; "0"]%string in
  let ready w :=
    run_timer (clock w + 300)
      (dispatch_loadedmetadata 0 (clock w + 300)
         (world_of (handleRMC decimal_host args w))) in
  let sought := existsb (fun c => match c with NSetCurrentTime _ => true | _ => false end) in
  let played := existsb (fun c => match c with NPlay => true | _ => false end) in
  map (fun e => match e with
                | Native n => (sought (received n), played (received n), paused n)
                | _ => (false, false, true)
                end) (music (ready Samples.page_native))
  = [(true, true, false)] /\
  handleRMC decimal_host args Samples.page_wrapped
  = TypeError (world_of (handleRMC decimal_host args Samples.page_wrapped)) /\
  map (fun e => match e with
                | Wrapped n p =>
                    (received n, Polyfill._currentTime p, Polyfill._paused p,
                     Polyfill.sourceNode p)
                | _ => ([], JS.NaN, false, None)
                end) (music (ready Samples.page_wrapped))
  = [([NSetSrc "https://host/song.opus"], JS.Fin 0, true, None)] /\
  Polyfill.tasks (rt (ready Samples.page_wrapped))
  = Polyfill.tasks (rt Samples.page_wrapped) /\
  Polyfill.take_play 1 (Polyfill.tasks (rt (ready Samples.page_wrapped))) = None /\
  timers (ready Samples.page_wrapped) = [].
Proof. vm_compute. repeat split; reflexivity. Qed.

End OffsetFacts.

(* ------------------------------------------------------------------ *)
(** ** More about the decode cache *)

Section MoreCacheFacts.

Import Decoder.
Local Open Scope nat_scope.

Lemma cache_get_delete_other (k k0 : string) (c : Cache) :
  k <> k0 -> cache_get k (cache_delete k0 c) = cache_get k c.
Proof.
  intros Hne. induction c as [|[k' v'] r IH]; simpl; auto.
  destruct (String.eqb_spec k0 k'); simpl.
  - subst k'. destruct (String.eqb_spec k k0); congruence.
  - destruct (String.eqb k k'); auto.
Qed.

Lemma cache_get_insert_other (k url : string) (b : AudioBuffer) (c : Cache) :
  k <> url ->
  cache_size c <= 100 \/ cache_firstKey c <> Some k ->
  cache_get k (cache_insert url b c) = cache_get k c.
Proof.
  intros Hne Hk. unfold cache_insert.
  rewrite cache_get_set_other by exact Hne.
  destruct (Nat.ltb_spec 100 (cache_size c)) as [Hlt|Hle]; auto.
  destruct Hk as [Hk|Hk]; [lia|].
  destruct (cache_firstKey c) as [k0|] eqn:E; auto.
  destruct (JS.truthy_string k0); auto.
  apply cache_get_delete_other. congruence.
Qed.

(** A successful decode takes at most the oldest entry out of the cache:
    every other uri that was cached is still cached, with the same buffer. *)
Theorem decode_spares_all_but_oldest (h : Host) (url k : string) (s s1 : State)
  (b : AudioBuffer) :
  decodeOpusFile h url s = (Ok b, s1) ->
  k <> url ->
  cache_size (audioBufferCache s) <= 100 \/ cache_firstKey (audioBufferCache s) <> Some k ->
  cache_get k (audioBufferCache s1) = cache_get k (audioBufferCache s).
Proof.
  unfold decodeOpusFile, decode_begin.
  destruct (cache_get url (audioBufferCache s)) as [b0|] eqn:Hget; simpl.
  - now intros [= <- <-].
  - destruct (negb _); [discriminate|].
    destruct (_ =? 0); [discriminate|].
    destruct (createBuffer _ _ _ _); [|discriminate].
    destruct (fill _ _) as [ab|]; [|discriminate].
    intros [= <- <-] Hne Hk. simpl. now apply cache_get_insert_other.
Qed.

(** With 101 uris cached, the decode of a 102nd leaves the second one where
    it was. *)
Lemma decode_spares_all_but_oldest_witness :
  let s := decode_all Samples.host (Samples.uris 101) initial in
  let s1 := snd (decodeOpusFile Samples.host (Samples.uri 101) s) in
  cache_get (Samples.uri 1) (audioBufferCache s1)
  = cache_get (Samples.uri 1) (audioBufferCache s) /\
  cache_has (Samples.uri 1) (audioBufferCache s1) = true.
Proof.
  intros s s1. split.
  - eapply (@decode_spares_all_but_oldest Samples.host (Samples.uri 101)
              (Samples.uri 1) s s1).
    + vm_compute. reflexivity.
    + vm_compute. discriminate.
    + right. vm_compute. discriminate.
  - vm_compute. reflexivity.
Defined.

(** A decode that fails leaves the cache as it was and the uri uncached:
    the failure is not remembered, the uri was fetched once more, and the
    decode engine ran on it once unless the fetch itself failed. *)
Theorem failed_decode_caches_nothing (h : Host) (url : string) (s s1 : State)
  (e : Error) :
  decodeOpusFile h url s = (Throw e, s1) ->
  audioBufferCache s1 = audioBufferCache s /\
  cache_has url (audioBufferCache s1) = false /\
  fetch_count url s1 = S (fetch_count url s) /\
  decode_count url s1
    = (match e with FetchFailed _ _ => 0 | _ => 1 end) + decode_count url s.
Proof.
  unfold decodeOpusFile, decode_begin, cache_has.
  destruct (cache_get url (audioBufferCache s)) as [b0|] eqn:Hget; simpl;
    [discriminate|].
  unfold fetch_count, decode_count.
  destruct (negb _).
  { intros [= <- <-]. simpl. rewrite Hget, !count_called_other, String.eqb_refl.
    repeat split; lia. }
  destruct (_ =? 0).
  { intros [= <- <-]. simpl. rewrite Hget, !count_called_other, String.eqb_refl.
    repeat split; lia. }
  destruct (createBuffer _ _ _ _).
  - destruct (fill _ _) as [ab|]; [discriminate|].
    intros [= <- <-]. simpl. rewrite Hget, !count_called_other, String.eqb_refl.
    repeat split; lia.
  - intros [= <- <-]. simpl. rewrite Hget, !count_called_other, String.eqb_refl.
    repeat split; lia.
Qed.

(** "missing.opus" is answered 404, twice. *)
Lemma failed_decode_caches_nothing_witness :
  let s1 := snd (decodeOpusFile Samples.host "missing.opus" initial) in
  let s2 := snd (decodeOpusFile Samples.host "missing.opus" s1) in
  audioBufferCache s2 = [] /\
  fetch_count "missing.opus" s2 = 2 /\
  decode_count "missing.opus" s2 = 0.
Proof.
  intros s1 s2.
  destruct (@failed_decode_caches_nothing Samples.host "missing.opus" initial s1
              (FetchFailed "missing.opus" 404) eq_refl) as (A1 & _ & A3 & A4).
  destruct (@failed_decode_caches_nothing Samples.host "missing.opus" s1 s2
              (FetchFailed "missing.opus" 404) eq_refl) as (B1 & _ & B3 & B4).
  split; [rewrite B1, A1; reflexivity|].
  split; [rewrite B3, A3; reflexivity | rewrite B4, A4; reflexivity].
Defined.


(** Sequential decodes on a fresh page: "k0.opus" is the 101st uri. *)
Lemma decode_all_bound_witness :
  cache_size (audioBufferCache (decode_all Samples.host (Samples.uris 150) initial))
  <= 101.
Proof.
  apply decode_all_bound.
  - apply Forall_forall. intros u Hu. unfold Samples.uris in Hu.
    apply in_map_iff in Hu as (k & <- & _). reflexivity.
  - intros k [].
  - simpl. lia.
Defined.

(** The eviction test is [if (firstKey)]: when the oldest key is the empty
    string nothing is ever evicted, and a new uri makes the cache one entry
    longer whatever its size. *)
Theorem empty_oldest_key_is_never_evicted (url : string) (b v : AudioBuffer)
  (r : Cache) :
  cache_get url ((EmptyString, v) :: r) = None ->
  cache_insert url b ((EmptyString, v) :: r) = ((EmptyString, v) :: r) ++ [(url, b)].
Proof.
  intros Hn. unfold cache_insert. cbn [cache_firstKey JS.truthy_string].
  destruct (100 <? _); now apply cache_set_fresh.
Qed.

(** The empty uri first, then 109 others: 110 entries, and the next uri
    makes 111. *)
Lemma empty_oldest_key_is_never_evicted_witness :
  let c := audioBufferCache
             (decode_all Fixtures.open_host (EmptyString :: Samples.uris 109) initial) in
  cache_firstKey c = Some EmptyString /\
  cache_size c = 110 /\
  cache_size (cache_insert (Samples.uri 109) Samples.song c) = 111.
Proof.
  intros c.
  assert (Hc : c = (EmptyString, hd Samples.song (map snd c)) :: tl c)
    by (vm_compute; reflexivity).
  split; [vm_compute; reflexivity|]. split; [vm_compute; reflexivity|].
  rewrite Hc.
  rewrite (@empty_oldest_key_is_never_evicted (Samples.uri 109) Samples.song
             (hd Samples.song (map snd c)) (tl c)).
  - rewrite <- Hc. unfold cache_size. rewrite length_app. vm_compute. reflexivity.
  - rewrite <- Hc. vm_compute. reflexivity.
Defined.

(** Two calls for the same uncached uri that overlap (the second begins
    before the first has finished) are not merged: each one fetches and
    decodes, and the cache ends with the buffer of the one that finished
    last. *)
Theorem overlapping_decodes_both_reach_the_host (h : Host) (url : string)
  (s s2 s3 : State) (b1 b2 : AudioBuffer) :
  cache_get url (audioBufferCache s) = None ->
  let started1 := decode_begin url s in
  let started2 := decode_begin url (snd started1) in
  decode_finish h (fst started1) (snd started2) = (Ok b1, s2) ->
  decode_finish h (fst started2) s2 = (Ok b2, s3) ->
  fetch_count url s3 = 2 + fetch_count url s /\
  decode_count url s3 = 2 + decode_count url s /\
  cache_get url (audioBufferCache s3) = Some b2.
Proof.
  intros Hn. unfold decode_begin. rewrite Hn. cbn [fst snd getDecoder audioBufferCache].
  rewrite Hn. cbn [fst snd].
  unfold decode_finish.
  destruct (negb _); [discriminate|].
  destruct (_ =? 0); [discriminate|].
  destruct (createBuffer _ _ _ _); [|discriminate].
  destruct (fill _ _) as [ab|]; [|discriminate].
  intros [= <- <-].
  destruct (negb _); [discriminate|].
  destruct (_ =? 0); [discriminate|].
  destruct (createBuffer _ _ _ _); [|discriminate].
  destruct (fill _ _) as [ab2|]; [|discriminate].
  intros [= <- <-].
  unfold fetch_count, decode_count. simpl.
  rewrite !count_called_other, String.eqb_refl. simpl.
  rewrite cache_get_insert_same. repeat split; lia.
Qed.

(** Two overlapping decodes of "song.opus" on a fresh page. *)
Lemma overlapping_decodes_both_reach_the_host_witness :
  let started1 := decode_begin "song.opus" initial in
  let started2 := decode_begin "song.opus" (snd started1) in
  let s2 := snd (decode_finish Samples.host (fst started1) (snd started2)) in
  let s3 := snd (decode_finish Samples.host (fst started2) s2) in
  fetch_count "song.opus" s3 = 2 /\
  decode_count "song.opus" s3 = 2 /\
  cache_size (audioBufferCache s3) = 1.
Proof.
  intros started1 started2 s2 s3.
  destruct (@overlapping_decodes_both_reach_the_host Samples.host "song.opus"
              initial s2 s3 Samples.song Samples.song eq_refl eq_refl eq_refl)
    as (H1 & H2 & _).
  split; [exact H1|]. split; [exact H2 | reflexivity].
Defined.

End MoreCacheFacts.

(* ------------------------------------------------------------------ *)
(** ** The buffer a decode returns *)

Section BufferFacts.

Import Decoder.
Local Open Scope nat_scope.

Lemma typed_set_shape (dest src d' : list Q) :
  typed_set dest src = Some d' ->
  List.length d' = List.length dest /\
  firstn (List.length src) d' = src /\
  skipn (List.length src) d' = skipn (List.length src) dest.
Proof.
  unfold typed_set. destruct (Nat.leb_spec (List.length src) (List.length dest)) as [L|L];
    [|discriminate].
  intros [= <-]. split; [|split].
  - rewrite length_app, length_skipn. lia.
  - rewrite firstn_app, Nat.sub_diag, firstn_all. cbn. now rewrite app_nil_r.
  - rewrite skipn_app, Nat.sub_diag, skipn_all. reflexivity.
Qed.

Lemma copy_channels_shape (dest src r : list (list Q)) (len : nat) :
  copy_channels dest src = Some r ->
  Forall (fun ch => ch = repeat 0%Q len) dest ->
  List.length src = List.length dest ->
  List.length r = List.length src /\
  Forall (fun ch => List.length ch = len) r /\
  forall i s, nth_error src i = Some s ->
    exists ch, nth_error r i = Some ch /\
               firstn (List.length s) ch = s /\
               skipn (List.length s) ch = repeat 0%Q (len - List.length s).
Proof.
  revert dest r. induction src as [|s src IH]; intros dest r.
  - intros E F L. destruct dest; [|discriminate]. cbn in E. injection E as E. subst r.
    split; [reflexivity|]. split; [constructor|]. intros [|i] s H; discriminate.
  - destruct dest as [|d dest]; cbn [copy_channels]; [discriminate|].
    destruct (typed_set d s) as [d'|] eqn:T; [|discriminate].
    destruct (copy_channels dest src) as [r'|] eqn:C; [|discriminate].
    intros [= <-] F L. inversion F as [|? ? Fd Fr]; subst.
    cbn [List.length] in L. injection L as L.
    destruct (IH _ _ C Fr L) as (A1 & A2 & A3).
    destruct (typed_set_shape _ _ T) as (B1 & B2 & B3).
    rewrite repeat_length in B1.
    split; [cbn; now rewrite A1|]. split; [constructor; assumption|].
    intros [|i] s0 H; cbn [nth_error] in H |- *.
    + injection H as <-. exists d'. split; [reflexivity|]. split; [exact B2|].
      rewrite B3. clear. revert len. induction (List.length s) as [|k IHk]; intros len.
      * cbn. now rewrite Nat.sub_0_r.
      * destruct len; cbn; [reflexivity | apply IHk].
    + now apply A3.
Qed.

(** The buffer that a decode returns has the frame count and the sample
    rate the decode engine reported and one channel per decoded channel;
    every channel has that many frames, and starts with the decoded
    samples, the rest being silence. *)
Theorem decoded_buffer_holds_the_samples (h : Host) (url : string) (s s1 : State)
  (b : AudioBuffer) :
  cache_get url (audioBufferCache s) = None ->
  decodeOpusFile h url s = (Ok b, s1) ->
  let d := decodeFile h (body (fetch h (List.length (calls s)) url)) in
  ab_length b = samplesDecoded d /\
  ab_sampleRate b = sampleRate d /\
  List.length (ab_data b) = List.length (channelData d) /\
  Forall (fun ch => List.length ch = samplesDecoded d) (ab_data b) /\
  (forall i src, nth_error (channelData d) i = Some src ->
     exists ch, nth_error (ab_data b) i = Some ch /\
                firstn (List.length src) ch = src /\
                skipn (List.length src) ch
                = repeat 0%Q (samplesDecoded d - List.length src)) /\
  cache_get url (audioBufferCache s1) = Some b.
Proof.
  intros Hn. unfold decodeOpusFile, decode_begin. rewrite Hn.
  unfold decode_finish. cbn [getDecoder calls].
  destruct (negb _); [discriminate|].
  set (d := decodeFile h _).
  destruct (samplesDecoded d =? 0); [discriminate|].
  unfold createBuffer.
  destruct (_ || _ || _); [discriminate|].
  unfold fill. cbn [ab_data ab_length ab_sampleRate].
  destruct (copy_channels _ _) as [r|] eqn:C; [|discriminate].
  intros [= <- <-]. cbn [ab_length ab_sampleRate ab_data].
  assert (F : Forall (fun ch => ch = repeat 0%Q (samplesDecoded d))
                (repeat (repeat 0%Q (samplesDecoded d)) (List.length (channelData d)))).
  { apply Forall_forall. intros x Hx. now apply repeat_spec in Hx. }
  destruct (copy_channels_shape _ _ C F) as (A1 & A2 & A3);
    [now rewrite repeat_length|].
  split; [reflexivity|]. split; [reflexivity|]. split; [exact A1|].
  split; [exact A2|]. split; [exact A3|].
  cbn. apply cache_get_insert_same.
Qed.

(** "song.opus" on the sample host: nine frames, one channel. *)
Lemma decoded_buffer_holds_the_samples_witness :
  let d := decodeFile Samples.host
             (body (fetch Samples.host (List.length (calls initial)) "song.opus")) in
  ab_length Samples.song = samplesDecoded d /\
  ab_sampleRate Samples.song = sampleRate d /\
  List.length (ab_data Samples.song) = List.length (channelData d) /\
  Forall (fun ch => List.length ch = samplesDecoded d) (ab_data Samples.song) /\
  (forall i src, nth_error (channelData d) i = Some src ->
     exists ch, nth_error (ab_data Samples.song) i = Some ch /\
                firstn (List.length src) ch = src /\
                skipn (List.length src) ch
                = repeat 0%Q (samplesDecoded d - List.length src)) /\
  cache_get "song.opus"
    (audioBufferCache (snd (decodeOpusFile Samples.host "song.opus" initial)))
  = Some Samples.song.
Proof.
  apply (@decoded_buffer_holds_the_samples Samples.host "song.opus" initial
           (snd (decodeOpusFile Samples.host "song.opus" initial)) Samples.song).
  - reflexivity.
  - vm_compute. reflexivity.
Defined.

End BufferFacts.

(* ------------------------------------------------------------------ *)
(** ** Invariants of the software handle *)

Section ShapeFacts.

Import Polyfill.
Local Open Scope nat_scope.

(** Closes a goal that is in the context up to computation. *)
Ltac plain := cbn in *; subst; cbn in *; solve [assumption | discriminate | lia].

Lemma loads_app (i : nat) (l l' : list Task) :
  Shape.loads i (l ++ l') = Shape.loads i l + Shape.loads i l'.
Proof.
  induction l as [|t r IH]; simpl; auto.
  destruct t; rewrite IH; lia.
Qed.

Lemma take_load_loads (i : nat) (l : list Task) :
  match take_load i l with
  | Some (_, _, r) => Shape.loads i l = S (Shape.loads i r)
  | None => Shape.loads i l = 0
  end.
Proof.
  induction l as [|t r IH]; simpl; auto.
  destruct t; simpl.
  - destruct (owner =? i) eqn:E; simpl; auto.
    destruct (take_load i r) as [[[u' p'] r']|]; simpl; rewrite ?E; simpl; auto.
  - destruct (take_load i r) as [[[u' p'] r']|]; simpl; auto.
  - destruct (take_load i r) as [[[u' p'] r']|]; simpl; auto.
Qed.

Lemma take_play_loads (i : nat) (l r : list Task) :
  take_play i l = Some r -> Shape.loads i r = Shape.loads i l.
Proof.
  revert r. induction l as [|t l IH]; simpl; intros r; [discriminate|].
  destruct t; simpl.
  - destruct (take_play i l); simpl; [|discriminate].
    intros [= <-]. simpl. now rewrite (IH _ eq_refl).
  - destruct (owner =? i).
    + now intros [= <-].
    + destruct (take_play i l); simpl; [|discriminate].
      intros [= <-]. simpl. now rewrite (IH _ eq_refl).
  - destruct (take_play i l); simpl; [|discriminate].
    intros [= <-]. simpl. now rewrite (IH _ eq_refl).
Qed.

Lemma take_poll_loads (i : nat) (l r : list Task) :
  take_poll i l = Some r -> Shape.loads i r = Shape.loads i l.
Proof.
  revert r. induction l as [|t l IH]; simpl; intros r; [discriminate|].
  destruct t; simpl.
  - destruct (take_poll i l); simpl; [|discriminate].
    intros [= <-]. simpl. now rewrite (IH _ eq_refl).
  - destruct (take_poll i l); simpl; [|discriminate].
    intros [= <-]. simpl. now rewrite (IH _ eq_refl).
  - destruct (owner =? i).
    + now intros [= <-].
    + destruct (take_poll i l); simpl; [|discriminate].
      intros [= <-]. simpl. now rewrite (IH _ eq_refl).
Qed.

(** What the pieces of [play()] and the setters do to the load in flight:
    nothing. *)
Lemma play_body_keeps_loading (s : Sys) :
  id (this (play_body s)) = id (this s) /\
  isLoading (this (play_body s)) = isLoading (this s) /\
  tasks (rt (play_body s)) = tasks (rt s).
Proof.
  unfold play_body, stop, playFromOffset, notify.
  open_sys s. cbn. break_inner; cbn; auto.
Qed.

Lemma step_keeps_one_load (h : Decoder.Host) (o : Op) (s : Sys) :
  Shape.one_load s -> Shape.one_load (run h o s).
Proof.
  unfold Shape.one_load. intros H.
  destruct o; cbn [run].
  - (* SetSrc *)
    unfold set_src, loadAudio, Decoder.decode_begin.
    open_sys s. cbn in *.
    destruct isLoading0, (JS.truthy_string v && JS.endsWith v ".opus"); cbn; auto;
      destruct (Decoder.cache_get v (Decoder.audioBufferCache dec0)); cbn;
      rewrite loads_app; cbn; rewrite Nat.eqb_refl; lia.
  - unfold set_volume. open_sys s. cbn in *. break_inner; plain.
  - unfold set_loop. open_sys s. cbn in *. break_inner; plain.
  - unfold set_currentTime, stop, playFromOffset.
    open_sys s. cbn in *. break_inner; plain.
  - unfold play, suspend. open_sys s. cbn in *. rewrite loads_app. cbn. lia.
  - unfold pause, stop, notify. open_sys s. cbn in *. break_inner; plain.
  - unfold load, loadAudio, Decoder.decode_begin.
    open_sys s. cbn in *.
    destruct isLoading0, (JS.truthy_string _src0); cbn; auto;
      destruct (Decoder.cache_get _src0 (Decoder.audioBufferCache dec0)); cbn;
      rewrite loads_app; cbn; rewrite Nat.eqb_refl; lia.
  - (* WakePlay *)
    unfold wake_play. destruct (take_play _ _) as [r|] eqn:E; auto.
    apply take_play_loads in E.
    unfold play_resume.
    cbn [this rt on_ctx put_tasks tasks].
    destruct (isLoading (this s)) eqn:El.
    + unfold suspend. cbn. rewrite loads_app, E, H, El. cbn. lia.
    + destruct (play_body_keeps_loading
                  (on_ctx WebAudio.resumed (put_tasks r s))) as (P1 & P2 & P3).
      rewrite P1, P2, P3. cbn. rewrite E, H, El. reflexivity.
  - (* WakePoll *)
    unfold wake_poll. destruct (take_poll _ _) as [r|] eqn:E; auto.
    apply take_poll_loads in E.
    unfold play_poll. cbn [this rt put_tasks tasks].
    destruct (isLoading (this s)) eqn:El; cbn [negb].
    + unfold suspend. cbn. rewrite loads_app, E, H, El. cbn. lia.
    + destruct (play_body_keeps_loading (put_tasks r s)) as (P1 & P2 & P3).
      rewrite P1, P2, P3. cbn. rewrite E, H, El. reflexivity.
  - (* Settle *)
    unfold settle_load.
    pose proof (take_load_loads (id (this s)) (tasks (rt s))) as T.
    destruct (take_load _ _) as [[[u p] r]|]; auto.
    destruct (Decoder.decode_finish h p (dec (rt s))) as [res d].
    rewrite T in H. destruct (isLoading (this s)) eqn:El; [|discriminate].
    injection H as H.
    unfold loadAudio_resume, notify. open_sys s. cbn in *.
    break_inner; plain.
  - unfold dispatch_ended, sourceNode_onended, notify.
    open_sys s. cbn in *. break_inner; plain.
  - unfold advance. open_sys s. plain.
Qed.

(** A handle never has two decodes in flight, and [isLoading] is true
    exactly while it has one: this holds of a new handle and after every
    piece of execution. *)
Theorem one_load_in_flight (h : Decoder.Host) (ops : list Op) (s : Sys) :
  Shape.one_load s -> Shape.one_load (run_all h ops s).
Proof.
  revert s. induction ops as [|o r IH]; intros s H; simpl; auto.
  apply IH. now apply step_keeps_one_load.
Qed.

(** A busy run on the sample handle: three source assignments, a [load()],
    two [play()]s, and one settling. *)
Lemma one_load_in_flight_witness :
  Shape.one_load
    (run_all Samples.host
       [SetSrc "song.opus"; SetSrc "next.opus"; Play; Load; WakePlay;
        SetSrc "other.opus"; Settle; Play; Load]
       Samples.listening).
Proof.
  apply one_load_in_flight. reflexivity.
Defined.

End ShapeFacts.

(* ------------------------------------------------------------------ *)
(** ** The handle and the audio graph *)

Section GraphFacts.

Import Polyfill.
Local Open Scope nat_scope.


Lemma update_nth_last (f : WebAudio.SourceNode -> WebAudio.SourceNode)
  (l : list WebAudio.SourceNode) (x : WebAudio.SourceNode) :
  WebAudio.update_nth (List.length l) f (l ++ [x]) = l ++ [f x].
Proof. induction l as [|y r IH]; simpl; auto. now rewrite IH. Qed.















(** Up to the refused seek that run leaves five nodes, none playing, the
    last one refused by the host, and a handle that still says it is not
    paused. *)
Lemma refused_seek_leaves_silence :
  let s' := run_all Samples.host
              [SetCurrentTime (JS.Fin 2); Play; WakePlay;
               SetCurrentTime (JS.Fin 4); SetCurrentTime (JS.Fin (-1))]
              Samples.playing in
  map Shape.playing (Shape.nodes s') = [false; false; false; false; false] /\
  _paused (this s') = false /\
  sourceNode (this s') = Some 4 /\
  _currentTime (this s') = JS.Fin (-1).
Proof. vm_compute. repeat split; reflexivity. Qed.

End GraphFacts.

(* ------------------------------------------------------------------ *)
(** ** Playback position of the software player *)

Section PositionFacts.

Import Polyfill.
Local Open Scope nat_scope.

Lemma update_nth_length (n : nat) (f : WebAudio.SourceNode -> WebAudio.SourceNode)
  (l : list WebAudio.SourceNode) :
  List.length (WebAudio.update_nth n f l) = List.length l.
Proof. revert n. induction l as [|x r IH]; intros [|n]; simpl; auto. Qed.

(** [playFromOffset] on a handle with a buffer, at an offset the host
    takes: one node more, started at the offset, and the start reference is
    the audio clock minus the offset. *)
Lemma playFromOffset_effect (v : JS.number) (s : Sys) (b : Decoder.AudioBuffer)
  (g : JS.number) :
  WebAudio.refuses v = false ->
  audioBuffer (this s) = Some b -> gainNode (this s) = Some g ->
  exists s',
    playFromOffset v s = Done s' /\
    this s'
    = set_paused' false
        (set_startTime' (JS.sub (WebAudio.currentTime (ctx (rt s))) v)
           (set_sourceNode' (Some (List.length (Shape.nodes s))) (this s))) /\
    Shape.nodes s'
    = Shape.nodes s ++
      [ {| WebAudio.buffer := Some b; WebAudio.loop := _loop (this s);
           WebAudio.connected := true; WebAudio.onended := Some (id (this s));
           WebAudio.playback := WebAudio.Playing v |} ] /\
    WebAudio.currentTime (ctx (rt s')) = WebAudio.currentTime (ctx (rt s)) /\
    tasks (rt s') = tasks (rt s) /\
    fired (rt s') = fired (rt s) /\
    dec (rt s') = dec (rt s).
Proof.
  intros Hr Hb Hg. unfold playFromOffset, Shape.nodes, WebAudio.start.
  rewrite Hb, Hg, Hr.
  eexists. split; [reflexivity|].
  open_sys s. cbn in *.
  unfold WebAudio.update_node, WebAudio.with_nodes. cbn.
  rewrite !update_nth_last. cbn. auto 10.
Qed.

Lemma stop_effect (s : Sys) :
  this (stop s) = set_sourceNode' None (this s) /\
  List.length (Shape.nodes (stop s)) = List.length (Shape.nodes s) /\
  WebAudio.currentTime (ctx (rt (stop s))) = WebAudio.currentTime (ctx (rt s)) /\
  tasks (rt (stop s)) = tasks (rt s) /\
  fired (rt (stop s)) = fired (rt s) /\
  dec (rt (stop s)) = dec (rt s).
Proof.
  unfold stop, Shape.nodes. open_sys s. cbn.
  destruct sourceNode0; cbn; rewrite ?update_nth_length; auto 10.
Qed.

Lemma paused_after (f : PolyfillAudioElement -> PolyfillAudioElement) (s : Sys) :
  this (on_this f s) = f (this s) /\ rt (on_this f s) = rt s.
Proof. destruct s; split; reflexivity. Qed.


Lemma notify_this (k : Hook) (s : Sys) :
  this (notify k s) = this s /\ ctx (rt (notify k s)) = ctx (rt s) /\
  tasks (rt (notify k s)) = tasks (rt s) /\ dec (rt (notify k s)) = dec (rt s).
Proof. unfold notify. destruct (hook k (this s)); cbn; auto. Qed.

(** [play()] from its test of the buffer on, for a handle that has one. *)
Lemma play_body_effect (s : Sys) (b : Decoder.AudioBuffer) (g : JS.number) :
  WebAudio.refuses (_currentTime (this s)) = false ->
  audioBuffer (this s) = Some b -> gainNode (this s) = Some g ->
  this (play_body s)
  = set_paused' false
      (set_startTime' (JS.sub (WebAudio.currentTime (ctx (rt s))) (_currentTime (this s)))
         (set_sourceNode' (Some (List.length (Shape.nodes s))) (this s))) /\
  WebAudio.currentTime (ctx (rt (play_body s))) = WebAudio.currentTime (ctx (rt s)) /\
  nth_error (Shape.nodes (play_body s)) (List.length (Shape.nodes s))
  = Some {| WebAudio.buffer := Some b; WebAudio.loop := _loop (this s);
            WebAudio.connected := true; WebAudio.onended := Some (id (this s));
            WebAudio.playback := WebAudio.Playing (_currentTime (this s)) |} /\
  List.length (Shape.nodes (play_body s)) = S (List.length (Shape.nodes s)) /\
  tasks (rt (play_body s)) = tasks (rt s).
Proof.
  intros Hr Hb Hg. unfold play_body. rewrite Hb.
  destruct (stop_effect s) as (T1 & L1 & C1 & K1 & _).
  set (s1 := stop s) in *.
  assert (B1 : audioBuffer (this s1) = Some b)
    by (rewrite T1; destruct (this s); exact Hb).
  assert (G1 : gainNode (this s1) = Some g)
    by (rewrite T1; destruct (this s); exact Hg).
  assert (R1 : WebAudio.refuses (_currentTime (this s1)) = false)
    by (rewrite T1; destruct (this s); exact Hr).
  destruct (@playFromOffset_effect (_currentTime (this s1)) s1 b g R1 B1 G1)
    as (s2 & E & T2 & N2 & C2 & K2 & _).
  rewrite E.
  destruct (notify_this OnPlay s2) as (T3 & C3 & K3 & _).
  unfold Shape.nodes in *.
  rewrite T3, C3, K3, T2, N2, C2, K2, C1, K1, L1, T1.
  split; [|split; [|split; [|split]]].
  - destruct (this s); reflexivity.
  - reflexivity.
  - rewrite nth_error_app2, L1, Nat.sub_diag by (rewrite L1; lia).
    destruct (this s); reflexivity.
  - rewrite length_app, L1. cbn. lia.
  - reflexivity.
Qed.

(** [pause()] on a handle that plays. *)
Lemma pause_effect (s : Sys) (n : nat) :
  sourceNode (this s) = Some n -> _paused (this s) = false ->
  this (pause s)
  = set_paused' true (set_sourceNode' None (set_currentTime' (get_currentTime s) (this s))).
Proof.
  intros Hn Hp. unfold pause. rewrite Hn, Hp.
  destruct (notify_this OnPause
              (on_this (set_paused' true)
                 (stop (on_this (set_currentTime' (get_currentTime s)) s)))) as (T & _).
  rewrite T.
  destruct (stop_effect (on_this (set_currentTime' (get_currentTime s)) s)) as (T1 & _).
  destruct (paused_after (set_paused' true)
              (stop (on_this (set_currentTime' (get_currentTime s)) s))) as (T2 & _).
  rewrite T2, T1. reflexivity.
Qed.

Lemma advance_this (t : JS.number) (s : Sys) :
  this (advance t s) = this s /\ WebAudio.currentTime (ctx (rt (advance t s))) = t.
Proof. destruct s; split; reflexivity. Qed.

(** What a handle reads as its position, [t - c] seconds after [play()]
    started it at position [q] when the audio clock read [c]. *)
Lemma position_after_play (q c : Q) (t : JS.number) (s : Sys)
  (b : Decoder.AudioBuffer) (g : JS.number) :
  (0 <= q)%Q ->
  audioBuffer (this s) = Some b -> gainNode (this s) = Some g ->
  _currentTime (this s) = JS.Fin q ->
  WebAudio.currentTime (ctx (rt s)) = JS.Fin c ->
  _currentTime (this (pause (advance t (play_body s))))
  = (if Qle_bool (Qred (c - q)) 0 then JS.Fin q
     else JS.sub t (JS.Fin (Qred (c - q)))) /\
  _paused (this (pause (advance t (play_body s)))) = true.
Proof.
  intros H0 Hb Hg Hq Hc.
  assert (R : WebAudio.refuses (_currentTime (this s)) = false).
  { rewrite Hq. cbn [WebAudio.refuses]. apply Qle_bool_iff in H0. now rewrite H0. }
  destruct (play_body_effect s R Hb Hg) as (T & _).
  destruct (advance_this t (play_body s)) as (A1 & A2).
  assert (Hn : sourceNode (this (advance t (play_body s)))
               = Some (List.length (Shape.nodes s)))
    by (rewrite A1, T; destruct (this s); reflexivity).
  assert (Hp : _paused (this (advance t (play_body s))) = false)
    by (rewrite A1, T; destruct (this s); reflexivity).
  rewrite (pause_effect _ Hn Hp).
  unfold get_currentTime. rewrite A2, A1, T, Hc.
  destruct (this s); cbn [_currentTime] in Hq; subst.
  cbn [_paused _currentTime startTime set_paused' set_startTime'
       set_sourceNode' set_currentTime' negb andb JS.sub JS.ltb].
  split; [|reflexivity].
  destruct (Qle_bool (Qred (c - q)) 0); reflexivity.
Qed.

(** A handle that [play()] started at position [q] while the audio clock
    read [c], with [q] behind [c], stores at a [pause()] the reading [t] of
    the audio clock minus the start reference [c - q] that [play()] took:
    the position it was started at plus the time played, computed by these
    two subtractions. *)
Theorem pause_keeps_the_time_played (q c t : Q) (s : Sys)
  (b : Decoder.AudioBuffer) (g : JS.number) :
  (0 <= q)%Q -> (q < c)%Q ->
  audioBuffer (this s) = Some b -> gainNode (this s) = Some g ->
  _currentTime (this s) = JS.Fin q ->
  WebAudio.currentTime (ctx (rt s)) = JS.Fin c ->
  startTime (this (play_body s)) = JS.sub (JS.Fin c) (JS.Fin q) /\
  _currentTime (this (pause (advance (JS.Fin t) (play_body s))))
  = JS.sub (JS.Fin t) (JS.sub (JS.Fin c) (JS.Fin q)) /\
  _paused (this (pause (advance (JS.Fin t) (play_body s)))) = true.
Proof.
  intros H0 Hlt Hb Hg Hq Hc.
  destruct (position_after_play (JS.Fin t) s H0 Hb Hg Hq Hc) as (E & P).
  split; [|split; [|exact P]].
  - assert (R : WebAudio.refuses (_currentTime (this s)) = false).
    { rewrite Hq. cbn [WebAudio.refuses]. apply Qle_bool_iff in H0. now rewrite H0. }
    destruct (play_body_effect s R Hb Hg) as (T & _).
    rewrite T, Hc, Hq. destruct (this s); reflexivity.
  - rewrite E.
    destruct (Qle_bool (Qred (c - q)) 0) eqn:L; [|reflexivity].
    apply Qle_bool_iff in L. rewrite Qred_correct in L. lra.
Qed.

(** A handle started at a position that is not behind the audio clock
    never shows progress: when it is paused, however long it has played,
    it gives back the position it was started at. *)
Theorem pause_drops_the_time_played (q c : Q) (t : JS.number) (s : Sys)
  (b : Decoder.AudioBuffer) (g : JS.number) :
  (0 <= q)%Q -> (c <= q)%Q ->
  audioBuffer (this s) = Some b -> gainNode (this s) = Some g ->
  _currentTime (this s) = JS.Fin q ->
  WebAudio.currentTime (ctx (rt s)) = JS.Fin c ->
  _currentTime (this (pause (advance t (play_body s)))) = JS.Fin q.
Proof.
  intros H0 Hle Hb Hg Hq Hc.
  destruct (position_after_play t s H0 Hb Hg Hq Hc) as (E & _).
  rewrite E.
  destruct (Qle_bool (Qred (c - q)) 0) eqn:L; [reflexivity|].
  apply Qle_bool_false in L. rewrite Qred_correct in L. lra.
Qed.

(** A second [pause()] does nothing. *)
Theorem pause_twice (s : Sys) : pause (pause s) = pause s.
Proof.
  destruct (sourceNode (this s)) as [n|] eqn:Hn.
  - destruct (_paused (this s)) eqn:Hp.
    + unfold pause at 2. rewrite Hn, Hp. unfold pause. rewrite Hn, Hp. reflexivity.
    + pose proof (pause_effect s Hn Hp) as T.
      unfold pause at 1. rewrite T.
      destruct (this s); reflexivity.
  - unfold pause at 2. rewrite Hn. unfold pause. rewrite Hn. reflexivity.
Qed.






(** Paused at second 3, resumed when the audio clock reads 14, paused
    again when it reads 17. *)
Lemma pause_keeps_the_time_played_witness :
  let s := advance (JS.Fin 14) Samples.paused_at_3 in
  startTime (this (play_body s)) = JS.sub (JS.Fin 14) (JS.Fin 3) /\
  _currentTime (this (pause (advance (JS.Fin 17) (play_body s))))
  = JS.sub (JS.Fin 17) (JS.sub (JS.Fin 14) (JS.Fin 3)) /\
  _paused (this (pause (advance (JS.Fin 17) (play_body s)))) = true.
Proof.
  apply (@pause_keeps_the_time_played 3 14 17
           (advance (JS.Fin 14) Samples.paused_at_3) Samples.song (JS.Fin 1)).
  - vm_compute. discriminate.
  - vm_compute. reflexivity.
  - vm_compute. reflexivity.
  - vm_compute. reflexivity.
  - vm_compute. reflexivity.
  - vm_compute. reflexivity.
Defined.

Lemma pause_drops_the_time_played_witness :
  _currentTime
    (this (pause (advance (JS.Fin 8)
                    (play_body
                       (run_all Samples.host
                          [SetSrc "song.opus"; Settle; SetCurrentTime (JS.Fin 5)]
                          Samples.listening)))))
  = JS.Fin 5.
Proof.
  apply (@pause_drops_the_time_played 5 0 (JS.Fin 8)
           (run_all Samples.host
              [SetSrc "song.opus"; Settle; SetCurrentTime (JS.Fin 5)]
              Samples.listening)
           Samples.song (JS.Fin 1)).
  - vm_compute. discriminate.
  - vm_compute. discriminate.
  - vm_compute. reflexivity.
  - vm_compute. reflexivity.
  - vm_compute. reflexivity.
  - vm_compute. reflexivity.
Defined.


End PositionFacts.

(* ------------------------------------------------------------------ *)
(** ** The probe, the preset channels and the volume sliders *)

Section ViewportFacts.

Import Polyfill.
Local Open Scope nat_scope.

(** The capability probe is consulted by the first call only: every later
    call gives the first answer and logs nothing, whatever the browser
    would report by then. *)
Theorem probe_is_asked_once (h1 h2 : Viewport.Probe) (m : Viewport.Flags) :
  Viewport.needsOpusPolyfill h2 (snd (Viewport.needsOpusPolyfill h1 m))
  = (fst (Viewport.needsOpusPolyfill h1 m), snd (Viewport.needsOpusPolyfill h1 m)).
Proof.
  unfold Viewport.needsOpusPolyfill.
  destruct (Viewport.needsPolyfill m) as [b|] eqn:E.
  - cbn [snd fst]. rewrite E. reflexivity.
  - destruct (negb (Viewport.supportsOpusNatively h1)); reflexivity.
Qed.

Lemma substring_append (a b : string) :
  substring (String.length a) (String.length b) (String.append a b) = b.
Proof.
  induction a as [|c a IH]; cbn [String.length String.append substring].
  - induction b as [|c b IHb]; cbn; [reflexivity | now rewrite IHb].
  - exact IH.
Qed.

Lemma length_append (a b : string) :
  String.length (String.append a b) = String.length a + String.length b.
Proof. induction a as [|c a IH]; cbn; [reflexivity | now rewrite IH]. Qed.

Lemma endsWith_append (a b : string) : JS.endsWith (String.append a b) b = true.
Proof.
  unfold JS.endsWith. rewrite length_append.
  replace (String.length a + String.length b - String.length b) with (String.length a)
    by lia.
  rewrite substring_append, String.eqb_refl.
  rewrite Bool.andb_true_r. apply Nat.leb_le. lia.
Qed.

Lemma truthy_append (a : string) (c : ascii) (b : string) :
  JS.truthy_string (String.append a (String c b)) = true.
Proof. destruct a; reflexivity. Qed.

Lemma take_play_snoc (i : nat) (l : list Task) :
  take_play i l = None -> take_play i (l ++ [PlayTask i]) = Some l.
Proof.
  induction l as [|t l IH]; cbn [take_play app].
  - intros _. now rewrite Nat.eqb_refl.
  - destruct t as [o u p|o|o].
    + destruct (take_play i l); cbn; [discriminate|]. intros _. now rewrite IH.
    + destruct (o =? i); [discriminate|].
      destruct (take_play i l); cbn; [discriminate|]. intros _. now rewrite IH.
    + destruct (take_play i l); cbn; [discriminate|]. intros _. now rewrite IH.
Qed.

(** A native element whose source names an Opus file, wrapped on a host
    that needs the polyfill: [play()] through the proxy goes to the
    polyfill half, which was given no source. *)
Lemma wrapped_preset_is_silent (i : nat) (n : RMC.HTMLAudioElement)
  (r : Polyfill.Runtime) :
  JS.truthy_string (RMC.src n) = true -> JS.endsWith (RMC.src n) ".opus" = true ->
  take_play i (tasks r) = None ->
  exists p2 r2,
    (let (e, r1) := RMC.wrapAudioElement true i n r in RMC.elem_play e r1)
    = (RMC.Wrapped n p2, r2) /\
    let s3 := wake_play {| this := p2; rt := r2 |} in
    WebAudio.nodes (ctx (rt s3)) = WebAudio.nodes (ctx r) /\
    fired (rt s3) = fired r /\
    tasks (rt s3) = tasks r /\
    _paused (this s3) = true /\
    audioBuffer (this s3) = None.
Proof.
  intros Hy He Ht.
  unfold RMC.wrapAudioElement. cbn [negb].
  unfold RMC.lift, set_volume, set_loop. cbn -[JS.Math_max JS.Math_min].
  destruct (JS.Math_max _ _); cbn -[JS.Math_max JS.Math_min];
    unfold RMC.isOpus; rewrite Hy, He;
    unfold RMC.lift, play, suspend; cbn -[JS.Math_max JS.Math_min];
    (eexists; eexists; split; [reflexivity|]);
    unfold wake_play; cbn -[JS.Math_max JS.Math_min take_play];
    rewrite (@take_play_snoc _ _ Ht);
    unfold play_resume; cbn -[JS.Math_max JS.Math_min];
    destruct r as [c d t f]; cbn; auto.
Qed.

(** The sounds preset by [createSfxAudio], [createShoutAudio] and
    [createTestimonyAudio] cannot be played through the handle these
    functions return on a host without Opus: the source was given to the
    native element before it was wrapped, so [play()] is routed to a
    polyfill half that has nothing to play; it starts no node, calls no
    hook and the native element is never asked to play. *)
Theorem preset_sounds_never_start
  (create : bool -> nat -> string -> RMC.HTMLAudioElement -> Polyfill.Runtime ->
            RMC.AudioElement * Polyfill.Runtime)
  (i : nat) (AO_HOST : string) (n : RMC.HTMLAudioElement) (r : Polyfill.Runtime) :
  In create [Viewport.createSfxAudio; Viewport.createShoutAudio;
             Viewport.createTestimonyAudio] ->
  take_play i (tasks r) = None ->
  exists n1 p2 r2,
    (let (e, r1) := create true i AO_HOST n r in RMC.elem_play e r1)
    = (RMC.Wrapped n1 p2, r2) /\
    RMC.received n1 = RMC.received n ++ [RMC.NSetSrc (RMC.src n1)] /\
    let s3 := wake_play {| this := p2; rt := r2 |} in
    WebAudio.nodes (ctx (rt s3)) = WebAudio.nodes (ctx r) /\
    fired (rt s3) = fired r /\
    tasks (rt s3) = tasks r /\
    _paused (this s3) = true /\
    audioBuffer (this s3) = None.
Proof.
  intros Hc Ht.
  assert (G : forall tail : string,
             exists n1 p2 r2,
               (let (e, r1) :=
                  RMC.wrapAudioElement true i
                    (RMC.native_set_src (String.append AO_HOST (String.append tail ".opus")) n)
                    r in
                RMC.elem_play e r1) = (RMC.Wrapped n1 p2, r2) /\
               RMC.received n1 = RMC.received n ++ [RMC.NSetSrc (RMC.src n1)] /\
               let s3 := wake_play {| this := p2; rt := r2 |} in
               WebAudio.nodes (ctx (rt s3)) = WebAudio.nodes (ctx r) /\
               fired (rt s3) = fired r /\
               tasks (rt s3) = tasks r /\
               _paused (this s3) = true /\
               audioBuffer (this s3) = None).
  { intros tail.
    set (u := String.append AO_HOST (String.append tail ".opus")).
    assert (Hy : JS.truthy_string (RMC.src (RMC.native_set_src u n)) = true).
    { cbn [RMC.src RMC.native_set_src]. subst u.
      destruct AO_HOST; [destruct tail|]; reflexivity. }
    assert (He : JS.endsWith (RMC.src (RMC.native_set_src u n)) ".opus" = true).
    { cbn [RMC.src RMC.native_set_src]. subst u.
      replace (String.append AO_HOST (String.append tail ".opus"))
        with (String.append (String.append AO_HOST tail) ".opus").
      - apply endsWith_append.
      - clear. induction AO_HOST as [|c a IH]; cbn; [reflexivity | now rewrite IH]. }
    destruct (@wrapped_preset_is_silent i _ r Hy He Ht) as (p2 & r2 & E & Q).
    exists (RMC.native_set_src u n), p2, r2. split; [exact E|]. split; [reflexivity|].
    exact Q. }
  destruct Hc as [<-|[<-|[<-|[]]]].
  - exact (G "sounds/general/sfx-realization"%string).
  - exact (G "misc/default/objection"%string).
  - exact (G "sounds/general/sfx-guilty"%string).
Qed.

Lemma preset_sounds_never_start_witness :
  exists n1 p2 r2,
    (let (e, r1) :=
       Viewport.createShoutAudio true 1 "https://host/" (Samples.element "")
         Samples.runtime in
     RMC.elem_play e r1) = (RMC.Wrapped n1 p2, r2) /\
    RMC.received n1
    = RMC.received (Samples.element "") ++ [RMC.NSetSrc (RMC.src n1)] /\
    let s3 := wake_play {| this := p2; rt := r2 |} in
    WebAudio.nodes (ctx (rt s3)) = WebAudio.nodes (ctx Samples.runtime) /\
    fired (rt s3) = fired Samples.runtime /\
    tasks (rt s3) = tasks Samples.runtime /\
    _paused (this s3) = true /\
    audioBuffer (this s3) = None.
Proof.
  apply (@preset_sounds_never_start Viewport.createShoutAudio 1 "https://host/"
           (Samples.element "") Samples.runtime).
  - right. left. reflexivity.
  - vm_compute. reflexivity.
Defined.

Lemma clamp_in_range (q : Q) :
  (0 <= q)%Q -> (q <= 1)%Q ->
  JS.eq (JS.Math_max (JS.Fin 0) (JS.Math_min (JS.Fin 1) (JS.Fin q))) (JS.Fin q).
Proof.
  intros H0 H1. cbn [JS.Math_min JS.Math_max JS.ltb].
  destruct (Qle_bool 1 q) eqn:A; cbn [negb JS.ltb].
  - apply Qle_bool_iff in A. cbn. lra.
  - destruct (Qle_bool q 0) eqn:B; cbn [negb JS.eq].
    + apply Qle_bool_iff in B. lra.
    + reflexivity.
Qed.

(** A write of the volume whose clamped value is a finite number. *)
Lemma set_volume_effect (v : JS.number) (c : Q) (p : PolyfillAudioElement)
  (r : Runtime) :
  JS.Math_max (JS.Fin 0) (JS.Math_min (JS.Fin 1) v) = JS.Fin c ->
  exists p',
    RMC.lift_setter (set_volume v) p r = (p', r, false) /\
    _volume p' = JS.Fin c /\
    (forall g, gainNode p' = Some g -> g = _volume p').
Proof.
  intros Hc. unfold RMC.lift_setter, set_volume. rewrite Hc.
  destruct p; cbn in *.
  destruct gainNode0; cbn;
    (eexists; split; [reflexivity|]; cbn; split;
     [reflexivity | intros g' Hg'; congruence]).
Qed.

Lemma clamp_is_finite (q : Q) :
  (0 <= q)%Q -> (q <= 1)%Q ->
  exists c, JS.Math_max (JS.Fin 0) (JS.Math_min (JS.Fin 1) (JS.Fin q)) = JS.Fin c /\
            JS.eq (JS.Fin c) (JS.Fin q).
Proof.
  intros H0 H1. pose proof (clamp_in_range H0 H1) as E.
  destruct (JS.Math_max _ _) as [| | |c]; try contradiction.
  exists c. split; [reflexivity | exact E].
Qed.

Lemma native_volume_in_range (q : Q) (n : RMC.HTMLAudioElement) :
  (0 <= q)%Q -> (q <= 1)%Q ->
  exists n', Viewport.native_set_volume (JS.Fin q) n = Some n' /\
             RMC.volume n' = JS.Fin q.
Proof.
  intros H0 H1. unfold Viewport.native_set_volume.
  apply Qle_bool_iff in H0, H1. rewrite H0, H1. cbn [andb].
  eexists. split; reflexivity.
Qed.

Lemma elem_volume_in_range (q : Q) (e : RMC.AudioElement) (r : Runtime) :
  (0 <= q)%Q -> (q <= 1)%Q ->
  exists e', Viewport.elem_set_volume (JS.Fin q) e r = (e', r, Viewport.Normal) /\
             Viewport.at_volume (JS.Fin q) e'.
Proof.
  intros H0 H1. destruct e as [n|p|n p]; cbn [Viewport.elem_set_volume].
  - destruct (native_volume_in_range n H0 H1) as (n' & E & V). rewrite E.
    eexists. split; [reflexivity|]. split.
    + intros m Hm. cbn in Hm. congruence.
    + intros m Hm. discriminate.
  - destruct (clamp_is_finite H0 H1) as (c & Hc & Ec).
    destruct (set_volume_effect (JS.Fin q) p r Hc) as (p' & E & V & G). rewrite E.
    eexists. split; [reflexivity|]. split.
    + intros m Hm. discriminate.
    + intros m Hm. cbn in Hm. injection Hm as <-. split; [|exact G].
      rewrite V. exact Ec.
  - destruct (clamp_is_finite H0 H1) as (c & Hc & Ec).
    destruct (set_volume_effect (JS.Fin q) p r Hc) as (p' & E & V & G). rewrite E.
    destruct (native_volume_in_range n H0 H1) as (n' & E' & V'). rewrite E'.
    eexists. split; [reflexivity|]. split.
    + intros m Hm. cbn in Hm. congruence.
    + intros m Hm. cbn in Hm. injection Hm as <-. split; [|exact G].
      rewrite V. exact Ec.
Qed.

Lemma forEach_volume_in_range (q : Q) (l : list RMC.AudioElement) (r : Runtime) :
  (0 <= q)%Q -> (q <= 1)%Q ->
  exists l', Viewport.forEach_set_volume (JS.Fin q) l r = (l', r, Viewport.Normal) /\
             List.length l' = List.length l /\
             Forall (Viewport.at_volume (JS.Fin q)) l'.
Proof.
  intros H0 H1. induction l as [|e l IH].
  - exists []. cbn. auto.
  - destruct IH as (l' & E & L & F).
    destruct (elem_volume_in_range e r H0 H1) as (e' & Ee & A).
    exists (e' :: l'). cbn [Viewport.forEach_set_volume]. rewrite Ee, E.
    cbn [List.length]. auto.
Qed.

Lemma not_the_sentinel (q : Q) :
  (0 <= q)%Q -> Viewport.strict_eq (JS.Fin q) (JS.Fin (-1)) = false.
Proof.
  intros H0. cbn [Viewport.strict_eq].
  destruct (Qeq_bool q (-1)) eqn:E; [|reflexivity].
  apply Qeq_bool_iff in E. lra.
Qed.

(** A music volume between 0 and 1, passed as the argument or, when the
    argument is absent or is -1, read from the slider, reaches both
    halves of every channel of the pool, and is what the cookie records. *)
Theorem music_volume_reaches_every_channel (d : Viewport.Dom)
  (volume : option JS.number) (q : Q) (w : Viewport.Page) :
  (0 <= q)%Q -> (q <= 1)%Q ->
  volume = Some (JS.Fin q) \/
  ((volume = None \/ volume = Some (JS.Fin (-1))) /\
   Viewport.Number d (Viewport.client_mvolume d) = JS.Fin q) ->
  exists l,
    Viewport.changeMusicVolume d volume w
    = ({| Viewport.music := l; Viewport.blipChannels := Viewport.blipChannels w;
          Viewport.rt := Viewport.rt w;
          Viewport.cookies :=
            Viewport.cookies w ++ [("musicVolume"%string, Viewport.String_ d (JS.Fin q))] |},
       Viewport.Normal) /\
    List.length l = List.length (Viewport.music w) /\
    Forall (Viewport.at_volume (JS.Fin q)) l.
Proof.
  intros H0 H1 Hv.
  destruct (forEach_volume_in_range (Viewport.music w) (Viewport.rt w) H0 H1)
    as (l & E & L & F).
  exists l. split; [|auto].
  unfold Viewport.changeMusicVolume.
  destruct Hv as [->|[[->| ->] Hs]].
  - rewrite (not_the_sentinel H0), E. reflexivity.
  - cbn [Viewport.strict_eq]. replace (Qeq_bool (-1) (-1)) with true by reflexivity.
    rewrite Hs, E. reflexivity.
  - cbn [Viewport.strict_eq]. replace (Qeq_bool (-1) (-1)) with true by reflexivity.
    rewrite Hs, E. reflexivity.
Qed.

(** The blip slider: when its text reads as a number between 0 and 1,
    both halves of every blip channel get that number, and the cookie
    records the text. *)
Theorem blip_volume_reaches_every_channel (d : Viewport.Dom) (q : Q)
  (w : Viewport.Page) :
  (0 <= q)%Q -> (q <= 1)%Q ->
  Viewport.Number d (Viewport.client_bvolume d) = JS.Fin q ->
  exists l,
    Viewport.changeBlipVolume d w
    = ({| Viewport.music := Viewport.music w; Viewport.blipChannels := l;
          Viewport.rt := Viewport.rt w;
          Viewport.cookies :=
            Viewport.cookies w ++ [("blipVolume"%string, Viewport.client_bvolume d)] |},
       Viewport.Normal) /\
    List.length l = List.length (Viewport.blipChannels w) /\
    Forall (Viewport.at_volume (JS.Fin q)) l.
Proof.
  intros H0 H1 Hs.
  destruct (forEach_volume_in_range (Viewport.blipChannels w) (Viewport.rt w) H0 H1)
    as (l & E & L & F).
  exists l. split; [|auto].
  unfold Viewport.changeBlipVolume. rewrite Hs, E. reflexivity.
Qed.

(** A music volume above 1 makes the first channel that has a native half
    throw: the polyfill half of that channel, if it has one, is left at
    volume 1 while its native half keeps its volume, no later channel is
    written, and no cookie is recorded. *)
Theorem refused_volume_stops_the_loop (d : Viewport.Dom) (v : JS.number)
  (w : Viewport.Page) (e : RMC.AudioElement) (rest : list RMC.AudioElement)
  (n : RMC.HTMLAudioElement) :
  JS.ltb (JS.Fin 1) v = true ->
  Viewport.music w = e :: rest ->
  Viewport.native_half e = Some n ->
  exists e',
    Viewport.changeMusicVolume d (Some v) w
    = ({| Viewport.music := e' :: rest; Viewport.blipChannels := Viewport.blipChannels w;
          Viewport.rt := Viewport.rt w; Viewport.cookies := Viewport.cookies w |},
       Viewport.Thrown) /\
    Viewport.native_half e' = Some n /\
    (forall p, Viewport.software_half e = Some p ->
               exists p', Viewport.software_half e' = Some p' /\
                          _volume p' = JS.Fin 1).
Proof.
  intros Hv Hm Hn.
  assert (S : Viewport.strict_eq v (JS.Fin (-1)) = false).
  { destruct v as [| | |q]; try reflexivity. cbn [Viewport.strict_eq].
    cbn [JS.ltb] in Hv. destruct (Qeq_bool q (-1)) eqn:E; [|reflexivity].
    apply Qeq_bool_iff in E. apply Bool.negb_true_iff, Qle_bool_false in Hv. lra. }
  assert (R : Viewport.native_set_volume v n = None).
  { destruct v as [| | |q]; try reflexivity. cbn [Viewport.native_set_volume].
    cbn [JS.ltb] in Hv. apply Bool.negb_true_iff in Hv.
    rewrite Hv, Bool.andb_false_r. reflexivity. }
  assert (C : JS.Math_max (JS.Fin 0) (JS.Math_min (JS.Fin 1) v) = JS.Fin 1).
  { destruct v as [| | |q]; try discriminate; cbn [JS.Math_min].
    - reflexivity.
    - cbn [JS.ltb] in Hv. apply Bool.negb_true_iff in Hv.
      cbn [JS.ltb]. destruct (Qle_bool 1 q) eqn:A.
      + reflexivity.
      + cbn [negb]. apply Qle_bool_false in A, Hv. lra. }
  unfold Viewport.changeMusicVolume. rewrite S, Hm.
  cbn [Viewport.forEach_set_volume].
  destruct e as [m|p|m p]; cbn [Viewport.native_half] in Hn; try discriminate;
    injection Hn as ->; cbn [Viewport.elem_set_volume].
  - rewrite R. eexists. split; [reflexivity|]. split; [reflexivity|].
    intros p Hp. discriminate.
  - destruct (set_volume_effect v p (Viewport.rt w) C) as (p' & E & V & _).
    rewrite E, R. eexists. split; [reflexivity|]. split; [reflexivity|].
    intros p0 _. exists p'. split; [reflexivity|]. now rewrite V.
Qed.

Lemma music_volume_reaches_every_channel_witness :
  exists l,
    Viewport.changeMusicVolume Fixtures.dom None Fixtures.page
    = ({| Viewport.music := l;
          Viewport.blipChannels := Viewport.blipChannels Fixtures.page;
          Viewport.rt := Viewport.rt Fixtures.page;
          Viewport.cookies :=
            Viewport.cookies Fixtures.page ++
            [("musicVolume"%string, Viewport.String_ Fixtures.dom (JS.Fin (1 # 2)))] |},
       Viewport.Normal) /\
    List.length l = List.length (Viewport.music Fixtures.page) /\
    Forall (Viewport.at_volume (JS.Fin (1 # 2))) l.
Proof.
  apply (@music_volume_reaches_every_channel Fixtures.dom None (1 # 2) Fixtures.page).
  - vm_compute. discriminate.
  - vm_compute. discriminate.
  - right. split; [left; reflexivity | vm_compute; reflexivity].
Defined.

Lemma blip_volume_reaches_every_channel_witness :
  exists l,
    Viewport.changeBlipVolume Fixtures.dom Fixtures.page
    = ({| Viewport.music := Viewport.music Fixtures.page;
          Viewport.blipChannels := l;
          Viewport.rt := Viewport.rt Fixtures.page;
          Viewport.cookies :=
            Viewport.cookies Fixtures.page ++
            [("blipVolume"%string, Viewport.client_bvolume Fixtures.dom)] |},
       Viewport.Normal) /\
    List.length l = List.length (Viewport.blipChannels Fixtures.page) /\
    Forall (Viewport.at_volume (JS.Fin (1 # 2))) l.
Proof.
  apply (@blip_volume_reaches_every_channel Fixtures.dom (1 # 2) Fixtures.page).
  - vm_compute. discriminate.
  - vm_compute. discriminate.
  - vm_compute. reflexivity.
Defined.

Lemma refused_volume_stops_the_loop_witness :
  exists e',
    Viewport.changeMusicVolume Fixtures.dom (Some (JS.Fin 2)) Fixtures.page
    = ({| Viewport.music := e' :: [RMC.Native (Samples.element "song.mp3")];
          Viewport.blipChannels := Viewport.blipChannels Fixtures.page;
          Viewport.rt := Viewport.rt Fixtures.page;
          Viewport.cookies := Viewport.cookies Fixtures.page |},
       Viewport.Thrown) /\
    Viewport.native_half e' = Some (Samples.element "song.opus") /\
    (forall p,
        Viewport.software_half
          (RMC.Wrapped (Samples.element "song.opus") (this Samples.playing)) = Some p ->
        exists p', Viewport.software_half e' = Some p' /\ _volume p' = JS.Fin 1).
Proof.
  apply (@refused_volume_stops_the_loop Fixtures.dom (JS.Fin 2) Fixtures.page
           (RMC.Wrapped (Samples.element "song.opus") (this Samples.playing))
           [RMC.Native (Samples.element "song.mp3")] (Samples.element "song.opus")).
  - vm_compute. reflexivity.
  - reflexivity.
  - reflexivity.
Defined.

(** What a channel of [createMusic] looks like on a host that needs the
    polyfill. *)
Lemma prepare_shape (i : nat) (opusCheck : RMC.HTMLAudioElement -> nat)
  (channel : RMC.HTMLAudioElement) (r : Runtime) :
  exists n p,
    Viewport.prepare true i opusCheck channel r
    = Some (RMC.Wrapped n p, Some (opusCheck n), r) /\
    RMC.volume n = JS.Fin (1 # 2) /\
    onerror p = None /\ _src p = EmptyString /\
    _volume p = JS.Fin (1 # 2) /\ gainNode p = Some (JS.Fin (1 # 2)) /\
    _loop p = RMC.loop channel.
Proof.
  unfold Viewport.prepare. cbn [Viewport.native_set_volume].
  replace (Qle_bool 0 (1 # 2) && Qle_bool (1 # 2) 1) with true by reflexivity.
  unfold RMC.wrapAudioElement. cbn [negb RMC.volume RMC.loop].
  unfold RMC.lift. cbn. destruct r as [c d t f]. cbn.
  eexists. eexists. split; [reflexivity|]. cbn. auto 10.
Qed.

(** Every channel that [createMusic] and [createBlipsChannels] make on a
    host that needs the polyfill is a proxy whose native half has volume
    0.5 and the error handler of [opusCheck], and whose polyfill half has
    volume and gain 0.5, the loop flag of the native element, no source
    and no error handler. *)
Theorem created_channels_have_no_error_hook
  (create : bool -> nat -> (RMC.HTMLAudioElement -> nat) -> list RMC.HTMLAudioElement ->
            Runtime -> option (list (RMC.AudioElement * option nat) * Runtime))
  (i : nat) (opusCheck : RMC.HTMLAudioElement -> nat)
  (channels : list RMC.HTMLAudioElement) (r : Runtime) :
  In create [Viewport.createMusic; Viewport.createBlipsChannels] ->
  exists l,
    create true i opusCheck channels r = Some (l, r) /\
    List.length l = List.length channels /\
    Forall (fun c => exists n p,
                fst c = RMC.Wrapped n p /\ snd c = Some (opusCheck n) /\
                RMC.volume n = JS.Fin (1 # 2) /\
                onerror p = None /\ _src p = EmptyString /\
                _volume p = JS.Fin (1 # 2) /\ gainNode p = Some (JS.Fin (1 # 2)) /\
                _loop p = RMC.loop n) l.
Proof.
  intros Hc.
  assert (G : exists l,
             Viewport.map_prepare true i opusCheck channels r = Some (l, r) /\
             List.length l = List.length channels /\
             Forall (fun c => exists n p,
                         fst c = RMC.Wrapped n p /\ snd c = Some (opusCheck n) /\
                         RMC.volume n = JS.Fin (1 # 2) /\
                         onerror p = None /\ _src p = EmptyString /\
                         _volume p = JS.Fin (1 # 2) /\
                         gainNode p = Some (JS.Fin (1 # 2)) /\
                         _loop p = RMC.loop n) l).
  { revert i. induction channels as [|channel rest IH]; intros i.
    - exists []. cbn. auto.
    - destruct (IH (S i)) as (l & E & L & F).
      destruct (prepare_shape i opusCheck channel r)
        as (n & p & P & V & A1 & A2 & A3 & A4 & A5).
      exists ((RMC.Wrapped n p, Some (opusCheck n)) :: l).
      cbn [Viewport.map_prepare]. rewrite P, E. split; [reflexivity|].
      split; [cbn; now rewrite L|]. constructor; [|exact F].
      exists n, p. cbn [fst snd].
      assert (Ln : RMC.loop n = RMC.loop channel).
      { unfold Viewport.prepare in P. cbn [Viewport.native_set_volume] in P.
        replace (Qle_bool 0 (1 # 2) && Qle_bool (1 # 2) 1) with true in P by reflexivity.
        unfold RMC.wrapAudioElement in P. cbn [negb] in P.
        destruct (RMC.lift _ _ _) as [p1 r1] in P.
        destruct (RMC.lift _ _ _) as [p2 r2] in P.
        injection P as <- _ _. reflexivity. }
      rewrite Ln. auto 10. }
  destruct Hc as [<-|[<-|[]]]; exact G.
Qed.

Lemma created_channels_have_no_error_hook_witness :
  exists l,
    Viewport.createMusic true 1 (fun _ => 7)
      [Samples.element ""; Samples.element ""] Samples.runtime
    = Some (l, Samples.runtime) /\
    List.length l = List.length [Samples.element ""; Samples.element ""] /\
    Forall (fun c => exists n p,
                fst c = RMC.Wrapped n p /\ snd c = Some ((fun _ => 7) n) /\
                RMC.volume n = JS.Fin (1 # 2) /\
                onerror p = None /\ _src p = EmptyString /\
                _volume p = JS.Fin (1 # 2) /\ gainNode p = Some (JS.Fin (1 # 2)) /\
                _loop p = RMC.loop n) l.
Proof.
  apply (@created_channels_have_no_error_hook Viewport.createMusic 1 (fun _ => 7)
           [Samples.element ""; Samples.element ""] Samples.runtime).
  left. reflexivity.
Defined.

(** On a handle without an [onerror] handler a failed load is silent: the
    error is stored, no hook is called, and a [play()] that follows calls
    no hook and starts nothing either. *)
Theorem failure_without_hook_is_silent (h : Decoder.Host) (s : Sys) (u : string)
  (p : Decoder.Pending) (r : list Task) (e : Decoder.Error) (d : Decoder.State) :
  onerror (this s) = None ->
  audioBuffer (this s) = None ->
  take_load (id (this s)) (tasks (rt s)) = Some (u, p, r) ->
  Decoder.decode_finish h p (dec (rt s)) = (Decoder.Throw e, d) ->
  let s1 := settle_load h s in
  loadError (this s1) = Some e /\
  isLoading (this s1) = false /\
  fired (rt s1) = fired (rt s) /\
  fired (rt (play_body s1)) = fired (rt s) /\
  Shape.nodes (play_body s1) = Shape.nodes s /\
  _paused (this (play_body s1)) = _paused (this s).
Proof.
  intros Ho Hb Ht Hd. unfold settle_load. rewrite Ht, Hd.
  unfold loadAudio_resume, play_body, notify, Shape.nodes.
  open_sys s. cbn in Ho, Hb. subst. cbn. auto 10.
Qed.

Lemma failure_without_hook_is_silent_witness :
  let s := set_src "empty.opus" (fresh_sys 1) in
  let s1 := settle_load Samples.host s in
  loadError (this s1) = Some (Decoder.NoSamples "empty.opus") /\
  isLoading (this s1) = false /\
  fired (rt s1) = fired (rt s) /\
  fired (rt (play_body s1)) = fired (rt s) /\
  Shape.nodes (play_body s1) = Shape.nodes s /\
  _paused (this (play_body s1)) = _paused (this s).
Proof.
  intros s.
  apply (@failure_without_hook_is_silent Samples.host s "empty.opus"
           (Decoder.Miss "empty.opus") [] (Decoder.NoSamples "empty.opus")
           (snd (Decoder.decode_finish Samples.host (Decoder.Miss "empty.opus")
                   (dec (rt s))))).
  - reflexivity.
  - reflexivity.
  - reflexivity.
  - reflexivity.
Defined.

End ViewportFacts.

(* ------------------------------------------------------------------ *)
(** ** Offset commands and the music pool *)

Section ChannelFacts.

Import RMC.
Import Accepted.
Local Open Scope nat_scope.

Lemma replace_nth_same (i : nat) (e : AudioElement) (l : list AudioElement) :
  nth_error l i = Some e -> replace_nth i e l = l.
Proof.
  revert i. induction l as [|x r IH]; intros [|i]; simpl; try discriminate.
  - now intros [= ->].
  - intros H. now rewrite IH.
Qed.

Lemma sought_finite (v : JS.number) (n : HTMLAudioElement) :
  finite v ->
  listeners (sought v n) = listeners n /\
  received (sought v n) = received n ++ [NSetCurrentTime v] /\
  currentTime (sought v n) = v /\
  paused (sought v n) = paused n.
Proof. intros [q ->]. repeat split. Qed.

(** [onLoaded] on a channel that is a native element, when the position
    it computes is a finite number. *)
Lemma onLoaded_native (f : Closure) (w : World) (n : HTMLAudioElement) :
  nth_error (music w) (c_music f) = Some (Native n) ->
  finite (target f w) ->
  onLoaded f w
  = Returned
      (put (c_music f)
         (Native (native_removeEventListener f
                    (native_play (sought (target f w) n))))
         (rt w) w).
Proof.
  intros H [q Hq]. unfold onLoaded, sought. rewrite H, Hq. reflexivity.
Qed.

(** The listeners of a native channel, run one after the other, act on
    the element alone. *)
Lemma listeners_run (i : nat) (l : list Closure) (w : World) (n : HTMLAudioElement) :
  nth_error (music w) i = Some (Native n) ->
  Forall (fun g => c_music g = i) l ->
  Forall (fun g => finite (target g w)) l ->
  fold_left (fun w' f => world_of (onLoaded f w')) l w
  = put i
      (Native
         (fold_left
            (fun m g => native_removeEventListener g
                          (native_play (sought (target g w) m)))
            l n))
      (rt w) w.
Proof.
  revert w n. induction l as [|f l IH]; intros w n Hn Hl Hq.
  - cbn [fold_left]. unfold put. rewrite (@replace_nth_same _ _ _ Hn).
    destruct w; reflexivity.
  - inversion Hl as [|? ? Hf Hl']; subst.
    inversion Hq as [|? ? Hqf Hq']; subst. cbn [fold_left].
    rewrite (@onLoaded_native f w n Hn Hqf). cbn [world_of].
    set (n1 := native_removeEventListener f
                 (native_play (sought (target f w) n))).
    set (w1 := put (c_music f) (Native n1) (rt w) w).
    assert (Hn1 : nth_error (music w1) (c_music f) = Some (Native n1))
      by (apply nth_error_replace_nth with (e := Native n); exact Hn).
    assert (Hq1 : Forall (fun g => finite (target g w1)) l) by exact Hq'.
    rewrite (IH w1 n1 Hn1 Hl' Hq1).
    unfold put, w1. cbn [music rt clock timers nextId put].
    rewrite replace_nth_twice. reflexivity.
Qed.

Lemma listeners_leave (tg : Closure -> JS.number) (l : list Closure)
  (n : HTMLAudioElement) :
  Forall (fun g => finite (tg g)) l ->
  let n' := fold_left
              (fun m g => native_removeEventListener g
                            (native_play (sought (tg g) m))) l n in
  listeners n'
  = filter (fun c => negb (existsb (fun g => (c_id c =? c_id g)) l)) (listeners n) /\
  received n'
  = received n ++
    flat_map (fun g => [NSetCurrentTime (tg g); NPlay; NRemoveEventListener (c_id g)]) l.
Proof.
  revert n. induction l as [|f l IH]; intros n Hq; cbn [fold_left].
  - split.
    + cbn [existsb negb].
      induction (listeners n) as [|c r IHr]; cbn; [reflexivity | now rewrite <- IHr].
    + cbn. now rewrite app_nil_r.
  - inversion Hq as [|? ? Hqf Hq']; subst.
    destruct (IH (native_removeEventListener f
                    (native_play (sought (tg f) n))) Hq') as (L & R).
    destruct (sought_finite n Hqf) as (SL & SR & _ & _).
    split.
    + cbv zeta in L. rewrite L.
      cbn [listeners native_removeEventListener native_play existsb].
      rewrite SL. clear.
      induction (listeners n) as [|c r IHr]; cbn [filter]; [reflexivity|].
      destruct (c_id c =? c_id f); cbn [negb orb filter]; [exact IHr|].
      destruct (existsb _ l); cbn [negb]; now rewrite IHr.
    + cbv zeta in R. rewrite R.
      cbn [received native_removeEventListener native_play flat_map].
      rewrite SR, <- !app_assoc. reflexivity.
Qed.

(** One "loadedmetadata" event on a native channel runs every listener
    that offset commands have left on it, in the order of the commands,
    when the position each of them computes is a finite number: each
    seeks, plays and removes itself, so the position written last is the
    one of the last command and no listener is left. *)
Theorem one_event_runs_every_listener (i : nat) (t : Z) (w : World)
  (n : HTMLAudioElement) (fs : list Closure) (f : Closure) :
  nth_error (music w) i = Some (Native n) ->
  listeners n = fs ++ [f] ->
  Forall (fun g => c_music g = i) (listeners n) ->
  Forall (fun g => exists q, target g (at_clock t w) = JS.Fin q) (listeners n) ->
  exists n',
    dispatch_loadedmetadata i t w
    = put i (Native n') (rt w) (at_clock t w) /\
    listeners n' = [] /\
    currentTime n' = target f (at_clock t w) /\
    paused n' = false /\
    received n'
    = received n ++
      flat_map (fun g => [NSetCurrentTime (target g (at_clock t w)); NPlay;
                          NRemoveEventListener (c_id g)]) (fs ++ [f]).
Proof.
  intros Hn Hl Hf Hq. unfold dispatch_loadedmetadata, channel_listeners.
  rewrite Hn. cbn [listeners_of].
  assert (Hn' : nth_error (music (at_clock t w)) i = Some (Native n)) by exact Hn.
  rewrite (@listeners_run i (listeners n) (at_clock t w) n Hn' Hf Hq).
  eexists. split; [reflexivity|].
  destruct (@listeners_leave (fun g => target g (at_clock t w)) (listeners n) n Hq)
    as (L & R).
  cbv zeta in L, R.
  assert (Hlast : finite (target f (at_clock t w))).
  { rewrite Hl in Hq. apply Forall_app in Hq. destruct Hq as [_ Hq].
    now inversion Hq. }
  split; [|split; [|split]].
  - rewrite L. clear.
    assert (G : forall l k, (forall c, In c l -> In c k) ->
                filter (fun c => negb (existsb (fun g => (c_id c =? c_id g)) k)) l = []).
    { induction l as [|c l IH]; intros k H; cbn [filter]; [reflexivity|].
      assert (E : existsb (fun g => c_id c =? c_id g) k = true).
      { apply existsb_exists. exists c. split; [apply H; now left | apply Nat.eqb_refl]. }
      rewrite E. cbn [negb]. apply IH. intros c' Hc'. apply H. now right. }
    apply G. auto.
  - rewrite Hl, fold_left_app. cbn [fold_left].
    cbn [currentTime native_removeEventListener native_play].
    now destruct (sought_finite
                    (fold_left
                       (fun m g => native_removeEventListener g
                                     (native_play (sought (target g (at_clock t w)) m)))
                       fs n) Hlast) as (_ & _ & C & _).
  - rewrite Hl, fold_left_app. reflexivity.
  - rewrite R, Hl. reflexivity.
Qed.

Lemma one_event_runs_every_listener_witness :
  let w2 :=
    world_of (handleRMC decimal_host ["RMC"; "7"; "0"]%string
                (at_clock 1700000000200
                   (world_of (handleRMC decimal_host ["RMC"; "5"; "0"]%string
                                Samples.page_native)))) in
  exists n',
    channel_listeners 0 w2 <> [] /\
    dispatch_loadedmetadata 0 1700000000300 w2
    = put 0 (Native n') (rt w2) (at_clock 1700000000300 w2) /\
    listeners n' = [] /\
    paused n' = false.
Proof.
  intros w2.
  pose (f1 := {| c_id := 0; c_music := 0; c_totime := JS.Fin 5;
                 c_loadStartTime := JS.seconds 1700000000000 |}).
  pose (f2 := {| c_id := 1; c_music := 0; c_totime := JS.Fin 7;
                 c_loadStartTime := JS.seconds 1700000000200 |}).
  pose (n := {| src := "https://host/song.opus"; volume := JS.Fin (1 # 2);
                loop := true; paused := true; currentTime := JS.Fin 0;
                listeners := [f1; f2];
                received := [NSetSrc "https://host/song.opus"; NPause;
                             NAddEventListener 0; NPause; NAddEventListener 1] |}).
  assert (Hn : nth_error (music w2) 0 = Some (Native n)) by (vm_compute; reflexivity).
  assert (Hl : listeners n = [f1] ++ [f2]) by reflexivity.
  assert (Hf : Forall (fun g => c_music g = 0) (listeners n))
    by (repeat constructor).
  assert (Hq : Forall (fun g => exists q, target g (at_clock 1700000000300 w2) = JS.Fin q)
                 (listeners n))
    by (repeat constructor; eexists; vm_compute; reflexivity).
  destruct (@one_event_runs_every_listener 0 1700000000300 w2 n [f1] f2 Hn Hl Hf Hq)
    as (n' & D & L & _ & P & _).
  exists n'. split; [|split; [exact D | split; [exact L | exact P]]].
  unfold channel_listeners. rewrite Hn. discriminate.
Defined.

Lemma nth_error_replace_nth_other (i j : nat) (e : AudioElement) (l : list AudioElement) :
  j <> i -> nth_error (replace_nth i e l) j = nth_error l j.
Proof.
  revert i j. induction l as [|x r IH]; intros [|i] [|j] H; simpl; auto; try lia.
Qed.

(** An offset command writes the channel it names and no other: every
    other entry of the music pool is what it was, whether the command
    returns or throws. *)
Theorem offset_command_writes_one_channel (h : Host) (args : list string) (w : World)
  (i j : nat) (e : AudioElement) :
  lookup (JS.or (Number h (nth_error args 2)) (JS.Fin 0)) w = Some (i, e) ->
  j <> i ->
  nth_error (music (world_of (handleRMC h args w))) j = nth_error (music w) j.
Proof.
  intros H Hj. unfold handleRMC. rewrite H.
  destruct (elem_pause e (rt w)) as [e1 r1].
  destruct (instanceof_HTMLAudioElement e1).
  - destruct (elem_addEventListener _ e1) as [e2|]; cbn [world_of bump put music].
    + now rewrite !nth_error_replace_nth_other.
    + now rewrite nth_error_replace_nth_other.
  - cbn [world_of bump put music with_timers].
    now rewrite nth_error_replace_nth_other.
Qed.

(** The same holds of the two callbacks, when they run. *)
Theorem offset_callback_writes_one_channel (f : Closure) (w : World) (j : nat) :
  j <> c_music f ->
  nth_error (music (world_of (onLoaded f w))) j = nth_error (music w) j /\
  nth_error (music (world_of (onTimeout f w))) j = nth_error (music w) j.
Proof.
  intros Hj. unfold onLoaded, onTimeout.
  destruct (nth_error (music w) (c_music f)) as [e|]; [|split; reflexivity].
  destruct (elem_set_currentTime (target f w) e (rt w)) as [[e1 r1] [|]].
  - split; cbn [world_of put music]; now rewrite nth_error_replace_nth_other.
  - destruct (elem_play e1 r1) as [e2 r2].
    split.
    + destruct (elem_removeEventListener f e2); cbn [world_of put music];
        now rewrite nth_error_replace_nth_other.
    + cbn [world_of put music]. now rewrite nth_error_replace_nth_other.
Qed.

(** Two native channels; the command names the second. *)
Lemma offset_command_writes_one_channel_witness :
  let w := Samples.page [Native (Samples.element "a.mp3");
                         Native (Samples.element "b.mp3")] in
  nth_error (music (world_of (handleRMC decimal_host ["RMC"; "5"; "1"]%string w))) 0
  = nth_error (music w) 0.
Proof.
  intros w.
  apply (@offset_command_writes_one_channel decimal_host ["RMC"; "5"; "1"]%string w
           1 0 (Native (Samples.element "b.mp3"))).
  - vm_compute. reflexivity.
  - discriminate.
Defined.

Lemma offset_callback_writes_one_channel_witness :
  let w := Samples.page [Native (Samples.element "a.mp3");
                         Native (Samples.element "b.mp3")] in
  let f := {| c_id := 0; c_music := 1; c_totime := JS.Fin 5;
              c_loadStartTime := JS.seconds 1700000000000 |} in
  nth_error (music (world_of (onLoaded f w))) 0 = nth_error (music w) 0 /\
  nth_error (music (world_of (onTimeout f w))) 0 = nth_error (music w) 0.
Proof.
  intros w f.
  apply (@offset_callback_writes_one_channel f w 0).
  discriminate.
Defined.

End ChannelFacts.

(* ------------------------------------------------------------------ *)
(** ** The decode cache under handle traffic *)

Section BoundFacts.

Import Polyfill.
Local Open Scope nat_scope.

Lemma take_load_named (i : nat) (l r : list Task) (u : string) (p : Decoder.Pending) :
  take_load i l = Some (u, p, r) -> forallb Shape.named l = true ->
  Shape.named (LoadTask i u p) = true /\ forallb Shape.named r = true.
Proof.
  revert r. induction l as [|t l IH]; intros r; cbn [take_load]; [discriminate|].
  intros H N. cbn [forallb] in N. apply andb_prop in N as [N1 N2].
  destruct t as [o u0 p0|o|o].
  - destruct (o =? i) eqn:E.
    + injection H as <- <- <-. split; [exact N1 | exact N2].
    + destruct (take_load i l) as [[[u' p'] r']|]; [|discriminate].
      injection H as <- <- <-. destruct (IH _ eq_refl N2) as [A B].
      split; [exact A|]. cbn [forallb]. now rewrite N1, B.
  - destruct (take_load i l) as [[[u' p'] r']|]; [|discriminate].
    injection H as <- <- <-. destruct (IH _ eq_refl N2) as [A B].
    split; [exact A | exact B].
  - destruct (take_load i l) as [[[u' p'] r']|]; [|discriminate].
    injection H as <- <- <-. destruct (IH _ eq_refl N2) as [A B].
    split; [exact A | exact B].
Qed.

Lemma take_play_named (i : nat) (l r : list Task) :
  take_play i l = Some r -> forallb Shape.named l = true -> forallb Shape.named r = true.
Proof.
  revert r. induction l as [|t l IH]; intros r; cbn [take_play]; [discriminate|].
  intros H N. cbn [forallb] in N. apply andb_prop in N as [N1 N2].
  destruct t as [o u0 p0|o|o].
  - destruct (take_play i l); cbn in H; [|discriminate].
    injection H as <-. cbn [forallb]. now rewrite N1, (IH _ eq_refl N2).
  - destruct (o =? i).
    + now injection H as <-.
    + destruct (take_play i l); cbn in H; [|discriminate].
      injection H as <-. cbn [forallb]. now rewrite (IH _ eq_refl N2).
  - destruct (take_play i l); cbn in H; [|discriminate].
    injection H as <-. cbn [forallb]. now rewrite (IH _ eq_refl N2).
Qed.

Lemma take_poll_named (i : nat) (l r : list Task) :
  take_poll i l = Some r -> forallb Shape.named l = true -> forallb Shape.named r = true.
Proof.
  revert r. induction l as [|t l IH]; intros r; cbn [take_poll]; [discriminate|].
  intros H N. cbn [forallb] in N. apply andb_prop in N as [N1 N2].
  destruct t as [o u0 p0|o|o].
  - destruct (take_poll i l); cbn in H; [|discriminate].
    injection H as <-. cbn [forallb]. now rewrite N1, (IH _ eq_refl N2).
  - destruct (take_poll i l); cbn in H; [|discriminate].
    injection H as <-. cbn [forallb]. now rewrite (IH _ eq_refl N2).
  - destruct (o =? i).
    + now injection H as <-.
    + destruct (take_poll i l); cbn in H; [|discriminate].
      injection H as <-. cbn [forallb]. now rewrite (IH _ eq_refl N2).
Qed.

(** [loadAudio] under a non-empty uri keeps the shape. *)
Lemma loadAudio_bounded (url : string) (s : Sys) :
  JS.truthy_string url = true -> Shape.bounded s -> Shape.bounded (loadAudio url s).
Proof.
  intros Hu (K & B & N). unfold loadAudio.
  destruct (isLoading (this s)); [now split|].
  unfold Decoder.decode_begin.
  destruct s as [p r]; destruct r as [c d t f]; cbn in K, B, N |- *.
  destruct (Decoder.cache_get url (Decoder.audioBufferCache d)); unfold Shape.bounded;
    cbn; (split; [exact K | split; [exact B|]]);
    rewrite forallb_app, N; cbn; rewrite ?Hu; reflexivity.
Qed.

(** Methods that touch neither the decoder module nor the suspended
    calls. *)
Lemma same_bounded (s s' : Sys) :
  dec (rt s') = dec (rt s) -> tasks (rt s') = tasks (rt s) ->
  Shape.bounded s -> Shape.bounded s'.
Proof. unfold Shape.bounded. intros -> ->. auto. Qed.

Lemma play_body_keeps_dec (s : Sys) :
  dec (rt (play_body s)) = dec (rt s) /\ tasks (rt (play_body s)) = tasks (rt s).
Proof.
  unfold play_body, stop, playFromOffset, notify.
  open_sys s. cbn. break_inner; cbn; auto.
Qed.

Lemma decode_finish_cache (h : Decoder.Host) (p : Decoder.Pending) (d : Decoder.State) :
  Decoder.audioBufferCache (snd (Decoder.decode_finish h p d))
  = Decoder.audioBufferCache d \/
  exists u b, p = Decoder.Miss u /\
              Decoder.audioBufferCache (snd (Decoder.decode_finish h p d))
              = Decoder.cache_insert u b (Decoder.audioBufferCache d).
Proof.
  unfold Decoder.decode_finish. destruct p as [b|u]; cbn; auto.
  destruct (negb _); cbn; auto.
  destruct (_ =? 0); cbn; auto.
  destruct (Decoder.createBuffer _ _ _ _); cbn; auto.
  destruct (Decoder.fill _ _); cbn; eauto.
Qed.

Lemma step_keeps_bounded (h : Decoder.Host) (o : Op) (s : Sys) :
  Shape.bounded s -> Shape.bounded (run h o s).
Proof.
  intros H. destruct o; cbn [run].
  - (* SetSrc *)
    unfold set_src.
    destruct (JS.truthy_string v && JS.endsWith v ".opus") eqn:E.
    + apply andb_prop in E as [E _]. apply loadAudio_bounded; [exact E|].
      revert H. apply same_bounded; destruct s; reflexivity.
    + revert H. apply same_bounded; destruct s; reflexivity.
  - revert H. apply same_bounded; unfold set_volume; open_sys s; cbn;
      break_inner; reflexivity.
  - revert H. apply same_bounded; unfold set_loop; open_sys s; cbn;
      break_inner; reflexivity.
  - revert H. apply same_bounded; unfold set_currentTime, stop, playFromOffset;
      open_sys s; cbn; break_inner; reflexivity.
  - destruct H as (K & B & N). unfold play, suspend, Shape.bounded.
    destruct s as [p r]; destruct r; cbn in *.
    split; [exact K | split; [exact B|]]. rewrite forallb_app, N. reflexivity.
  - revert H. apply same_bounded; unfold pause, stop, notify; open_sys s; cbn;
      break_inner; reflexivity.
  - unfold load. destruct (JS.truthy_string (_src (this s))) eqn:E; [|exact H].
    now apply loadAudio_bounded.
  - (* WakePlay *)
    unfold wake_play. destruct (take_play _ _) as [r|] eqn:E; [|exact H].
    destruct H as (K & B & N). pose proof (take_play_named _ _ E N) as N'.
    unfold play_resume. cbn [this rt on_ctx put_tasks].
    destruct (isLoading (this s)).
    + unfold suspend, Shape.bounded. cbn.
      split; [exact K | split; [exact B|]]. rewrite forallb_app, N'. reflexivity.
    + destruct (play_body_keeps_dec (on_ctx WebAudio.resumed (put_tasks r s)))
        as (P1 & P2).
      apply (@same_bounded (on_ctx WebAudio.resumed (put_tasks r s))); auto.
      unfold Shape.bounded. cbn. auto.
  - (* WakePoll *)
    unfold wake_poll. destruct (take_poll _ _) as [r|] eqn:E; [|exact H].
    destruct H as (K & B & N). pose proof (take_poll_named _ _ E N) as N'.
    unfold play_poll. cbn [this rt put_tasks].
    destruct (isLoading (this s)); cbn [negb].
    + unfold suspend, Shape.bounded. cbn.
      split; [exact K | split; [exact B|]]. rewrite forallb_app, N'. reflexivity.
    + destruct (play_body_keeps_dec (put_tasks r s)) as (P1 & P2).
      apply (@same_bounded (put_tasks r s)); auto.
      unfold Shape.bounded. cbn. auto.
  - (* Settle *)
    unfold settle_load.
    destruct (take_load _ _) as [[[u p] r]|] eqn:E; [|exact H].
    destruct H as (K & B & N).
    destruct (take_load_named _ _ E N) as (Np & Nr).
    pose proof (decode_finish_cache h p (dec (rt s))) as C.
    destruct (Decoder.decode_finish h p (dec (rt s))) as [res d]. cbn [snd] in C.
    assert (G : Shape.bounded (put_dec d (put_tasks r s))).
    { unfold Shape.bounded. cbn.
      destruct C as [->|(u0 & b & -> & ->)]; [auto|].
      cbn [Shape.named] in Np.
      destruct (@cache_insert_bound u0 b _ K Np B) as (K' & B'). auto. }
    revert G. apply same_bounded;
      unfold loadAudio_resume, notify; destruct (put_dec d (put_tasks r s)) as [p0 r0];
      destruct p0, r0, res; cbn; break_inner; reflexivity.
  - revert H. apply same_bounded; unfold dispatch_ended, sourceNode_onended, notify;
      open_sys s; cbn; break_inner; reflexivity.
  - revert H. apply same_bounded; destruct s; reflexivity.
Qed.

(** Driven through a handle, the decode cache never has an empty key and
    never holds more than 101 buffers, whatever the host answers. *)
Theorem handle_runs_keep_the_cache_bounded (h : Decoder.Host) (ops : list Op) (s : Sys) :
  Shape.bounded s -> Shape.bounded (run_all h ops s).
Proof.
  revert s. induction ops as [|o r IH]; intros s H; cbn [run_all]; auto.
  apply IH. now apply step_keeps_bounded.
Qed.

(** Two tracks loaded one after the other on the sample handle. *)
Lemma handle_runs_keep_the_cache_bounded_witness :
  Decoder.cache_size
    (Decoder.audioBufferCache
       (dec (rt (run_all Samples.host
                   [SetSrc "song.opus"; Settle; SetSrc "next.opus"; Play; Settle]
                   Samples.listening))))
  <= 101.
Proof.
  assert (H : Shape.bounded Samples.listening).
  { split; [intros k [] | split; [cbn; lia | reflexivity]]. }
  destruct (@handle_runs_keep_the_cache_bounded Samples.host
              [SetSrc "song.opus"; Settle; SetSrc "next.opus"; Play; Settle]
              Samples.listening H) as (_ & B & _).
  exact B.
Defined.

End BoundFacts.
